(** * The analytic engine of the process twin (process_analyzer.py) and the
    service around it (api.py, ai_report.py)

    A shallow embedding of [analyze_dataframe] and [compute_kpis], of the
    accounts and sessions of the service, of the endpoints that read a file
    and of the summary that is handed to the language model.  The two
    functions of the engine are written against pandas; the part of pandas
    they use is modelled here next to them:

    - a [DataFrame] is a list of column names and a list of rows; a row
      carries the three columns the engine reads ([case_id], [step],
      [timestamp]) and the three columns [compute_kpis] adds to its own
      working copy ([next_timestamp], [next_step], [delta_hours]);
    - a missing value (None, NaN, NaT) is [None] / [Missing] / [NaN];
    - a case identifier is an integer, a step a string;
    - a point in time is an integer number of nanoseconds (datetime64[ns]);
      [pd.to_datetime] works cell by cell, with the parser of the text
      values as a parameter;
    - hour values are exact rationals where the program has binary floats;
    - [sort_values] on several keys goes through numpy's lexsort, which is a
      stable sort; [sort_values] on a single key and [value_counts] go
      through [argsort(kind="quicksort")], the pandas default, of which numpy
      promises a sorted permutation and nothing about ties.  The first is a
      function here, the second an interface ([NumpyArgsort]).

    For the service: a [str] is a [string], one [ascii] for each of its
    characters; the SQLite database is its two tables, each a list of rows
    in the order of insertion, with the constraints of the schema (UNIQUE,
    PRIMARY KEY, AUTOINCREMENT) in the statements that write; an endpoint is
    a function of the request and the database that gives an answer, an
    [HTTPException] or an exception nobody catches; what the outside world
    decides (the digest, the token drawn, the clock, the readers of files,
    the language model) comes in as a parameter. *)

From Stdlib Require Import List ZArith QArith Qround String Bool Arith Lia.
From Stdlib Require Import Permutation Sorted Lqa.
From Stdlib Require OrderedTypeEx.
Import ListNotations.

Local Open Scope string_scope.
Local Open Scope list_scope.
Local Open Scope nat_scope.

(** ** Values *)

(** A cell of the [timestamp] column: missing, a datetime64 value, or any
    other object (text read from a file) that still has to be parsed. *)
Inductive Cell : Type :=
| Missing
| Datetime (ns : Z)
| Text (raw : string).

(** A float of the program: NaN or a finite value. *)
Inductive Float : Type :=
| NaN
| Fin (q : Q).

Record Row : Type := mkRow {
  case_id : option Z;
  step : option string;
  timestamp : Cell;
  next_timestamp : Cell;
  next_step : option string;
  delta_hours : Float
}.

(** A row of an input table: the columns of [compute_kpis] are not there. *)
Definition event (c : option Z) (s : option string) (t : Cell) : Row :=
  mkRow c s t Missing None NaN.

Record DataFrame : Type := mkDataFrame {
  columns : list string;
  rows : list Row
}.

Definition has_column (name : string) (df : DataFrame) : bool :=
  existsb (String.eqb name) (columns df).

(** [{"case_id", "step"}.issubset(df.columns)] *)
Definition issubset (names : list string) (df : DataFrame) : bool :=
  forallb (fun n => has_column n df) names.

Definition add_column (name : string) (cols : list string) : list string :=
  if existsb (String.eqb name) cols then cols else cols ++ [name].

Definition isna (c : Cell) : bool :=
  match c with Missing => true | _ => false end.

Definition notna (c : Cell) : bool := negb (isna c).

Definition ts_value (c : Cell) : option Z :=
  match c with Datetime ns => Some ns | _ => None end.

Definition is_text (c : Cell) : bool :=
  match c with Text _ => true | _ => false end.

(** [pd.api.types.is_datetime64_any_dtype]: the column holds datetime64
    values (and NaT) only. *)
Definition is_datetime64_any_dtype (col : list Cell) : bool :=
  forallb (fun c => negb (is_text c)) col.

Definition set_timestamp (r : Row) (c : Cell) : Row :=
  mkRow (case_id r) (step r) c (next_timestamp r) (next_step r) (delta_hours r).

Definition set_next_timestamp (r : Row) (c : Cell) : Row :=
  mkRow (case_id r) (step r) (timestamp r) c (next_step r) (delta_hours r).

Definition set_next_step (r : Row) (s : option string) : Row :=
  mkRow (case_id r) (step r) (timestamp r) (next_timestamp r) s (delta_hours r).

Definition set_delta_hours (r : Row) (d : Float) : Row :=
  mkRow (case_id r) (step r) (timestamp r) (next_timestamp r) (next_step r) d.

(** ** Hours *)

Definition ns_per_hour : Z := 3600 * 1000000000.

(** [td.total_seconds() / 3600.0] of a difference of two datetime64[ns]. *)
Definition hours_of_ns (ns : Z) : Q := Qred (Qmake ns 1 / Qmake ns_per_hour 1).

(** [(b - a).dt.total_seconds() / 3600.0], NaN when a side is NaT. *)
Definition hours_between (a b : Cell) : Float :=
  match ts_value a, ts_value b with
  | Some ta, Some tb => Fin (hours_of_ns (tb - ta))
  | _, _ => NaN
  end.

(** [round(x, 2)]: to the nearest hundredth, halves to the even one. *)
Definition round2 (x : Q) : Q :=
  let y := (x * Qmake 100 1)%Q in
  let n := Qfloor y in
  let frac := (y - Qmake n 1)%Q in
  let up :=
    match Qcompare frac (Qmake 1 2) with
    | Lt => false
    | Gt => true
    | Eq => Z.odd n
    end in
  Qred (Qmake (if up then n + 1 else n) 100).

Definition round_float (x : Float) : Float :=
  match x with NaN => NaN | Fin q => Fin (round2 q) end.

Definition float_notna (x : Float) : bool :=
  match x with NaN => false | Fin _ => true end.

(** [x >= 0] on a float; a comparison with NaN is false. *)
Definition float_ge0 (x : Float) : bool :=
  match x with NaN => false | Fin q => Qle_bool 0 q end.

Definition float_values (l : list Float) : list Q :=
  flat_map (fun x => match x with NaN => [] | Fin q => [q] end) l.

Definition Qsum (l : list Q) : Q := fold_right Qplus 0%Q l.

(** [Series.mean()]: missing values are skipped; NaN when nothing is left. *)
Definition mean (l : list Float) : Float :=
  match float_values l with
  | [] => NaN
  | q :: qs => Fin (Qred (Qsum (q :: qs) / Qmake (Z.of_nat (List.length (q :: qs))) 1))
  end.

Definition Qmin (a b : Q) : Q := if Qle_bool a b then a else b.
Definition Qmax (a b : Q) : Q := if Qle_bool a b then b else a.

(** [Series.min()] and [Series.max()], missing values skipped. *)
Definition float_min (l : list Float) : Float :=
  match float_values l with
  | [] => NaN
  | q :: qs => Fin (fold_left Qmin qs q)
  end.

Definition float_max (l : list Float) : Float :=
  match float_values l with
  | [] => NaN
  | q :: qs => Fin (fold_left Qmax qs q)
  end.

(** ** Sorting *)

(** [l[indexer]]: the entries of [l] at the positions listed. *)
Definition take {A : Type} (l : list A) (indexer : list nat) : list A :=
  flat_map (fun i => match nth_error l i with Some x => [x] | None => [] end)
           indexer.

(** numpy's [argsort(kind="quicksort")]: the positions of the keys, listed
    so that the keys come out in ascending order.  The order of positions
    with equal keys is not part of the contract (an introsort, or a
    vectorised sort, depending on the build). *)
Class NumpyArgsort : Type := {
  argsort : list Q -> list nat;
  argsort_perm : forall keys, Permutation (argsort keys) (seq 0 (List.length keys));
  argsort_sorted : forall keys, Sorted Qle (take keys (argsort keys))
}.

(** An insertion sort of positions by key; [before kx ky] tells whether a new
    entry with key [kx] goes in front of one with key [ky]. *)
Fixpoint insert_pos (before : Q -> Q -> bool) (x : nat * Q)
         (l : list (nat * Q)) : list (nat * Q) :=
  match l with
  | [] => [x]
  | y :: l' =>
      if before (snd x) (snd y) then x :: l
      else y :: insert_pos before x l'
  end.

Definition insertion_argsort (before : Q -> Q -> bool) (keys : list Q)
  : list nat :=
  map fst (fold_right (insert_pos before) []
                      (combine (seq 0 (List.length keys)) keys)).

(** Ties stay in place. *)
Definition stable_argsort : list Q -> list nat :=
  insertion_argsort Qle_bool.


(** The keys that are numbers, with their positions, and the positions of
    the missing keys. *)
Definition non_nan_entries (tagged : list (nat * option Q)) : list (nat * Q) :=
  flat_map (fun p => match snd p with Some q => [(fst p, q)] | None => [] end)
           tagged.

Definition nan_positions (tagged : list (nat * option Q)) : list nat :=
  flat_map (fun p => match snd p with Some _ => [] | None => [fst p] end)
           tagged.

Section Sorting.

Context {quicksort : NumpyArgsort}.

(** pandas' [nargsort(items, kind="quicksort", ascending, na_position="last")]:
    the missing keys are set aside and appended at the end; for a descending
    sort the keys are reversed, sorted ascending and the result reversed. *)
Definition nargsort (items : list (option Q)) (ascending : bool) : list nat :=
  let tagged := combine (seq 0 (List.length items)) items in
  let non_nan := non_nan_entries tagged in
  let nan_idx := nan_positions tagged in
  let non_nan := if ascending then non_nan else rev non_nan in
  let indexer := take (map fst non_nan) (argsort (map snd non_nan)) in
  let indexer := if ascending then indexer else rev indexer in
  indexer ++ nan_idx.

(** [sort_values] on one key (the default [kind]). *)
Definition sort_values_by {A : Type} (key : A -> option Q) (ascending : bool)
           (l : list A) : list A :=
  take l (nargsort (map key l) ascending).

End Sorting.

(** [sort_values] on several keys: numpy's lexsort over the keys' codes, a
    stable sort.  [leb] is the lexicographic order of the keys. *)
Fixpoint insert_sorted {A : Type} (leb : A -> A -> bool) (x : A) (l : list A)
  : list A :=
  match l with
  | [] => [x]
  | y :: l' => if leb x y then x :: l else y :: insert_sorted leb x l'
  end.

Definition lexsort {A : Type} (leb : A -> A -> bool) (l : list A) : list A :=
  fold_right (insert_sorted leb) [] l.

(** The order of a key column: ascending, missing values last. *)
Definition key_compare (a b : option Z) : comparison :=
  match a, b with
  | Some x, Some y => Z.compare x y
  | Some _, None => Lt
  | None, Some _ => Gt
  | None, None => Eq
  end.

(** [(case_id, timestamp)] of one row is not after that of another. *)
Definition case_time_leb (r1 r2 : Row) : bool :=
  match key_compare (case_id r1) (case_id r2) with
  | Lt => true
  | Gt => false
  | Eq =>
      match key_compare (ts_value (timestamp r1)) (ts_value (timestamp r2)) with
      | Gt => false
      | _ => true
      end
  end.

(** ** Grouping and counting *)

(** The values of a column that are not missing. *)
Definition present {A : Type} (l : list (option A)) : list A :=
  flat_map (fun o => match o with Some x => [x] | None => [] end) l.

Fixpoint insert_unique {A : Type} (cmp : A -> A -> comparison) (x : A)
         (l : list A) : list A :=
  match l with
  | [] => [x]
  | y :: l' =>
      match cmp x y with
      | Lt => x :: l
      | Eq => l
      | Gt => y :: insert_unique cmp x l'
      end
  end.

(** The distinct keys of a [groupby], in ascending order. *)
Definition sorted_unique {A : Type} (cmp : A -> A -> comparison) (l : list A)
  : list A :=
  fold_right (insert_unique cmp) [] l.

Definition in_case (k : Z) (r : Row) : bool :=
  match case_id r with Some c => Z.eqb c k | None => false end.

Definition case_keys (rs : list Row) : list Z :=
  sorted_unique Z.compare (present (map case_id rs)).

(** [rs.groupby("case_id")]: one group per case id that is not missing, in
    ascending order of the id, each with its rows in the order of [rs]. *)
Definition groupby_case (rs : list Row) : list (Z * list Row) :=
  map (fun k => (k, filter (in_case k) rs)) (case_keys rs).

(** [Series.nunique()]: the distinct values that are not missing. *)
Definition nunique (l : list (option Z)) : nat :=
  List.length (nodup Z.eq_dec (present l)).

(** A table of counts in the order the keys were first met: a [Counter], and
    the hash table behind [value_counts]. *)
Fixpoint count_add {K : Type} (eqb : K -> K -> bool) (k : K)
         (c : list (K * nat)) : list (K * nat) :=
  match c with
  | [] => [(k, 1)]
  | (k', n) :: c' =>
      if eqb k' k then (k', S n) :: c' else (k', n) :: count_add eqb k c'
  end.

Definition count_all {K : Type} (eqb : K -> K -> bool) (l : list K)
  : list (K * nat) :=
  fold_left (fun c k => count_add eqb k c) l [].

Definition Qnat (n : nat) : Q := Qmake (Z.of_nat n) 1.

Definition opt_eqb {A : Type} (eqb : A -> A -> bool) (a b : option A) : bool :=
  match a, b with
  | Some x, Some y => eqb x y
  | None, None => true
  | _, _ => false
  end.

Definition edge_eqb (e1 e2 : option string * option string) : bool :=
  opt_eqb String.eqb (fst e1) (fst e2) && opt_eqb String.eqb (snd e1) (snd e2).

(** [zip(steps_seq, steps_seq[1:])] *)
Definition consecutive {A : Type} (l : list A) : list (A * A) :=
  combine l (tl l).

(** The inner loop of the transition count, for the rows of one case. *)
Definition count_case_edges (counter : list ((option string * option string) * nat))
           (group : list Row) : list ((option string * option string) * nat) :=
  let steps_seq := map step group in
  fold_left (fun c e => count_add edge_eqb e c) (consecutive steps_seq) counter.

Definition edge_counter (events : list Row)
  : list ((option string * option string) * nat) :=
  fold_left (fun c g => count_case_edges c (snd g)) (groupby_case events) [].

(** [df["timestamp"].groupby(case_id).shift(-1)]: for each row the value of
    the next row of the same case, missing for the last row of a case and for
    a row without case id. *)
Fixpoint shift_next {B : Type} (val : Row -> B) (missing : B) (rs : list Row)
  : list B :=
  match rs with
  | [] => []
  | r :: rest =>
      match case_id r with
      | None => missing
      | Some k =>
          match find (in_case k) rest with
          | Some r' => val r'
          | None => missing
          end
      end :: shift_next val missing rest
  end.

(** [df[name] = col] *)
Definition assign {B : Type} (set : Row -> B -> Row) (rs : list Row)
           (col : list B) : list Row :=
  map (fun p => set (fst p) (snd p)) (combine rs col).

Definition cell_min (l : list Cell) : Cell :=
  match present (map ts_value l) with
  | [] => Missing
  | t :: ts => Datetime (fold_left Z.min ts t)
  end.

Definition cell_max (l : list Cell) : Cell :=
  match present (map ts_value l) with
  | [] => Missing
  | t :: ts => Datetime (fold_left Z.max ts t)
  end.

Definition pair_compare (a b : string * string) : comparison :=
  match String.compare (fst a) (fst b) with
  | Eq => String.compare (snd a) (snd b)
  | c => c
  end.

Definition float_key (x : Float) : option Q :=
  match x with NaN => None | Fin q => Some q end.

(** ** Results *)

Record CycleRow : Type := mkCycleRow {
  cycle_case : Z;
  cycle_min : Cell;
  cycle_max : Cell;
  cycle_delta_hours : Float
}.

Record CycleTime : Type := mkCycleTime {
  avg_hours : option Float;
  min_hours : option Float;
  max_hours : option Float
}.

Record StepDuration : Type := mkStepDuration {
  sd_step : string;
  sd_avg_hours : Float;
  sd_count : nat
}.

Record TransitionDuration : Type := mkTransitionDuration {
  td_from : string;
  td_to : string;
  td_avg_hours : Float;
  td_count : nat
}.

Inductive Kpi : Type :=
| NoTimestamp
| WithTimestamp (cycle_time : CycleTime)
                (steps_duration slowest_steps : list StepDuration)
                (transitions_duration slowest_transitions
                 : list TransitionDuration).

Record Node : Type := mkNode { node_id : string; node_count : nat }.

Record Edge : Type := mkEdge {
  edge_from : option string;
  edge_to : option string;
  edge_count : nat
}.

Record Stats : Type := mkStats {
  num_cases : nat;
  num_events : nat;
  num_steps : nat;
  num_transitions : nat
}.

Record Graph : Type := mkGraph { nodes : list Node; edges : list Edge }.

Record AnalysisResult : Type := mkResult {
  stats : Stats;
  graph : Graph;
  kpi : Kpi
}.

Inductive Exception : Type :=
| ValueError (msg : string).

(** ** The engine *)

Section Engine.

Context {quicksort : NumpyArgsort}.

(** The parser behind [pd.to_datetime] for a value that is not yet a
    datetime: the point in time it denotes, if any. *)
Variable parse_datetime : string -> option Z.

(** [pd.to_datetime(col, errors="coerce")], cell by cell: what does not
    parse becomes NaT. *)
Definition to_datetime (c : Cell) : Cell :=
  match c with
  | Text raw =>
      match parse_datetime raw with
      | Some ns => Datetime ns
      | None => Missing
      end
  | _ => c
  end.

Definition parse_column (rs : list Row) : list Row :=
  assign set_timestamp rs (map to_datetime (map timestamp rs)).

(** [Series.value_counts()]: the values that are not missing with their
    number of occurrences, in order of first occurrence, then sorted by
    descending count with the default sort. *)
Definition value_counts (col : list (option string)) : list (string * nat) :=
  sort_values_by (fun p => Some (Qnat (snd p))) false
                 (count_all String.eqb (present col)).

(** *** compute_kpis *)

(** Lines 20-24: the working copy with its timestamps as datetimes. *)
Definition kpi_frame (events : DataFrame) : list Row :=
  let df := rows events in
  if negb (is_datetime64_any_dtype (map timestamp df))
  then parse_column df
  else df.

(** Line 30: [df.dropna(subset=["timestamp"])]. *)
Definition dropna_timestamp (df : list Row) : list Row :=
  filter (fun r => notna (timestamp r)) df.

(** Lines 33-34: first and last timestamp of each case and the hours
    between them. *)
Definition cycle_table (df : list Row) : list CycleRow :=
  map (fun g =>
         let lo := cell_min (map timestamp (snd g)) in
         let hi := cell_max (map timestamp (snd g)) in
         mkCycleRow (fst g) lo hi (hours_between lo hi))
      (groupby_case df).

(** Lines 45-51: sorted by case and time, each row with the timestamp and
    the step of the next row of its case and the hours up to it. *)
Definition with_gaps (df : list Row) : list Row :=
  let df := lexsort case_time_leb df in
  let df := assign set_next_timestamp df (shift_next timestamp Missing df) in
  let df := assign set_next_step df (shift_next step None df) in
  map (fun r =>
         set_delta_hours r (hours_between (timestamp r) (next_timestamp r)))
      df.

(** Lines 54-55: the rows whose gap is a number and is not negative. *)
Definition duration_mask (r : Row) : bool :=
  float_notna (delta_hours r) && float_ge0 (delta_hours r).

Definition duration_rows (df : list Row) : list Row :=
  filter duration_mask (with_gaps df).

Definition has_step (s : string) (r : Row) : bool :=
  opt_eqb String.eqb (step r) (Some s).

Definition has_transition (k : string * string) (r : Row) : bool :=
  opt_eqb String.eqb (step r) (Some (fst k))
  && opt_eqb String.eqb (next_step r) (Some (snd k)).

(** Lines 58-63: per step, the number of gaps and their mean, slowest
    first. *)
Definition step_stats (df_dur : list Row) : list (string * (nat * Float)) :=
  let keys := sorted_unique String.compare (present (map step df_dur)) in
  let table :=
    map (fun s =>
           let ds := map delta_hours (filter (has_step s) df_dur) in
           (s, (List.length (float_values ds), mean ds)))
        keys in
  sort_values_by (fun row => float_key (snd (snd row))) false table.

Definition transition_key (r : Row) : option (string * string) :=
  match step r, next_step r with
  | Some a, Some b => Some (a, b)
  | _, _ => None
  end.

(** Lines 76-81: the same per pair of a step and the step after it. *)
Definition trans_stats (df_dur : list Row)
  : list ((string * string) * (nat * Float)) :=
  let keys := sorted_unique pair_compare (present (map transition_key df_dur)) in
  let table :=
    map (fun k =>
           let ds := map delta_hours (filter (has_transition k) df_dur) in
           (k, (List.length (float_values ds), mean ds)))
        keys in
  sort_values_by (fun row => float_key (snd (snd row))) false table.

Definition compute_kpis (events : DataFrame) : Kpi :=
  if negb (has_column "timestamp" events) then NoTimestamp
  else
    let df := kpi_frame events in
    if forallb isna (map timestamp df) then NoTimestamp
    else
      let df := dropna_timestamp df in
      (* KPI 1: cycle time per case *)
      let cycle := cycle_table df in
      let deltas := map cycle_delta_hours cycle in
      let avg_cycle :=
        if 0 <? List.length cycle then Some (mean deltas) else None in
      let min_cycle :=
        if 0 <? List.length cycle then Some (float_min deltas) else None in
      let max_cycle :=
        if 0 <? List.length cycle then Some (float_max deltas) else None in
      (* KPI 2 and 3: durations between events *)
      let df_dur := duration_rows df in
      let steps_duration :=
        map (fun row =>
               mkStepDuration (fst row) (round_float (snd (snd row)))
                              (fst (snd row)))
            (step_stats df_dur) in
      let slowest_steps := firstn 3 steps_duration in
      let transitions_duration :=
        map (fun row =>
               mkTransitionDuration (fst (fst row)) (snd (fst row))
                                    (round_float (snd (snd row)))
                                    (fst (snd row)))
            (trans_stats df_dur) in
      let slowest_transitions := firstn 3 transitions_duration in
      WithTimestamp
        (mkCycleTime (option_map round_float avg_cycle)
                     (option_map round_float min_cycle)
                     (option_map round_float max_cycle))
        steps_duration slowest_steps
        transitions_duration slowest_transitions.

(** *** analyze_dataframe *)

Definition case_key (r : Row) : option Q :=
  option_map (fun c => Qmake c 1) (case_id r).

(** Lines 120-130: the copy of the table with its timestamps parsed and its
    rows put in process order. *)
Definition sorted_events (df : DataFrame) : DataFrame :=
  let events := df in
  let events :=
    if has_column "timestamp" events
    then mkDataFrame (columns events) (parse_column (rows events))
    else events in
  if has_column "timestamp" events
  then mkDataFrame (columns events) (lexsort case_time_leb (rows events))
  else mkDataFrame (columns events) (sort_values_by case_key true (rows events)).

Definition schema_message : string :=
  "Le DataFrame doit contenir au moins 'case_id' et 'step'.".

Definition analyze_dataframe (df : DataFrame) : Exception + AnalysisResult :=
  if negb (issubset ["case_id"; "step"] df)
  then inl (ValueError schema_message)
  else
    let events := sorted_events df in
    (* basic statistics *)
    let num_cases := nunique (map case_id (rows events)) in
    let num_events := List.length (rows events) in
    let step_counts := value_counts (map step (rows events)) in
    let num_steps := List.length step_counts in
    (* graph: nodes *)
    let nodes := map (fun p => mkNode (fst p) (snd p)) step_counts in
    (* graph: transitions *)
    let edges :=
      map (fun p => mkEdge (fst (fst p)) (snd (fst p)) (snd p))
          (edge_counter (rows events)) in
    let stats := mkStats num_cases num_events num_steps (List.length edges) in
    let graph := mkGraph nodes edges in
    let kpi := compute_kpis events in
    inr (mkResult stats graph kpi).

End Engine.

(** * The engine over a store of tables

    [analyze_dataframe] receives a reference to the caller's table.  Here the
    tables live in a store, a reference is a position of the store, and the
    statements of the two functions that create a table ([copy],
    [sort_values], [dropna], [reset_index], a boolean selection) or that write
    into one ([df[name] = col]) are spelled out. *)

Definition Ref : Type := nat.
Definition Heap : Type := list DataFrame.
Definition State (A : Type) : Type := Heap -> A * Heap.

Definition ret {A : Type} (a : A) : State A := fun h => (a, h).

Definition bind {A B : Type} (m : State A) (k : A -> State B) : State B :=
  fun h => let (a, h') := m h in k a h'.

Notation "x <- m ;; k" := (bind m (fun x => k))
  (at level 61, m at next level, right associativity).

Definition empty_frame : DataFrame := mkDataFrame [] [].

Fixpoint update {A : Type} (i : nat) (x : A) (l : list A) : list A :=
  match l, i with
  | [], _ => []
  | _ :: l', O => x :: l'
  | y :: l', S i' => y :: update i' x l'
  end.

Definition read (r : Ref) : State DataFrame :=
  fun h => (nth r h empty_frame, h).

(** A new table. *)
Definition alloc (df : DataFrame) : State Ref :=
  fun h => (List.length h, h ++ [df]).

Definition write (r : Ref) (df : DataFrame) : State unit :=
  fun h => (tt, update r df h).

(** [df.copy()] *)
Definition copy (r : Ref) : State Ref :=
  df <- read r ;; alloc df.

(** [df[name] = col], in place. *)
Definition setitem {B : Type} (name : string) (set : Row -> B -> Row)
           (r : Ref) (col : list B) : State unit :=
  df <- read r ;;
  write r (mkDataFrame (add_column name (columns df)) (assign set (rows df) col)).

Section StoreEngine.

Context {quicksort : NumpyArgsort}.
Variable parse_datetime : string -> option Z.

Definition compute_kpis_st (events : Ref) : State Kpi :=
  e <- read events ;;
  if negb (has_column "timestamp" e) then ret NoTimestamp
  else
    df <- copy events ;;
    d <- read df ;;
    _ <- (if negb (is_datetime64_any_dtype (map timestamp (rows d)))
          then setitem "timestamp" set_timestamp df
                       (map (to_datetime parse_datetime)
                            (map timestamp (rows d)))
          else ret tt) ;;
    d <- read df ;;
    if forallb isna (map timestamp (rows d)) then ret NoTimestamp
    else
      dropped <- alloc (mkDataFrame (columns d) (dropna_timestamp (rows d))) ;;
      df <- copy dropped ;;
      d <- read df ;;
      let cycle := cycle_table (rows d) in
      let deltas := map cycle_delta_hours cycle in
      let avg_cycle :=
        if 0 <? List.length cycle then Some (mean deltas) else None in
      let min_cycle :=
        if 0 <? List.length cycle then Some (float_min deltas) else None in
      let max_cycle :=
        if 0 <? List.length cycle then Some (float_max deltas) else None in
      sorted <- alloc (mkDataFrame (columns d)
                                   (lexsort case_time_leb (rows d))) ;;
      df <- copy sorted ;;
      d <- read df ;;
      _ <- setitem "next_timestamp" set_next_timestamp df
                   (shift_next timestamp Missing (rows d)) ;;
      d <- read df ;;
      _ <- setitem "next_step" set_next_step df
                   (shift_next step None (rows d)) ;;
      d <- read df ;;
      _ <- setitem "delta_hours" set_delta_hours df
                   (map (fun r => hours_between (timestamp r) (next_timestamp r))
                        (rows d)) ;;
      d <- read df ;;
      selected <- alloc (mkDataFrame (columns d)
                                     (filter duration_mask (rows d))) ;;
      df_dur <- copy selected ;;
      dur <- read df_dur ;;
      let steps_duration :=
        map (fun row =>
               mkStepDuration (fst row) (round_float (snd (snd row)))
                              (fst (snd row)))
            (step_stats (rows dur)) in
      let slowest_steps := firstn 3 steps_duration in
      let transitions_duration :=
        map (fun row =>
               mkTransitionDuration (fst (fst row)) (snd (fst row))
                                    (round_float (snd (snd row)))
                                    (fst (snd row)))
            (trans_stats (rows dur)) in
      let slowest_transitions := firstn 3 transitions_duration in
      ret (WithTimestamp
             (mkCycleTime (option_map round_float avg_cycle)
                          (option_map round_float min_cycle)
                          (option_map round_float max_cycle))
             steps_duration slowest_steps
             transitions_duration slowest_transitions).

Definition analyze_dataframe_st (df : Ref) : State (Exception + AnalysisResult) :=
  d <- read df ;;
  if negb (issubset ["case_id"; "step"] d)
  then ret (inl (ValueError schema_message))
  else
    events <- copy df ;;
    e <- read events ;;
    _ <- (if has_column "timestamp" e
          then setitem "timestamp" set_timestamp events
                       (map (to_datetime parse_datetime)
                            (map timestamp (rows e)))
          else ret tt) ;;
    e <- read events ;;
    events <- (if has_column "timestamp" e
               then alloc (mkDataFrame (columns e)
                                       (lexsort case_time_leb (rows e)))
               else
                 sorted <- alloc (mkDataFrame
                                    (columns e)
                                    (sort_values_by case_key true (rows e))) ;;
                 copy sorted) ;;
    e <- read events ;;
    let num_cases := nunique (map case_id (rows e)) in
    let num_events := List.length (rows e) in
    let step_counts := value_counts (map step (rows e)) in
    let num_steps := List.length step_counts in
    let nodes := map (fun p => mkNode (fst p) (snd p)) step_counts in
    let edges :=
      map (fun p => mkEdge (fst (fst p)) (snd (fst p)) (snd p))
          (edge_counter (rows e)) in
    let stats := mkStats num_cases num_events num_steps (List.length edges) in
    let graph := mkGraph nodes edges in
    kpi <- compute_kpis_st events ;;
    ret (inr (mkResult stats graph kpi)).

End StoreEngine.

(** * The vocabulary of the statements *)

(** Positions listed with the entry they point at. *)
Definition tagged_in {A : Type} (l : list A) (ps : list (nat * A)) : Prop :=
  forall p, In p ps -> nth_error l (fst p) = Some (snd p).

Definition total_count {K : Type} (c : list (K * nat)) : nat :=
  list_sum (map snd c).

Definition has_case (r : Row) : bool :=
  match case_id r with Some _ => true | None => false end.

Definition required_columns (df : DataFrame) : Prop :=
  has_column "case_id" df = true /\ has_column "step" df = true.

(** [extends h h']: every table of [h] is in [h'], where it was and as it
    was. *)
Definition extends (h h' : Heap) : Prop := exists created, h' = h ++ created.

(** [P] picks keys that are all equal: a class of ties. *)
Definition tie_class (P : Q -> bool) : Prop :=
  forall a b, P a = true -> P b = true -> Qeq a b.

(** An [argsort] that lists the positions of equal keys in ascending order:
    a stable sort. *)
Definition keeps_ties (qs : NumpyArgsort) : Prop :=
  forall (keys : list Q) (P : Q -> bool),
    tie_class P ->
    filter (fun i => P (nth i keys 0%Q)) (argsort keys)
    = filter (fun i => P (nth i keys 0%Q)) (seq 0 (List.length keys)).

Definition occurrences (s : string) (l : list string) : nat :=
  List.length (filter (String.eqb s) l).

(** The labels in the order they are first met. *)
Definition first_seen (l : list string) : list string :=
  fold_left (fun acc s => if existsb (String.eqb s) acc then acc else acc ++ [s])
            l [].

Definition count_of (s : string) (c : list (string * nat)) : nat :=
  match find (fun p => String.eqb (fst p) s) c with
  | Some p => snd p
  | None => 0
  end.


(** What the claim on the cycle time asks of a KPI result: three numbers. *)
Definition cycle_time_numbers (k : Kpi) : Prop :=
  match k with
  | NoTimestamp => True
  | WithTimestamp ct _ _ _ _ =>
      exists a b c,
        ct = mkCycleTime (Some (Fin a)) (Some (Fin b)) (Some (Fin c))
  end.

(** The fallback of the source: the three fields are [None]. *)
Definition cycle_time_null (k : Kpi) : Prop :=
  match k with
  | NoTimestamp => True
  | WithTimestamp ct _ _ _ _ => ct = mkCycleTime None None None
  end.

Definition all_datetime (rs : list Row) : Prop :=
  forall r, In r rs -> exists t, timestamp r = Datetime t.

Definition timestamps_of (rs : list Row) : list Z :=
  present (map ts_value (map timestamp rs)).

(** What a row of the cycle table says about its case. *)
Definition cycle_row_ok (rs : list Row) (c : CycleRow) : Prop :=
  exists lo hi : Z,
    cycle_min c = Datetime lo
    /\ cycle_max c = Datetime hi
    /\ cycle_delta_hours c = Fin (hours_of_ns (hi - lo))
    /\ (lo <= hi)%Z
    /\ (exists r, In r rs /\ case_id r = Some (cycle_case c)
                  /\ timestamp r = Datetime lo)
    /\ (exists r, In r rs /\ case_id r = Some (cycle_case c)
                  /\ timestamp r = Datetime hi)
    /\ (forall r t, In r rs -> case_id r = Some (cycle_case c) ->
                    timestamp r = Datetime t -> (lo <= t <= hi)%Z).

(** The value [shift(-1)] gives a row: missing, or the timestamp of a later
    row of the same case. *)
Definition next_of (rs : list Row) (r : Row) (nt : Cell) : Prop :=
  nt = Missing
  \/ exists r', In r' rs /\ case_id r' = case_id r /\ nt = timestamp r'
                /\ case_time_leb r r' = true.

(** The shape of a row once lines 45-51 are through. *)
Definition gap_shape (r : Row) : Prop :=
  exists t,
    timestamp r = Datetime t
    /\ ((next_timestamp r = Missing /\ delta_hours r = NaN)
        \/ exists tn,
             next_timestamp r = Datetime tn
             /\ (t <= tn)%Z
             /\ delta_hours r = Fin (hours_of_ns (tn - t))).

Definition case_number (r : Row) : Q :=
  match case_id r with Some c => Qmake c 1 | None => 0%Q end.

Definition case_is (k : Z) (q : Q) : bool := Qeq_bool q (Qmake k 1).

(** ** The examples *)

(** A parser for the examples: a string of decimal digits is a number of
    nanoseconds since the epoch, anything else does not parse. *)
Definition digit_value (c : Ascii.ascii) : option Z :=
  let n := Z.of_nat (Ascii.nat_of_ascii c) in
  if ((48 <=? n) && (n <=? 57))%Z then Some (n - 48)%Z else None.

Fixpoint parse_digits (acc : Z) (s : string) : option Z :=
  match s with
  | EmptyString => Some acc
  | String c s' =>
      match digit_value c with
      | Some d => parse_digits (10 * acc + d)%Z s'
      | None => None
      end
  end.

Definition parse_epoch (s : string) : option Z :=
  match s with
  | EmptyString => None
  | _ => parse_digits 0%Z s
  end.

Definition hour : Z := ns_per_hour.


Definition table_without_step : DataFrame :=
  mkDataFrame ["case_id"; "timestamp"]
              [event (Some 1%Z) None (Text "0")].

Definition scenario : DataFrame :=
  mkDataFrame ["case_id"; "step"; "timestamp"]
    [ event (Some 1%Z) (Some "submit") (Text "0");
      event (Some 1%Z) (Some "review") (Datetime (2 * hour));
      event (Some 1%Z) (Some "approve") (Datetime (5 * hour));
      event (Some 2%Z) (Some "submit") (Text "0");
      event (Some 2%Z) (Some "review") (Datetime (1 * hour)) ].

(** One event with a timestamp and no case id. *)
Definition orphan_event : DataFrame :=
  mkDataFrame ["case_id"; "step"; "timestamp"]
              [event None (Some "A") (Datetime 0)].

(** Two cases of one event each, the later case first. *)
Definition two_cases : DataFrame :=
  mkDataFrame ["case_id"; "step"]
              [ event (Some 2%Z) (Some "B") Missing;
                event (Some 1%Z) (Some "A") Missing ].

(** The same two events, the earlier case first. *)
Definition two_cases_in_order : DataFrame :=
  mkDataFrame ["case_id"; "step"]
              [ event (Some 1%Z) (Some "A") Missing;
                event (Some 2%Z) (Some "B") Missing ].



(** A log that has its three columns and no row. *)
Definition empty_log : DataFrame :=
  mkDataFrame ["case_id"; "step"; "timestamp"] [].

(** Two cases of one event each, with their timestamps. *)
Definition single_events : DataFrame :=
  mkDataFrame ["case_id"; "step"; "timestamp"]
              [ event (Some 1%Z) (Some "A") (Datetime 0);
                event (Some 2%Z) (Some "A") (Datetime hour) ].

(** * [api.py]: accounts and sessions *)

(** The [detail] of the errors the endpoints raise, one name per message. *)
Inductive Detail : Type :=
| missing_token          (* "Token d'authentification manquant. ..." *)
| invalid_session        (* "Session invalide ou expiree. ..." *)
| password_too_short     (* "Le mot de passe doit contenir au moins 6 ..." *)
| account_exists         (* "Un compte existe deja avec cet email." *)
| bad_credentials        (* "Email ou mot de passe incorrect." *)
| unsupported_format     (* "Format non supporte. ..." *)
| unreadable_file        (* "Impossible de lire le fichier : ..." *)
| missing_columns        (* "Le fichier doit contenir au minimum ..." *)
| columns_not_in_file    (* "Les colonnes suivantes n'existent pas ..." *)
| report_failed          (* "Erreur lors de la generation du rapport IA ..." *)
| not_csv_or_excel       (* "Format non supporte (CSV ou Excel uniquement)." *)
| no_column              (* "Aucune colonne detectee." *)
| read_failed.           (* "Erreur lors de la lecture du fichier : ..." *)

Record HTTPException : Type := HTTP { status_code : nat; detail : Detail }.

(** The two tables of [init_db], and the counter SQLite keeps for the
    AUTOINCREMENT key of [users]. *)
Record UserRow : Type := mkUserRow {
  u_id : Z;
  u_email : string;
  u_password_hash : string;
  u_created_at : string
}.

Record SessionRow : Type := mkSessionRow {
  s_token : string;
  s_user_id : Z;
  s_created_at : string
}.

Record Database : Type := mkDatabase {
  users : list UserRow;
  sessions : list SessionRow;
  users_seq : Z
}.

(** The database [init_db] creates where there is none. *)
Definition init_db : Database := mkDatabase [] [] 0.

(** The key of a new row of [users]: one more than every key in use and
    every key given before. *)
Definition next_rowid (db : Database) : Z :=
  (fold_right Z.max (users_seq db) (map u_id (users db)) + 1)%Z.

(** [INSERT INTO users (email, password_hash, created_at)]; [None] is the
    IntegrityError of the UNIQUE constraint on [email]. *)
Definition insert_user (email password_hash created_at : string)
           (db : Database) : option Database :=
  if existsb (fun u => String.eqb (u_email u) email) (users db) then None
  else
    let id := next_rowid db in
    Some (mkDatabase (users db ++ [mkUserRow id email password_hash created_at])
                     (sessions db) id).

(** [INSERT OR REPLACE INTO sessions]: a row with the same token gives way. *)
Definition insert_or_replace_session (s : SessionRow) (db : Database)
  : Database :=
  mkDatabase (users db)
             (filter (fun s' => negb (String.eqb (s_token s') (s_token s)))
                     (sessions db) ++ [s])
             (users_seq db).

(** [SELECT id, password_hash FROM users WHERE email = ?] *)
Definition select_user_by_email (email : string) (db : Database)
  : list UserRow :=
  filter (fun u => String.eqb (u_email u) email) (users db).

(** [SELECT u.id, u.email FROM sessions s JOIN users u ON s.user_id = u.id
    WHERE s.token = ?] *)
Definition select_session_user (token : string) (db : Database)
  : list (Z * string) :=
  flat_map (fun s =>
              if String.eqb (s_token s) token
              then map (fun u => (u_id u, u_email u))
                       (filter (fun u => Z.eqb (u_id u) (s_user_id s))
                               (users db))
              else [])
           (sessions db).

Definition fetchone {A : Type} (l : list A) : option A := hd_error l.

(** [hashlib]: the digest behind [hash_password]. *)
Class Hashlib : Type := {
  (** [hashlib.sha256(s.encode("utf-8")).hexdigest()] *)
  sha256_hexdigest : string -> string
}.

(** The requests that write to the database, and a run of them. *)
Inductive Request : Type :=
| Register (email password now : string)
| Login (email password token_hex now : string).

Section Auth.

Context {hashlib : Hashlib}.

Definition hash_password (password : string) : string :=
  sha256_hexdigest password.

Definition verify_password (password password_hash : string) : bool :=
  String.eqb (hash_password password) password_hash.

Definition get_current_user (x_auth_token : option string) (db : Database)
  : HTTPException + (Z * string) :=
  match x_auth_token with
  | None => inl (HTTP 401 missing_token)
  | Some token =>
      if String.eqb token "" then inl (HTTP 401 missing_token)
      else
        match fetchone (select_session_user token db) with
        | None => inl (HTTP 401 invalid_session)
        | Some row => inr row
        end
  end.

(** [now] is the reading of the clock; the answer carries the email. *)
Definition register (email password now : string) (db : Database)
  : (HTTPException + string) * Database :=
  if String.length password <? 6 then (inl (HTTP 400 password_too_short), db)
  else
    match insert_user email (hash_password password) now db with
    | None => (inl (HTTP 400 account_exists), db)
    | Some db' => (inr email, db')
    end.

(** [token_hex] is what [secrets.token_hex(32)] draws; the answer carries
    the token and the email. *)
Definition login (email password token_hex now : string) (db : Database)
  : (HTTPException + (string * string)) * Database :=
  match fetchone (select_user_by_email email db) with
  | None => (inl (HTTP 401 bad_credentials), db)
  | Some row =>
      if negb (verify_password password (u_password_hash row))
      then (inl (HTTP 401 bad_credentials), db)
      else
        let user_id := u_id row in
        (inr (token_hex, email),
         insert_or_replace_session (mkSessionRow token_hex user_id now) db)
  end.

Definition serve (db : Database) (q : Request) : Database :=
  match q with
  | Register email password now => snd (register email password now db)
  | Login email password token_hex now =>
      snd (login email password token_hex now db)
  end.

Definition run (qs : list Request) (db : Database) : Database :=
  fold_left serve qs db.

End Auth.

Definition draws (token : string) (q : Request) : Prop :=
  match q with
  | Register _ _ _ => False
  | Login _ _ token_hex _ => token_hex = token
  end.

(** What the constraints of the two tables promise, and that every session
    belongs to a user (SQLite does not check foreign keys unless told to). *)
Definition db_ok (db : Database) : Prop :=
  NoDup (map u_email (users db))
  /\ NoDup (map u_id (users db))
  /\ NoDup (map s_token (sessions db))
  /\ (forall u, In u (users db) -> (u_id u <= users_seq db)%Z)
  /\ (forall s, In s (sessions db) ->
                exists u, In u (users db) /\ u_id u = s_user_id s).

(** A digest to run the examples with, and a database with one account that
    is logged in. *)
Definition toy_hashlib : Hashlib :=
  {| sha256_hexdigest := fun s => String.append "sha256:" s |}.

Definition one_account : Database :=
  run (hashlib := toy_hashlib)
      [ Register "ana@example.org" "secret1" "2024-01-01T00:00:00";
        Login "ana@example.org" "secret1" "0a1b2c" "2024-01-01T00:01:00" ]
      init_db.

(** * [api.py]: the endpoints that read a file *)

(** An upload: its name, and what [pd.read_csv] and [pd.read_excel] make of
    its content ([None]: the reader raises). *)
Record UploadFile : Type := mkUploadFile {
  filename : option string;
  read_csv : option DataFrame;
  read_excel : option DataFrame
}.

(** What a request comes to: an answer, an [HTTPException], or an exception
    nobody catches (the client then sees status 500). *)
Inductive Response (A : Type) : Type :=
| Answer (a : A)
| Raised (e : HTTPException)
| Uncaught (e : Exception).

Arguments Answer {A} a.
Arguments Raised {A} e.
Arguments Uncaught {A} e.

(** [s.endswith(suffix)] *)
Definition endswith (s suffix : string) : bool :=
  (String.length suffix <=? String.length s)
  && String.eqb (substring (String.length s - String.length suffix)
                           (String.length suffix) s)
                suffix.

(** What happens inside a [try] block. *)
Inductive Raise : Type :=
| http_exception (e : HTTPException)
| other_exception.

(** A dict of strings, in the order of its keys: [d[key] = value], and
    [df.rename(columns=d)] on one column name. *)
Definition dict_set (key value : string) (d : list (string * string))
  : list (string * string) :=
  if existsb (fun p => String.eqb (fst p) key) d
  then map (fun p => if String.eqb (fst p) key then (key, value) else p) d
  else d ++ [(key, value)].

Definition rename (d : list (string * string)) (name : string) : string :=
  match find (fun p => String.eqb (fst p) name) d with
  | Some p => snd p
  | None => name
  end.

Section Endpoints.

Context {quicksort : NumpyArgsort}.
Variable parse_datetime : string -> option Z.

(** [str.lower()] *)
Variable lower : string -> string.

(** The call of the language model behind [generate_ai_report]: the report,
    or [None] when the call raises. *)
Variable generate_ai_report : Stats -> Graph -> option string.

Definition analyze_process (x_auth_token : option string) (db : Database)
           (file : UploadFile) : Response AnalysisResult :=
  match get_current_user x_auth_token db with
  | inl err => Raised err
  | inr user =>
      let filename := match filename file with Some n => n | None => "" end in
      if negb (existsb (endswith (lower filename)) [".csv"; ".xls"; ".xlsx"])
      then Raised (HTTP 415 unsupported_format)
      else
        match (if endswith (lower filename) ".csv"
               then read_csv file else read_excel file) with
        | None => Raised (HTTP 400 unreadable_file)
        | Some df =>
            if negb (issubset ["case_id"; "step"] df)
            then Raised (HTTP 400 missing_columns)
            else
              match analyze_dataframe parse_datetime df with
              | inl e => Uncaught e
              | inr result => Answer result
              end
        end
  end.

Definition analyze_process_with_ai (x_auth_token : option string)
           (db : Database) (file : UploadFile)
  : Response (AnalysisResult * string) :=
  match get_current_user x_auth_token db with
  | inl err => Raised err
  | inr user =>
      let filename := match filename file with Some n => n | None => "" end in
      if negb (existsb (endswith (lower filename)) [".csv"; ".xls"; ".xlsx"])
      then Raised (HTTP 415 unsupported_format)
      else
        match (if endswith (lower filename) ".csv"
               then read_csv file else read_excel file) with
        | None => Raised (HTTP 400 unreadable_file)
        | Some df =>
            if negb (issubset ["case_id"; "step"] df)
            then Raised (HTTP 400 missing_columns)
            else
              match analyze_dataframe parse_datetime df with
              | inl e => Uncaught e
              | inr result =>
                  match generate_ai_report (stats result) (graph result) with
                  | None => Raised (HTTP 500 report_failed)
                  | Some report => Answer (result, report)
                  end
              end
        end
  end.

(** Lines 347-369: every exception of the body, its own 400s too, ends in
    the [except] clause. *)
Definition detect_columns (x_auth_token : option string) (db : Database)
           (file : UploadFile) : Response (list string) :=
  match get_current_user x_auth_token db with
  | inl err => Raised err
  | inr user =>
      let body : Raise + list string :=
        match filename file with
        | None => inl other_exception
        | Some name =>
            let df : Raise + DataFrame :=
              if endswith name ".csv" then
                match read_csv file with
                | Some df => inr df
                | None => inl other_exception
                end
              else if endswith name ".xls" || endswith name ".xlsx" then
                match read_excel file with
                | Some df => inr df
                | None => inl other_exception
                end
              else inl (http_exception (HTTP 400 not_csv_or_excel)) in
            match df with
            | inl e => inl e
            | inr df =>
                let cols := columns df in
                if List.length cols =? 0
                then inl (http_exception (HTTP 400 no_column))
                else inr cols
            end
        end in
      match body with
      | inr answer => Answer answer
      | inl e => Raised (HTTP 500 read_failed)
      end
  end.

(** The rows of an uploaded table once its columns are renamed: what the
    columns then called [case_id], [step] and [timestamp] hold. *)
Variable renamed_rows : list (string * string) -> DataFrame -> list Row.

(** The answer carries the report when [use_ai] asks for one. *)
Definition analyze_mapped (x_auth_token : option string) (db : Database)
           (file : UploadFile) (case_col step_col ts_col : string)
           (use_ai : bool) : Response (AnalysisResult * option string) :=
  match get_current_user x_auth_token db with
  | inl err => Raised err
  | inr user =>
      let filename := match filename file with Some n => n | None => "" end in
      if negb (existsb (endswith (lower filename)) [".csv"; ".xls"; ".xlsx"])
      then Raised (HTTP 415 unsupported_format)
      else
        match (if endswith (lower filename) ".csv"
               then read_csv file else read_excel file) with
        | None => Raised (HTTP 400 unreadable_file)
        | Some df =>
            let missing :=
              filter (fun colname => negb (has_column colname df))
                     [case_col; step_col] in
            if negb (List.length missing =? 0)
            then Raised (HTTP 400 columns_not_in_file)
            else
              let rename_map :=
                dict_set step_col "step" (dict_set case_col "case_id" []) in
              let rename_map :=
                if negb (String.eqb ts_col "") && has_column ts_col df
                then dict_set ts_col "timestamp" rename_map
                else rename_map in
              let df2 :=
                mkDataFrame (map (rename rename_map) (columns df))
                            (renamed_rows rename_map df) in
              let df2 :=
                if has_column "timestamp" df2
                then mkDataFrame (columns df2)
                                 (parse_column parse_datetime (rows df2))
                else df2 in
              match analyze_dataframe parse_datetime df2 with
              | inl e => Uncaught e
              | inr result =>
                  if use_ai
                  then
                    match generate_ai_report (stats result) (graph result) with
                    | None => Raised (HTTP 500 report_failed)
                    | Some report => Answer (result, Some report)
                    end
                  else Answer (result, None)
              end
        end
  end.

End Endpoints.

(** An upload whose table has a [ticket] and a [status] column. *)
Definition ticket_upload : UploadFile :=
  mkUploadFile (Some "log.csv")
               (Some (mkDataFrame ["ticket"; "status"]
                                  [event (Some 1%Z) (Some "open") Missing]))
               None.

(** * [ai_report.py]: what the language model is shown *)

Record GraphSummary : Type := mkGraphSummary {
  summary_num_nodes : nat;
  summary_num_edges : nat;
  top_nodes : list Node;
  top_edges : list Edge
}.

(** Lines 27-35, for a graph that has both of its keys, as the graph of an
    analysis has. *)
Definition graph_summary (graph : Graph) : GraphSummary :=
  mkGraphSummary (List.length (nodes graph)) (List.length (edges graph))
                 (firstn 10 (nodes graph)) (firstn 10 (edges graph)).

(** * More vocabulary *)


(** The pairs of consecutive steps of all the cases of a log, case after
    case: what lines 145-148 feed to the counter. *)
Definition observations (events : list Row)
  : list (option string * option string) :=
  flat_map (fun g => consecutive (map step (snd g))) (groupby_case events).

Definition round_half_even (y : Q) : Z :=
  let n := Qfloor y in
  if match Qcompare (y - Qmake n 1) (Qmake 1 2) with
     | Lt => false | Gt => true | Eq => Z.odd n end
  then (n + 1)%Z else n.

Definition float_number (x : Float) : Q :=
  match x with Fin q => q | NaN => 0%Q end.

Section CountTableDefs.

Context {K : Type}.
Variable eqb : K -> K -> bool.

(** The number of entries of a list equal to [k]. *)
Definition tally (k : K) (l : list K) : nat :=
  List.length (filter (eqb k) l).

Definition lookup_count (k : K) (c : list (K * nat)) : nat :=
  match find (fun p => eqb (fst p) k) c with
  | Some p => snd p
  | None => 0
  end.

End CountTableDefs.

(** The row that [shift(-1)] reads for each row: the next row of the same
    case, if there is one. *)
Fixpoint next_rows (rs : list Row) : list (option Row) :=
  match rs with
  | [] => []
  | r :: rest =>
      match case_id r with
      | None => None
      | Some k => find (in_case k) rest
      end :: next_rows rest
  end.

Definition read_next {B : Type} (val : Row -> B) (missing : B)
           (o : option Row) : B :=
  match o with Some r' => val r' | None => missing end.

Definition is_some {A : Type} (o : option A) : bool :=
  match o with Some _ => true | None => false end.

(** A row of [with_gaps], from a row and the next row of its case. *)
Definition gap_row (p : Row * option Row) : Row :=
  let nt := read_next timestamp Missing (snd p) in
  set_delta_hours
    (set_next_step (set_next_timestamp (fst p) nt)
                   (read_next step None (snd p)))
    (hours_between (timestamp (fst p)) nt).

Definition next_ok (rs : list Row) (r : Row) (o : option Row) : Prop :=
  match o with
  | None => True
  | Some r' => In r' rs /\ case_id r' = case_id r /\ case_time_leb r r' = true
  end.

Definition same_case_and {B : Type} (val : Row -> B) (a b : Row) : Prop :=
  case_id a = case_id b /\ val a = val b.

(** * Facts about the primitives *)

Section TakeFacts.

Context {A : Type}.

Lemma take_app (l : list A) (i j : list nat) :
  take l (i ++ j) = take l i ++ take l j.
Proof. unfold take. apply flat_map_app. Qed.

Lemma take_cons (l : list A) (a : nat) (i : list nat) :
  take l (a :: i) = take l [a] ++ take l i.
Proof. unfold take. simpl. now rewrite app_nil_r. Qed.

Lemma take_one_rev (l : list A) (a : nat) : rev (take l [a]) = take l [a].
Proof. unfold take. simpl. now destruct (nth_error l a). Qed.

Lemma take_rev (l : list A) (i : list nat) : take l (rev i) = rev (take l i).
Proof.
  induction i as [|a i IH]; [reflexivity|].
  change (rev (a :: i)) with (rev i ++ [a]).
  rewrite take_app, IH, (take_cons l a i), rev_app_distr.
  now rewrite take_one_rev.
Qed.

Lemma take_seq_from (p l : list A) :
  take (p ++ l) (seq (List.length p) (List.length l)) = l.
Proof.
  revert p. induction l as [|a l IH]; intro p; [reflexivity|].
  simpl List.length. simpl seq. rewrite take_cons. unfold take at 1. simpl.
  rewrite nth_error_app2 by lia. rewrite Nat.sub_diag. simpl.
  f_equal. specialize (IH (p ++ [a])).
  rewrite <- app_assoc in IH. simpl in IH.
  rewrite length_app in IH. simpl in IH.
  now rewrite Nat.add_1_r in IH.
Qed.

Lemma take_seq (l : list A) : take l (seq 0 (List.length l)) = l.
Proof. exact (take_seq_from [] l). Qed.

Lemma take_Permutation (l : list A) (i j : list nat) :
  Permutation i j -> Permutation (take l i) (take l j).
Proof. intro H. unfold take. now apply Permutation_flat_map. Qed.

Lemma take_all_Permutation (l : list A) (i : list nat) :
  Permutation i (seq 0 (List.length l)) -> Permutation (take l i) l.
Proof.
  intro H. rewrite <- (take_seq l) at 2. now apply take_Permutation.
Qed.

End TakeFacts.

Lemma take_map {A B : Type} (f : A -> B) (l : list A) (i : list nat) :
  map f (take l i) = take (map f l) i.
Proof.
  induction i as [|a i IH]; [reflexivity|].
  rewrite (take_cons l), (take_cons (map f l)), map_app, IH. f_equal.
  unfold take. simpl. rewrite nth_error_map. now destruct (nth_error l a).
Qed.

Lemma take_tagged {A : Type} (l : list A) (ps : list (nat * A)) :
  tagged_in l ps -> take l (map fst ps) = map snd ps.
Proof.
  induction ps as [|p ps IH]; intro H; [reflexivity|].
  simpl map. rewrite take_cons, IH.
  - unfold take. simpl. rewrite (H p) by now left. reflexivity.
  - intros q Hq. apply H. now right.
Qed.

Lemma combine_seq_tagged {A : Type} (p l : list A) :
  tagged_in (p ++ l) (combine (seq (List.length p) (List.length l)) l).
Proof.
  revert p. induction l as [|a l IH]; intros p q Hq; [contradiction|].
  simpl in Hq. destruct Hq as [<-|Hq].
  - simpl. rewrite nth_error_app2 by lia. now rewrite Nat.sub_diag.
  - specialize (IH (p ++ [a])). rewrite <- app_assoc in IH. simpl in IH.
    rewrite length_app in IH. simpl in IH. rewrite Nat.add_1_r in IH.
    now apply IH.
Qed.

Lemma map_fst_combine_seq {A : Type} (s : nat) (l : list A) :
  map fst (combine (seq s (List.length l)) l) = seq s (List.length l).
Proof.
  revert s. induction l as [|a l IH]; intro s; [reflexivity|].
  simpl. now rewrite IH.
Qed.

Lemma map_snd_combine_seq {A : Type} (s : nat) (l : list A) :
  map snd (combine (seq s (List.length l)) l) = l.
Proof.
  revert s. induction l as [|a l IH]; intro s; [reflexivity|].
  simpl. now rewrite IH.
Qed.

(** ** The insertion argsorts meet the contract of [argsort] *)

Section InsertionArgsort.

Variable before : Q -> Q -> bool.
Hypothesis before_le : forall a b, before a b = true -> Qle a b.
Hypothesis not_before_ge : forall a b, before a b = false -> Qle b a.

Lemma insert_pos_Permutation x l : Permutation (insert_pos before x l) (x :: l).
Proof.
  induction l as [|y l IH]; simpl; [reflexivity|].
  destruct (before (snd x) (snd y)); [reflexivity|].
  rewrite IH. apply perm_swap.
Qed.

Lemma sort_pos_Permutation l :
  Permutation (fold_right (insert_pos before) [] l) l.
Proof.
  induction l as [|x l IH]; simpl; [reflexivity|].
  rewrite insert_pos_Permutation. now constructor.
Qed.

Lemma insert_pos_Sorted x l :
  Sorted Qle (map snd l) -> Sorted Qle (map snd (insert_pos before x l)).
Proof.
  induction l as [|y l IH]; intro H; simpl.
  - repeat constructor.
  - destruct (before (snd x) (snd y)) eqn:E; simpl.
    + constructor; [exact H|]. constructor. now apply before_le.
    + inversion H as [|? ? Hs Hr]; subst.
      constructor; [now apply IH|].
      destruct l as [|z l]; simpl.
      * constructor. now apply not_before_ge.
      * destruct (before (snd x) (snd z)); simpl; constructor.
        -- now apply not_before_ge.
        -- now inversion Hr.
Qed.

Lemma sort_pos_Sorted l :
  Sorted Qle (map snd (fold_right (insert_pos before) [] l)).
Proof.
  induction l as [|x l IH]; simpl; [constructor|]. now apply insert_pos_Sorted.
Qed.

Lemma insertion_argsort_perm keys :
  Permutation (insertion_argsort before keys) (seq 0 (List.length keys)).
Proof.
  unfold insertion_argsort.
  rewrite (Permutation_map fst (sort_pos_Permutation _)).
  now rewrite map_fst_combine_seq.
Qed.

Lemma insertion_argsort_sorted keys :
  Sorted Qle (take keys (insertion_argsort before keys)).
Proof.
  unfold insertion_argsort. rewrite take_tagged; [apply sort_pos_Sorted|].
  intros p Hp. apply (combine_seq_tagged [] keys).
  eapply Permutation_in; [apply sort_pos_Permutation|exact Hp].
Qed.

End InsertionArgsort.

Lemma Qle_bool_false_ge a b : Qle_bool a b = false -> Qle b a.
Proof.
  intro H. apply Qnot_lt_le. intro Hlt.
  apply Qlt_le_weak in Hlt. apply Qle_bool_iff in Hlt. congruence.
Qed.

(** numpy's sort on a build where ties stay in place. *)
Definition stable_quicksort : NumpyArgsort :=
  {| argsort := stable_argsort;
     argsort_perm :=
       insertion_argsort_perm Qle_bool;
     argsort_sorted :=
       insertion_argsort_sorted Qle_bool
         (fun a b H => proj1 (Qle_bool_iff a b) H) Qle_bool_false_ge |}.

(** ** What [nargsort] and [sort_values_by] guarantee *)

Lemma StronglySorted_snoc {A : Type} (R : A -> A -> Prop) (l : list A) (x : A) :
  StronglySorted R l -> Forall (fun y => R y x) l ->
  StronglySorted R (l ++ [x]).
Proof.
  induction 1 as [|a l Hs IH Ha]; intro Hx; simpl.
  - repeat constructor.
  - inversion Hx; subst. constructor; [now apply IH|].
    apply Forall_app. split; [exact Ha|]. now repeat constructor.
Qed.

Lemma StronglySorted_rev {A : Type} (R : A -> A -> Prop) (l : list A) :
  StronglySorted R l -> StronglySorted (fun a b => R b a) (rev l).
Proof.
  induction 1 as [|a l Hs IH Ha]; simpl; [constructor|].
  apply StronglySorted_snoc; [exact IH|]. now apply Forall_rev.
Qed.

Lemma Qle_StronglySorted (l : list Q) : Sorted Qle l -> StronglySorted Qle l.
Proof.
  apply Sorted_StronglySorted. intros a b c. apply Qle_trans.
Qed.

Lemma take_take {A : Type} (l : list A) (ps : list (nat * A)) (a : list nat) :
  tagged_in l ps -> take l (take (map fst ps) a) = take (map snd ps) a.
Proof.
  intro H. induction a as [|i a IH]; [reflexivity|].
  rewrite (take_cons (map fst ps)), (take_cons (map snd ps)), take_app, IH.
  f_equal. unfold take at 2 3. simpl. rewrite !nth_error_map.
  destruct (nth_error ps i) as [p|] eqn:E; simpl; [|reflexivity].
  unfold take. simpl. rewrite (H p); [reflexivity|].
  eapply nth_error_In; eassumption.
Qed.

Lemma split_positions (t : list (nat * option Q)) :
  Permutation (map fst (non_nan_entries t) ++ nan_positions t) (map fst t).
Proof.
  induction t as [|[i [q|]] t IH]; simpl; [reflexivity| |].
  - now constructor.
  - symmetry. apply Permutation_cons_app. now symmetry.
Qed.

Lemma non_nan_In (t : list (nat * option Q)) (p : nat * Q) :
  In p (non_nan_entries t) -> In (fst p, Some (snd p)) t.
Proof.
  unfold non_nan_entries. rewrite in_flat_map. intros [[i [q|]] [Hin Hp]].
  - simpl in Hp. destruct Hp as [<-|[]]. exact Hin.
  - contradiction.
Qed.

Lemma nan_positions_In (t : list (nat * option Q)) (i : nat) :
  In i (nan_positions t) -> In (i, None) t.
Proof.
  unfold nan_positions. rewrite in_flat_map. intros [[j [q|]] [Hin Hp]].
  - contradiction.
  - simpl in Hp. destruct Hp as [<-|[]]. exact Hin.
Qed.

Lemma nan_positions_none (t : list (nat * option Q)) :
  (forall p, In p t -> snd p <> None) -> nan_positions t = [].
Proof.
  induction t as [|[i [q|]] t IH]; intro H; simpl; [reflexivity| |].
  - apply IH. intros p Hp. apply H. now right.
  - exfalso. now apply (H (i, None)); [left|].
Qed.

Section NargsortFacts.

Context {quicksort : NumpyArgsort}.

Lemma nargsort_Permutation (items : list (option Q)) (ascending : bool) :
  Permutation (nargsort items ascending) (seq 0 (List.length items)).
Proof.
  unfold nargsort.
  set (t := combine (seq 0 (List.length items)) items).
  assert (Hsel : forall nn : list (nat * Q),
             Permutation (take (map fst nn) (argsort (map snd nn)))
                         (map fst nn)).
  { intro nn. apply take_all_Permutation.
    rewrite length_map, <- (length_map snd). apply argsort_perm. }
  rewrite <- (map_fst_combine_seq 0 items). fold t.
  rewrite <- (split_positions t).
  apply Permutation_app_tail.
  destruct ascending; [apply Hsel|].
  rewrite <- Permutation_rev, Hsel, map_rev. symmetry. apply Permutation_rev.
Qed.

Lemma sort_values_by_Permutation {A : Type} (key : A -> option Q)
      (ascending : bool) (l : list A) :
  Permutation (sort_values_by key ascending l) l.
Proof.
  unfold sort_values_by. apply take_all_Permutation.
  rewrite <- (length_map key). apply nargsort_Permutation.
Qed.

(** The keys in the order [nargsort] gives: the numbers, sorted in the
    direction asked for, then the missing ones. *)
Lemma nargsort_keys (items : list (option Q)) (ascending : bool) :
  exists qs : list Q,
    take items (nargsort items ascending)
    = map Some qs
      ++ map (fun _ => None)
             (nan_positions (combine (seq 0 (List.length items)) items))
    /\ StronglySorted (if ascending then Qle else fun a b => Qle b a) qs.
Proof.
  unfold nargsort.
  set (t := combine (seq 0 (List.length items)) items).
  assert (Ht : tagged_in items t) by apply (combine_seq_tagged [] items).
  assert (Hsel : forall nn : list (nat * Q),
             (forall p, In p nn -> In p (non_nan_entries t)) ->
             forall a, take items (take (map fst nn) a)
                       = map Some (take (map snd nn) a)).
  { intros nn Hnn a.
    set (nn' := map (fun p : nat * Q => (fst p, Some (snd p))) nn).
    assert (E1 : map fst nn' = map fst nn)
      by (unfold nn'; rewrite map_map; reflexivity).
    assert (E2 : map snd nn' = map Some (map snd nn))
      by (unfold nn'; rewrite !map_map; reflexivity).
    rewrite take_map, <- E1, <- E2. apply take_take.
    intros p Hp. apply in_map_iff in Hp. destruct Hp as [p0 [<- Hp0]].
    apply (Ht (fst p0, Some (snd p0))). apply non_nan_In. now apply Hnn. }
  assert (Hnan : take items (nan_positions t)
                 = map (fun _ => None) (nan_positions t)).
  { assert (H : forall i, In i (nan_positions t) -> nth_error items i = Some None).
    { intros i Hi. apply (Ht (i, None)). now apply nan_positions_In. }
    induction (nan_positions t) as [|i l IH]; [reflexivity|].
    rewrite take_cons, IH by (intros j Hj; apply H; now right).
    unfold take. simpl. rewrite H by now left. reflexivity. }
  destruct ascending.
  - exists (take (map snd (non_nan_entries t))
                 (argsort (map snd (non_nan_entries t)))).
    split.
    + rewrite take_app, Hnan, Hsel; [reflexivity|auto].
    + apply Qle_StronglySorted, argsort_sorted.
  - exists (rev (take (map snd (rev (non_nan_entries t)))
                      (argsort (map snd (rev (non_nan_entries t)))))).
    split.
    + rewrite take_app, Hnan, take_rev, Hsel, (map_rev Some); [reflexivity|].
      intros p Hp. now apply in_rev.
    + apply StronglySorted_rev, Qle_StronglySorted, argsort_sorted.
Qed.

End NargsortFacts.

(** ** What [lexsort] guarantees *)

Section LexsortFacts.

Context {A : Type}.
Variable leb : A -> A -> bool.

Lemma insert_sorted_Permutation x l :
  Permutation (insert_sorted leb x l) (x :: l).
Proof.
  induction l as [|y l IH]; simpl; [reflexivity|].
  destruct (leb x y); [reflexivity|]. rewrite IH. apply perm_swap.
Qed.

Lemma lexsort_Permutation l : Permutation (lexsort leb l) l.
Proof.
  induction l as [|x l IH]; simpl; [reflexivity|].
  rewrite insert_sorted_Permutation. now constructor.
Qed.

Lemma lexsort_length l : List.length (lexsort leb l) = List.length l.
Proof. apply Permutation_length, lexsort_Permutation. Qed.

(** Stability: rows that the order does not tell apart stay as they were. *)
Lemma insert_sorted_filter (p : A -> bool) x l :
  (forall y, p x = true -> p y = true -> leb x y = true) ->
  filter p (insert_sorted leb x l) = filter p (x :: l).
Proof.
  intro Htie. induction l as [|y l IH]; [reflexivity|].
  simpl insert_sorted. destruct (leb x y) eqn:E; [reflexivity|].
  simpl. simpl in IH. rewrite IH.
  destruct (p x) eqn:Px, (p y) eqn:Py; try reflexivity.
  rewrite Htie in E by (reflexivity || assumption). discriminate.
Qed.

Lemma lexsort_stable (p : A -> bool) l :
  (forall x y, p x = true -> p y = true -> leb x y = true) ->
  filter p (lexsort leb l) = filter p l.
Proof.
  intro Htie. induction l as [|x l IH]; [reflexivity|].
  simpl lexsort. rewrite insert_sorted_filter by (intro y; apply Htie).
  simpl. now rewrite IH.
Qed.

Hypothesis leb_total : forall a b, leb a b = false -> leb b a = true.
Hypothesis leb_trans :
  forall a b c, leb a b = true -> leb b c = true -> leb a c = true.

Lemma insert_sorted_Sorted x l :
  Sorted (fun a b => leb a b = true) l ->
  Sorted (fun a b => leb a b = true) (insert_sorted leb x l).
Proof.
  induction l as [|y l IH]; intro H; simpl.
  - repeat constructor.
  - destruct (leb x y) eqn:E.
    + constructor; [exact H|]. now constructor.
    + inversion H as [|? ? Hs Hr]; subst.
      constructor; [now apply IH|].
      destruct l as [|z l]; simpl.
      * constructor. now apply leb_total.
      * destruct (leb x z); constructor.
        -- now apply leb_total.
        -- now inversion Hr.
Qed.

Lemma lexsort_StronglySorted l :
  StronglySorted (fun a b => leb a b = true) (lexsort leb l).
Proof.
  apply Sorted_StronglySorted; [exact leb_trans|].
  induction l as [|x l IH]; simpl; [constructor|].
  now apply insert_sorted_Sorted.
Qed.

End LexsortFacts.

Lemma key_compare_refl a : key_compare a a = Eq.
Proof. destruct a; simpl; [apply Z.compare_refl|reflexivity]. Qed.

Lemma key_compare_eq a b : key_compare a b = Eq -> a = b.
Proof.
  destruct a, b; simpl; try discriminate; [|reflexivity].
  intro H. apply Z.compare_eq in H. now subst.
Qed.

Lemma key_compare_antisym a b : key_compare b a = CompOpp (key_compare a b).
Proof. destruct a, b; simpl; try reflexivity. apply Z.compare_antisym. Qed.

Lemma key_compare_lt_trans a b c :
  key_compare a b = Lt -> key_compare b c = Lt -> key_compare a c = Lt.
Proof.
  destruct a, b, c; simpl; try discriminate; try reflexivity.
  rewrite !Z.compare_lt_iff. lia.
Qed.

Lemma case_time_leb_total r1 r2 :
  case_time_leb r1 r2 = false -> case_time_leb r2 r1 = true.
Proof.
  unfold case_time_leb.
  rewrite (key_compare_antisym (case_id r1) (case_id r2)).
  rewrite (key_compare_antisym (ts_value (timestamp r1)) (ts_value (timestamp r2))).
  destruct (key_compare (case_id r1) (case_id r2)); simpl; try discriminate;
    try reflexivity.
  destruct (key_compare (ts_value (timestamp r1)) (ts_value (timestamp r2)));
    simpl; try discriminate; reflexivity.
Qed.

Lemma case_time_leb_trans r1 r2 r3 :
  case_time_leb r1 r2 = true -> case_time_leb r2 r3 = true ->
  case_time_leb r1 r3 = true.
Proof.
  unfold case_time_leb.
  destruct (key_compare (case_id r1) (case_id r2)) eqn:C12; try discriminate;
    destruct (key_compare (case_id r2) (case_id r3)) eqn:C23; try discriminate;
    try (apply key_compare_eq in C12; rewrite C12);
    try (apply key_compare_eq in C23; rewrite <- C23);
    try rewrite key_compare_refl; try rewrite C12; try rewrite C23;
    try (rewrite (key_compare_lt_trans _ _ _ C12 C23)); try reflexivity.
  destruct (key_compare (ts_value (timestamp r1)) (ts_value (timestamp r2)))
    eqn:T12; try discriminate;
    destruct (key_compare (ts_value (timestamp r2)) (ts_value (timestamp r3)))
      eqn:T23; try discriminate;
    try (apply key_compare_eq in T12; rewrite T12);
    try (apply key_compare_eq in T23; rewrite <- T23);
    try rewrite key_compare_refl; try rewrite T12; try rewrite T23;
    try (rewrite (key_compare_lt_trans _ _ _ T12 T23)); reflexivity.
Qed.

Lemma lexsort_case_time_sorted (l : list Row) :
  StronglySorted (fun a b => case_time_leb a b = true)
                 (lexsort case_time_leb l).
Proof.
  apply lexsort_StronglySorted;
    [exact case_time_leb_total|exact case_time_leb_trans].
Qed.

(** ** Counting *)

Lemma list_sum_Permutation (l l' : list nat) :
  Permutation l l' -> list_sum l = list_sum l'.
Proof. induction 1; simpl; lia. Qed.

Lemma count_add_total {K : Type} (eqb : K -> K -> bool) k (c : list (K * nat)) :
  total_count (count_add eqb k c) = S (total_count c).
Proof.
  unfold total_count. induction c as [|[k' n] c IH]; [reflexivity|].
  simpl. destruct (eqb k' k); simpl; [reflexivity|]. rewrite IH. lia.
Qed.

Lemma count_fold_total {K : Type} (eqb : K -> K -> bool) (l : list K) c :
  total_count (fold_left (fun c k => count_add eqb k c) l c)
  = total_count c + List.length l.
Proof.
  revert c. induction l as [|k l IH]; intro c; simpl; [lia|].
  rewrite IH, count_add_total. lia.
Qed.

Lemma count_all_total {K : Type} (eqb : K -> K -> bool) (l : list K) :
  total_count (count_all eqb l) = List.length l.
Proof. unfold count_all. now rewrite count_fold_total. Qed.

Lemma present_length {A : Type} (l : list (option A)) :
  Forall (fun o => o <> None) l -> List.length (present l) = List.length l.
Proof.
  induction 1 as [|[x|] l Hx Hl IH]; simpl; [reflexivity| |].
  - now rewrite IH.
  - now elim Hx.
Qed.

Lemma present_Permutation {A : Type} (l l' : list (option A)) :
  Permutation l l' -> Permutation (present l) (present l').
Proof. intro H. unfold present. now apply Permutation_flat_map. Qed.

Lemma consecutive_length {A : Type} (l : list A) :
  List.length (consecutive l) = List.length l - 1.
Proof.
  unfold consecutive. rewrite length_combine.
  destruct l as [|a l]; [reflexivity|].
  change (tl (a :: l)) with l. change (List.length (a :: l)) with (S (List.length l)).
  lia.
Qed.

Lemma count_case_edges_total c (group : list Row) :
  total_count (count_case_edges c group)
  = total_count c + (List.length group - 1).
Proof.
  unfold count_case_edges.
  now rewrite count_fold_total, consecutive_length, length_map.
Qed.

Lemma edge_fold_total (groups : list (Z * list Row)) c :
  total_count (fold_left (fun c g => count_case_edges c (snd g)) groups c)
  = total_count c
    + list_sum (map (fun g => List.length (snd g) - 1) groups).
Proof.
  revert c. induction groups as [|g groups IH]; intro c; simpl; [lia|].
  rewrite IH, count_case_edges_total. lia.
Qed.

(** ** The groups of [groupby_case] *)

Lemma insert_unique_In (x y : Z) (l : list Z) :
  In y (insert_unique Z.compare x l) <-> y = x \/ In y l.
Proof.
  induction l as [|z l IH]; simpl; [intuition|].
  destruct (Z.compare_spec x z) as [E|E|E]; simpl.
  - subst. intuition.
  - intuition.
  - rewrite IH. intuition.
Qed.

Lemma sorted_unique_In (y : Z) (l : list Z) :
  In y (sorted_unique Z.compare l) <-> In y l.
Proof.
  induction l as [|x l IH]; simpl; [reflexivity|].
  rewrite insert_unique_In, IH. intuition.
Qed.

Lemma insert_unique_sorted (x : Z) (l : list Z) :
  StronglySorted Z.lt l -> StronglySorted Z.lt (insert_unique Z.compare x l).
Proof.
  induction 1 as [|z l Hs IH Hz]; simpl.
  - repeat constructor.
  - destruct (Z.compare_spec x z) as [E|E|E].
    + now constructor.
    + constructor; [now constructor|].
      constructor; [exact E|].
      eapply Forall_impl; [|exact Hz]. simpl. intros a Ha. lia.
    + constructor; [exact IH|].
      apply Forall_forall. intros a Ha. apply insert_unique_In in Ha.
      destruct Ha as [->|Ha]; [exact E|].
      rewrite Forall_forall in Hz. now apply Hz.
Qed.

Lemma sorted_unique_sorted (l : list Z) :
  StronglySorted Z.lt (sorted_unique Z.compare l).
Proof.
  induction l as [|x l IH]; simpl; [constructor|].
  now apply insert_unique_sorted.
Qed.

Lemma StronglySorted_lt_NoDup (l : list Z) : StronglySorted Z.lt l -> NoDup l.
Proof.
  induction 1 as [|z l Hs IH Hz]; constructor; [|exact IH].
  intro Hin. rewrite Forall_forall in Hz. specialize (Hz z Hin). lia.
Qed.

Lemma case_keys_NoDup (rs : list Row) : NoDup (case_keys rs).
Proof. apply StronglySorted_lt_NoDup, sorted_unique_sorted. Qed.

Lemma case_keys_In (k : Z) (rs : list Row) :
  In k (case_keys rs) <-> exists r, In r rs /\ case_id r = Some k.
Proof.
  unfold case_keys. rewrite sorted_unique_In. unfold present.
  rewrite in_flat_map. split.
  - intros [o [Ho Hk]]. apply in_map_iff in Ho. destruct Ho as [r [<- Hr]].
    exists r. split; [exact Hr|].
    destruct (case_id r); simpl in Hk; [|contradiction].
    destruct Hk as [->|[]]. reflexivity.
  - intros [r [Hr Hk]]. exists (Some k). split; [|now left].
    rewrite <- Hk. now apply in_map.
Qed.

(** The number of groups is the number of distinct case ids. *)
Lemma case_keys_length (rs : list Row) :
  List.length (case_keys rs) = nunique (map case_id rs).
Proof.
  unfold nunique. apply Permutation_length, NoDup_Permutation.
  - apply case_keys_NoDup.
  - apply NoDup_nodup.
  - intro k. unfold case_keys. now rewrite sorted_unique_In, nodup_In.
Qed.

Lemma groupby_case_length (rs : list Row) :
  List.length (groupby_case rs) = nunique (map case_id rs).
Proof. unfold groupby_case. now rewrite length_map, case_keys_length. Qed.

(** No group is empty. *)
Lemma groupby_case_nonempty (rs : list Row) (g : Z * list Row) :
  In g (groupby_case rs) -> 1 <= List.length (snd g).
Proof.
  unfold groupby_case. rewrite in_map_iff. intros [k [<- Hk]]. simpl.
  apply case_keys_In in Hk. destruct Hk as [r [Hr Hk]].
  assert (Hin : In r (filter (in_case k) rs)).
  { apply filter_In. split; [exact Hr|].
    unfold in_case. rewrite Hk. apply Z.eqb_refl. }
  destruct (filter (in_case k) rs); [contradiction|simpl; lia].
Qed.

Lemma matching_keys_one (c : Z) (keys : list Z) :
  NoDup keys -> In c keys ->
  list_sum (map (fun k => if Z.eqb c k then 1 else 0) keys) = 1.
Proof.
  induction 1 as [|k keys Hk Hnd IH]; intro Hin; [contradiction|].
  simpl. destruct (Z.eqb_spec c k) as [->|Hne].
  - assert (H0 : list_sum (map (fun k0 => if Z.eqb k k0 then 1 else 0) keys) = 0).
    { clear IH Hin Hnd. induction keys as [|k' keys IH]; [reflexivity|].
      simpl. destruct (Z.eqb_spec k k') as [->|_].
      - elim Hk. now left.
      - apply IH. intro H. apply Hk. now right. }
    lia.
  - destruct Hin as [->|Hin]; [congruence|]. now rewrite IH.
Qed.

Lemma list_sum_map_add {A : Type} (f g : A -> nat) (l : list A) :
  list_sum (map (fun x => f x + g x) l)
  = list_sum (map f l) + list_sum (map g l).
Proof. induction l as [|x l IH]; simpl; lia. Qed.

(** The groups take every row that has a case id, once. *)
Lemma groups_cover (keys : list Z) (rs : list Row) :
  NoDup keys ->
  (forall r k, In r rs -> case_id r = Some k -> In k keys) ->
  list_sum (map (fun k => List.length (filter (in_case k) rs)) keys)
  = List.length (filter has_case rs).
Proof.
  intros Hnd. induction rs as [|r rs IH]; intro Hcov.
  - simpl. clear. induction keys; simpl; auto.
  - assert (Hsplit :
      list_sum (map (fun k => List.length (filter (in_case k) (r :: rs))) keys)
      = list_sum (map (fun k => if in_case k r then 1 else 0) keys)
        + list_sum (map (fun k => List.length (filter (in_case k) rs)) keys)).
    { rewrite <- list_sum_map_add. f_equal. apply map_ext. intro k.
      simpl. destruct (in_case k r); reflexivity. }
    rewrite Hsplit, IH by (intros r0 k H; apply Hcov; now right).
    simpl. unfold has_case, in_case. destruct (case_id r) as [c|] eqn:E.
    + rewrite matching_keys_one; [reflexivity|exact Hnd|].
      apply (Hcov r c); [now left|exact E].
    + assert (H0 : list_sum (map (fun _ : Z => 0) keys) = 0)
        by (clear; induction keys; simpl; auto).
      now rewrite H0.
Qed.

Lemma groupby_case_cover (rs : list Row) :
  list_sum (map (fun g => List.length (snd g)) (groupby_case rs))
  = List.length (filter has_case rs).
Proof.
  unfold groupby_case. rewrite map_map. simpl.
  apply groups_cover; [apply case_keys_NoDup|].
  intros r k Hr Hk. apply case_keys_In. now exists r.
Qed.

Lemma list_sum_pred (ns : list nat) :
  Forall (fun n => 1 <= n) ns ->
  list_sum (map (fun n => n - 1) ns) + List.length ns = list_sum ns.
Proof. induction 1; simpl; lia. Qed.

(** The transitions counted: one less than its rows for every case. *)
Lemma edge_counter_total (rs : list Row) :
  total_count (edge_counter rs) + nunique (map case_id rs)
  = List.length (filter has_case rs).
Proof.
  unfold edge_counter. rewrite edge_fold_total. simpl.
  rewrite <- groupby_case_length, <- groupby_case_cover.
  rewrite <- (length_map (fun g => List.length (snd g)) (groupby_case rs)).
  rewrite <- (list_sum_pred (map (fun g => List.length (snd g)) (groupby_case rs))).
  - now rewrite map_map.
  - apply Forall_forall. intros n Hn. apply in_map_iff in Hn.
    destruct Hn as [g [<- Hg]]. now apply (groupby_case_nonempty rs).
Qed.

(** * The engine: what is shared between the claims *)

Lemma assign_map {B : Type} (set : Row -> B -> Row) (h : Row -> B)
      (rs : list Row) :
  assign set rs (map h rs) = map (fun r => set r (h r)) rs.
Proof.
  unfold assign. induction rs as [|r rs IH]; [reflexivity|].
  simpl. now rewrite IH.
Qed.

Lemma issubset_required (df : DataFrame) :
  issubset ["case_id"; "step"] df = true <-> required_columns df.
Proof.
  unfold issubset, required_columns. simpl.
  rewrite !andb_true_iff. intuition.
Qed.

Lemma has_column_rows (name : string) (df : DataFrame) (rs : list Row) :
  has_column name (mkDataFrame (columns df) rs) = has_column name df.
Proof. reflexivity. Qed.

Section EngineFacts.

Context {quicksort : NumpyArgsort}.
Variable parse_datetime : string -> option Z.

Lemma parse_column_map (rs : list Row) :
  parse_column parse_datetime rs
  = map (fun r => set_timestamp r (to_datetime parse_datetime (timestamp r))) rs.
Proof. unfold parse_column. rewrite map_map. apply assign_map. Qed.

(** Sorting keeps the rows: those of the table, with the timestamps parsed
    when there is such a column. *)
Lemma sorted_events_Permutation (df : DataFrame) :
  Permutation (rows (sorted_events parse_datetime df))
              (if has_column "timestamp" df
               then parse_column parse_datetime (rows df)
               else rows df).
Proof.
  unfold sorted_events.
  destruct (has_column "timestamp" df) eqn:E.
  - rewrite has_column_rows, E. simpl. apply lexsort_Permutation.
  - rewrite E. simpl. apply sort_values_by_Permutation.
Qed.

Lemma sorted_events_columns (df : DataFrame) :
  columns (sorted_events parse_datetime df) = columns df.
Proof.
  unfold sorted_events.
  destruct (has_column "timestamp" df) eqn:E.
  - now rewrite has_column_rows, E.
  - now rewrite E.
Qed.

(** A column that parsing does not touch holds the same values after the
    sort, in some order. *)
Lemma sorted_events_column {B : Type} (f : Row -> B) (df : DataFrame) :
  (forall r c, f (set_timestamp r c) = f r) ->
  Permutation (map f (rows (sorted_events parse_datetime df)))
              (map f (rows df)).
Proof.
  intro Hf. rewrite (Permutation_map f (sorted_events_Permutation df)).
  destruct (has_column "timestamp" df); [|reflexivity].
  rewrite parse_column_map, map_map.
  erewrite map_ext; [reflexivity|]. intro r. apply Hf.
Qed.

Lemma sorted_events_length (df : DataFrame) :
  List.length (rows (sorted_events parse_datetime df)) = List.length (rows df).
Proof.
  rewrite <- (length_map step), <- (length_map step (rows df)).
  apply Permutation_length, sorted_events_column. reflexivity.
Qed.

Lemma value_counts_Permutation (col : list (option string)) :
  Permutation (value_counts col) (count_all String.eqb (present col)).
Proof. apply sort_values_by_Permutation. Qed.

Lemma value_counts_total (col : list (option string)) :
  total_count (value_counts col) = List.length (present col).
Proof.
  unfold total_count.
  rewrite (list_sum_Permutation _ _
             (Permutation_map snd (value_counts_Permutation col))).
  apply count_all_total.
Qed.

(** With both required columns the analysis returns, and this is what it
    returns. *)
Lemma analyze_dataframe_returns (df : DataFrame) :
  required_columns df ->
  analyze_dataframe parse_datetime df
  = inr (let events := sorted_events parse_datetime df in
         let step_counts := value_counts (map step (rows events)) in
         let edges :=
           map (fun p => mkEdge (fst (fst p)) (snd (fst p)) (snd p))
               (edge_counter (rows events)) in
         mkResult
           (mkStats (nunique (map case_id (rows events)))
                    (List.length (rows events))
                    (List.length step_counts)
                    (List.length edges))
           (mkGraph (map (fun p => mkNode (fst p) (snd p)) step_counts) edges)
           (compute_kpis parse_datetime events)).
Proof.
  intro H. apply issubset_required in H.
  unfold analyze_dataframe. now rewrite H.
Qed.

End EngineFacts.

(** ** The store only grows *)

Lemma extends_refl (h : Heap) : extends h h.
Proof. exists []. now rewrite app_nil_r. Qed.

Lemma extends_snoc (h g : Heap) (d : DataFrame) :
  extends h g -> extends h (g ++ [d]).
Proof. intros [t ->]. exists (t ++ [d]). now rewrite app_assoc. Qed.

Lemma extends_lookup (h h' : Heap) (r : Ref) :
  extends h h' -> r < List.length h -> nth_error h' r = nth_error h r.
Proof. intros [t ->] Hr. now apply nth_error_app1. Qed.

Lemma read_last (g : Heap) (d : DataFrame) :
  read (List.length g) (g ++ [d]) = (d, g ++ [d]).
Proof.
  unfold read. f_equal. rewrite app_nth2 by lia. now rewrite Nat.sub_diag.
Qed.

Lemma update_last {A : Type} (g : list A) (d v : A) :
  update (List.length g) v (g ++ [d]) = g ++ [v].
Proof. induction g as [|x g IH]; simpl; [reflexivity|]. now rewrite IH. Qed.

Lemma write_last (g : Heap) (d v : DataFrame) :
  write (List.length g) v (g ++ [d]) = (tt, g ++ [v]).
Proof. unfold write. now rewrite update_last. Qed.

Lemma alloc_eq (g : Heap) (d : DataFrame) :
  alloc d g = (List.length g, g ++ [d]).
Proof. reflexivity. Qed.

Lemma add_column_present (name : string) (df : DataFrame) :
  has_column name df = true -> add_column name (columns df) = columns df.
Proof. unfold has_column, add_column. now intros ->. Qed.

Ltac store_simpl :=
  cbv beta iota delta [negb bind ret copy setitem]; cbn [rows columns].

Ltac store_step :=
  first [ rewrite read_last | rewrite write_last | rewrite alloc_eq ];
  store_simpl.

Ltac store_grows :=
  repeat first [ apply extends_refl | apply extends_snoc ].

Section StoreFacts.

Context {quicksort : NumpyArgsort}.
Variable parse_datetime : string -> option Z.

(** [compute_kpis] on the newest table of the store: the value is that of
    the function on the table's content, and the store has only grown. *)
Lemma compute_kpis_st_spec (g : Heap) (e : DataFrame) :
  exists g',
    compute_kpis_st parse_datetime (List.length g) (g ++ [e])
    = (compute_kpis parse_datetime e, g')
    /\ extends (g ++ [e]) g'.
Proof.
  unfold compute_kpis_st, compute_kpis. store_simpl. store_step.
  destruct (has_column "timestamp" e) eqn:Hts; store_simpl.
  2: { eexists. split; [reflexivity|]. store_grows. }
  repeat store_step.
  unfold kpi_frame.
  destruct (is_datetime64_any_dtype (map timestamp (rows e))) eqn:Hdt;
    store_simpl.
  - repeat store_step.
    destruct (forallb isna (map timestamp (rows e))) eqn:Hna; store_simpl.
    + eexists. split; [reflexivity|]. store_grows.
    + repeat store_step.
      eexists. split.
      { unfold duration_rows, with_gaps. rewrite !assign_map. reflexivity. }
      store_grows.
  - repeat store_step. fold (parse_column parse_datetime (rows e)).
    destruct (forallb isna (map timestamp (parse_column parse_datetime (rows e))))
      eqn:Hna; store_simpl.
    + eexists. split; [reflexivity|]. store_grows.
    + repeat store_step.
      eexists. split.
      { unfold duration_rows, with_gaps. rewrite !assign_map. reflexivity. }
      store_grows.
Qed.

Lemma read_eq (r : Ref) (h : Heap) : read r h = (nth r h empty_frame, h).
Proof. reflexivity. Qed.

(** [analyze_dataframe] on a table of the store: the value is that of the
    function on the table's content, and the store has only grown. *)
Lemma analyze_dataframe_st_spec (h : Heap) (r : Ref) :
  exists h',
    analyze_dataframe_st parse_datetime r h
    = (analyze_dataframe parse_datetime (nth r h empty_frame), h')
    /\ extends h h'.
Proof.
  unfold analyze_dataframe_st, analyze_dataframe. store_simpl.
  rewrite !read_eq. store_simpl.
  set (d := nth r h empty_frame).
  destruct (issubset ["case_id"; "step"] d) eqn:Hreq; store_simpl.
  2: { eexists. split; [reflexivity|]. store_grows. }
  rewrite (read_eq r h). fold d. store_simpl.
  repeat store_step. unfold sorted_events.
  destruct (has_column "timestamp" d) eqn:Hts; store_simpl.
  - repeat store_step. fold (parse_column parse_datetime (rows d)).
    rewrite (add_column_present "timestamp" d Hts).
    rewrite !has_column_rows, Hts. store_simpl. repeat store_step.
    destruct (compute_kpis_st_spec
                (h ++ [mkDataFrame (columns d)
                                   (parse_column parse_datetime (rows d))])
                (mkDataFrame (columns d)
                             (lexsort case_time_leb
                                      (parse_column parse_datetime (rows d)))))
      as [g' [E X]].
    rewrite E. eexists. split; [reflexivity|].
    destruct X as [t ->]. exists ([mkDataFrame (columns d)
                                   (parse_column parse_datetime (rows d))]
                                  ++ [mkDataFrame (columns d)
                             (lexsort case_time_leb
                                      (parse_column parse_datetime (rows d)))]
                                  ++ t).
    now rewrite !app_assoc.
  - repeat store_step. rewrite Hts. store_simpl. repeat store_step.
    match goal with
    | |- context [compute_kpis_st _ (List.length ?g) (?g ++ [?e])] =>
        destruct (compute_kpis_st_spec g e) as [g' [E X]]
    end.
    rewrite E. eexists. split.
    + destruct d; reflexivity.
    + destruct X as [t ->]. eexists. rewrite <- !app_assoc. reflexivity.
Qed.

End StoreFacts.

(** * A descending sort, and a sort that keeps ties in place *)

Lemma StronglySorted_map {A B : Type} (R : B -> B -> Prop) (f : A -> B)
      (l : list A) :
  StronglySorted R (map f l) -> StronglySorted (fun a b => R (f a) (f b)) l.
Proof.
  induction l as [|x l IH]; intro H; [constructor|].
  simpl in H. inversion H as [|? ? Hs Hx]; subst.
  constructor; [now apply IH|].
  rewrite Forall_forall in *. intros y Hy. apply Hx. now apply in_map.
Qed.

Lemma map_Some_inj {A : Type} (l l' : list A) :
  map Some l = map Some l' -> l = l'.
Proof.
  revert l'. induction l as [|x l IH]; intros [|y l'] H; try discriminate;
    [reflexivity|].
  simpl in H. inversion H. f_equal. now apply IH.
Qed.

Lemma non_nan_entries_all (s : nat) (ks : list Q) :
  non_nan_entries (combine (seq s (List.length ks)) (map Some ks))
  = combine (seq s (List.length ks)) ks.
Proof.
  revert s. induction ks as [|k ks IH]; intro s; [reflexivity|].
  simpl. now rewrite IH.
Qed.

Lemma nan_positions_all (s : nat) (ks : list Q) :
  nan_positions (combine (seq s (List.length ks)) (map Some ks)) = [].
Proof.
  revert s. induction ks as [|k ks IH]; intro s; [reflexivity|].
  simpl. now rewrite IH.
Qed.

Lemma filter_take {A : Type} (p : A -> bool) (l : list A) (idx : list nat) :
  filter p (take l idx)
  = take l (filter (fun i => match nth_error l i with
                             | Some x => p x
                             | None => false
                             end) idx).
Proof.
  induction idx as [|i idx IH]; [reflexivity|].
  rewrite take_cons, filter_app, IH. simpl.
  unfold take at 1. simpl.
  destruct (nth_error l i) as [x|] eqn:E; simpl.
  - destruct (p x); [|reflexivity].
    rewrite (take_cons l i). unfold take at 2. simpl. now rewrite E.
  - reflexivity.
Qed.

Lemma take_filter_ext {A : Type} (f g : nat -> bool) (l : list A)
      (idx : list nat) :
  (forall i, i < List.length l -> f i = g i) ->
  take l (filter f idx) = take l (filter g idx).
Proof.
  intro H. induction idx as [|i idx IH]; [reflexivity|].
  simpl. destruct (Nat.lt_ge_cases i (List.length l)) as [Hi|Hi].
  - rewrite (H i Hi). destruct (g i); [|exact IH].
    now rewrite (take_cons l i (filter f idx)), (take_cons l i (filter g idx)), IH.
  - assert (E : take l [i] = []).
    { unfold take. simpl. apply nth_error_None in Hi. now rewrite Hi. }
    destruct (f i), (g i);
      try rewrite (take_cons l i (filter f idx));
      try rewrite (take_cons l i (filter g idx));
      rewrite ?E; simpl; exact IH.
Qed.

Section SortDirection.

Context {quicksort : NumpyArgsort}.
Context {A : Type}.
Variable key : A -> option Q.
Variable k : A -> Q.
Hypothesis key_some : forall x, key x = Some (k x).

Lemma keys_all_some (l : list A) : map key l = map Some (map k l).
Proof. rewrite map_map. apply map_ext. exact key_some. Qed.

(** With no missing key, the ascending sort is the [argsort] of the keys. *)
Lemma sort_values_by_asc (l : list A) :
  sort_values_by key true l = take l (argsort (map k l)).
Proof.
  unfold sort_values_by, nargsort. rewrite keys_all_some, length_map.
  rewrite non_nan_entries_all, nan_positions_all.
  rewrite app_nil_r, map_fst_combine_seq, map_snd_combine_seq.
  rewrite length_map.
  assert (T : tagged_in l (combine (seq 0 (List.length l)) l))
    by apply (combine_seq_tagged [] l).
  rewrite <- (map_fst_combine_seq 0 l).
  rewrite (take_take l _ _ T). now rewrite map_snd_combine_seq.
Qed.


Lemma sort_values_by_desc_sorted (l : list A) :
  StronglySorted (fun a b => Qle (k b) (k a)) (sort_values_by key false l).
Proof.
  destruct (nargsort_keys (map key l) false) as [qs [E Hs]].
  rewrite keys_all_some, length_map in E.
  rewrite nan_positions_all, app_nil_r in E.
  rewrite <- keys_all_some, <- take_map in E.
  fold (sort_values_by key false l) in E.
  rewrite keys_all_some in E. apply map_Some_inj in E.
  apply (StronglySorted_map (fun a b => Qle b a) k). now rewrite E.
Qed.

Hypothesis stable : keeps_ties quicksort.

Lemma sort_asc_keeps_ties (P : Q -> bool) (l : list A) :
  tie_class P ->
  filter (fun x => P (k x)) (take l (argsort (map k l)))
  = filter (fun x => P (k x)) l.
Proof.
  intro HP. rewrite filter_take.
  rewrite (take_filter_ext _ (fun i => P (nth i (map k l) 0%Q))).
  - rewrite (stable (map k l) P HP), length_map.
    rewrite <- (take_filter_ext
                  (fun i => match nth_error l i with
                            | Some x => P (k x)
                            | None => false
                            end)).
    + now rewrite <- filter_take, take_seq.
    + intros i Hi. destruct (nth_error l i) as [x|] eqn:E.
      * now rewrite (nth_error_nth (map k l) i 0%Q (map_nth_error k i l E)).
      * apply nth_error_None in E. lia.
  - intros i Hi. destruct (nth_error l i) as [x|] eqn:E.
    + now rewrite (nth_error_nth (map k l) i 0%Q (map_nth_error k i l E)).
    + apply nth_error_None in E. lia.
Qed.


End SortDirection.

(** The two insertion sorts as instances of numpy's sort. *)






(** * The table of counts behind the nodes *)

Lemma count_add_keys (k : string) (c : list (string * nat)) :
  map fst (count_add String.eqb k c)
  = if existsb (String.eqb k) (map fst c) then map fst c else map fst c ++ [k].
Proof.
  induction c as [|[k' n] c IH]; [reflexivity|]. simpl.
  rewrite (String.eqb_sym k k').
  destruct (String.eqb k' k); simpl; [reflexivity|].
  rewrite IH. now destruct (existsb (String.eqb k) (map fst c)).
Qed.

Lemma count_fold_keys (l : list string) (c : list (string * nat)) :
  map fst (fold_left (fun c k => count_add String.eqb k c) l c)
  = fold_left (fun acc s => if existsb (String.eqb s) acc then acc
                            else acc ++ [s])
              l (map fst c).
Proof.
  revert c. induction l as [|k l IH]; intro c; [reflexivity|].
  simpl. now rewrite IH, count_add_keys.
Qed.

(** The labels of the table of counts are the labels in first-seen order. *)
Lemma count_all_keys (l : list string) :
  map fst (count_all String.eqb l) = first_seen l.
Proof. unfold count_all, first_seen. now rewrite count_fold_keys. Qed.

Lemma count_of_add (s k : string) (c : list (string * nat)) :
  count_of s (count_add String.eqb k c)
  = (if String.eqb s k then 1 else 0) + count_of s c.
Proof.
  unfold count_of. induction c as [|[k' n] c IH]; simpl.
  - rewrite (String.eqb_sym k s). now destruct (String.eqb s k).
  - destruct (String.eqb_spec k' k) as [->|Hne]; simpl.
    + rewrite (String.eqb_sym k s). now destruct (String.eqb s k).
    + destruct (String.eqb_spec k' s) as [->|Hs]; [|exact IH].
      destruct (String.eqb_spec s k) as [->|_]; [now elim Hne|reflexivity].
Qed.

Lemma count_of_fold (s : string) (l : list string) (c : list (string * nat)) :
  count_of s (fold_left (fun c k => count_add String.eqb k c) l c)
  = occurrences s l + count_of s c.
Proof.
  revert c. induction l as [|k l IH]; intro c; [reflexivity|].
  simpl fold_left. rewrite IH, count_of_add. unfold occurrences. simpl.
  destruct (String.eqb s k); simpl; lia.
Qed.

Lemma count_of_all (s : string) (l : list string) :
  count_of s (count_all String.eqb l) = occurrences s l.
Proof. unfold count_all. rewrite count_of_fold. unfold count_of. simpl. lia. Qed.

Lemma count_add_NoDup (k : string) (c : list (string * nat)) :
  NoDup (map fst c) -> NoDup (map fst (count_add String.eqb k c)).
Proof.
  intro H. rewrite count_add_keys.
  destruct (existsb (String.eqb k) (map fst c)) eqn:E; [exact H|].
  apply NoDup_app; [exact H|repeat constructor; auto|].
  intros x Hx [Ex|[]]. subst x.
  assert (T : existsb (String.eqb k) (map fst c) = true).
  { apply existsb_exists. exists k. split; [exact Hx|apply String.eqb_refl]. }
  congruence.
Qed.

Lemma count_all_NoDup (l : list string) : NoDup (map fst (count_all String.eqb l)).
Proof.
  unfold count_all.
  assert (G : forall c, NoDup (map fst c) ->
                        NoDup (map fst (fold_left
                                          (fun c k => count_add String.eqb k c)
                                          l c))).
  { induction l as [|k l IH]; intros c Hc; [exact Hc|].
    simpl. apply IH. now apply count_add_NoDup. }
  apply G. constructor.
Qed.

Lemma count_of_In (s : string) (n : nat) (c : list (string * nat)) :
  NoDup (map fst c) -> In (s, n) c -> count_of s c = n.
Proof.
  unfold count_of. induction c as [|[k m] c IH]; intros Hnd Hin;
    [contradiction|].
  simpl. inversion Hnd as [|? ? Hk Hnd']; subst.
  destruct Hin as [E|Hin].
  - inversion E; subst. now rewrite String.eqb_refl.
  - destruct (String.eqb_spec k s) as [->|_]; [|now apply IH].
    elim Hk. now apply (in_map fst _ (s, n)).
Qed.

Lemma count_of_present (s : string) (c : list (string * nat)) :
  In s (map fst c) -> In (s, count_of s c) c.
Proof.
  unfold count_of. induction c as [|[k m] c IH]; [contradiction|].
  simpl. destruct (String.eqb_spec k s) as [->|Hne]; [now left|].
  intros [E|Hin]; [now elim Hne|]. right. now apply IH.
Qed.

Lemma first_seen_In (s : string) (l : list string) :
  In s (first_seen l) <-> In s l.
Proof.
  unfold first_seen.
  assert (G : forall acc, In s (fold_left
                                  (fun acc s => if existsb (String.eqb s) acc
                                                then acc else acc ++ [s]) l acc)
                          <-> In s acc \/ In s l).
  { induction l as [|k l IH]; intro acc; simpl; [tauto|].
    rewrite IH. destruct (existsb (String.eqb k) acc) eqn:E.
    - apply existsb_exists in E. destruct E as [x [Hx Ex]].
      apply String.eqb_eq in Ex. subst x.
      split; [tauto|]. intros [H|[<-|H]]; auto.
    - rewrite in_app_iff. simpl. tauto. }
  rewrite G. simpl. tauto.
Qed.

Lemma occurrences_app (s : string) (l1 l2 : list string) :
  occurrences s (l1 ++ l2) = occurrences s l1 + occurrences s l2.
Proof. unfold occurrences. now rewrite filter_app, length_app. Qed.

(** The steps of a table, counted case by case. *)
Lemma occurrences_split (s : string) (p : Row -> bool) (rs : list Row) :
  occurrences s (present (map step rs))
  = occurrences s (present (map step (filter p rs)))
    + occurrences s (present (map step (filter (fun r => negb (p r)) rs))).
Proof.
  induction rs as [|r rs IH]; [reflexivity|].
  simpl. change (present (step r :: map step rs))
    with (present [step r] ++ present (map step rs)).
  rewrite occurrences_app, IH.
  destruct (p r); simpl;
    change (present (step r :: ?l)) with (present [step r] ++ present l);
    rewrite occurrences_app; lia.
Qed.

Section NodeFacts.

Context {quicksort : NumpyArgsort}.

(** Every step of the column has its node, with the number of its
    occurrences. *)
Lemma value_counts_entry (col : list (option string)) (s : string) :
  In s (present col) ->
  In (s, occurrences s (present col)) (value_counts col).
Proof.
  intro H. eapply Permutation_in;
    [symmetry; apply value_counts_Permutation|].
  rewrite <- count_of_all. apply count_of_present.
  rewrite count_all_keys. now apply first_seen_In.
Qed.

Lemma value_counts_In (col : list (option string)) (s : string) (n : nat) :
  In (s, n) (value_counts col) ->
  n = occurrences s (present col) /\ In s (present col).
Proof.
  intro H. eapply Permutation_in in H; [|apply value_counts_Permutation].
  split.
  - rewrite <- count_of_all. symmetry.
    apply count_of_In; [apply count_all_NoDup|exact H].
  - apply first_seen_In. rewrite <- count_all_keys.
    now apply (in_map fst _ (s, n)).
Qed.

End NodeFacts.

(** * The order of the nodes *)

Lemma StronglySorted_unmap {A B : Type} (R : B -> B -> Prop) (f : A -> B)
      (l : list A) :
  StronglySorted (fun a b => R (f a) (f b)) l -> StronglySorted R (map f l).
Proof.
  induction 1 as [|x l Hs IH Hx]; simpl; constructor; [exact IH|].
  rewrite Forall_forall in *. intros y Hy. apply in_map_iff in Hy.
  destruct Hy as [z [<- Hz]]. now apply Hx.
Qed.

Lemma StronglySorted_weaken {A : Type} (R R' : A -> A -> Prop) (l : list A) :
  (forall a b, R a b -> R' a b) -> StronglySorted R l -> StronglySorted R' l.
Proof.
  intros H. induction 1 as [|x l Hs IH Hx]; constructor; [exact IH|].
  eapply Forall_impl; [|exact Hx]. intros y. apply H.
Qed.

Lemma Qnat_le (a b : nat) : Qle (Qnat a) (Qnat b) <-> a <= b.
Proof. unfold Qle, Qnat. simpl. lia. Qed.





Section NodeOrder.

Context {quicksort : NumpyArgsort}.

Lemma value_counts_sorted (col : list (option string)) :
  StronglySorted (fun a b => snd b <= snd a) (value_counts col).
Proof.
  unfold value_counts.
  eapply StronglySorted_weaken;
    [|apply (sort_values_by_desc_sorted
               (fun p : string * nat => Some (Qnat (snd p)))
               (fun p => Qnat (snd p)) (fun _ => eq_refl))].
  intros a b H. now apply Qnat_le.
Qed.


End NodeOrder.

(** * [compute_kpis]: when there is no usable timestamp *)

Lemma set_timestamp_same (r : Row) : set_timestamp r (timestamp r) = r.
Proof. now destruct r. Qed.

Section KpiFacts.

Context {quicksort : NumpyArgsort}.
Variable parse_datetime : string -> option Z.

Lemma to_datetime_idem (c : Cell) : to_datetime parse_datetime (to_datetime parse_datetime c) = to_datetime parse_datetime c.
Proof.
  destruct c as [| ns | raw]; simpl; try reflexivity.
  now destruct (parse_datetime raw).
Qed.

Lemma to_datetime_not_text (c : Cell) : is_text c = false -> to_datetime parse_datetime c = c.
Proof. now destruct c. Qed.

Lemma to_datetime_value (c : Cell) :
  to_datetime parse_datetime c <> Missing -> exists t, to_datetime parse_datetime c = Datetime t.
Proof.
  destruct c as [| ns | raw]; simpl.
  - intro H. now elim H.
  - intros _. now exists ns.
  - destruct (parse_datetime raw) as [t|]; intro H; [now exists t|now elim H].
Qed.

(** Lines 20-24 leave every row with its timestamp as a datetime. *)
Lemma kpi_frame_map (e : DataFrame) :
  kpi_frame parse_datetime e
  = map (fun r => set_timestamp r (to_datetime parse_datetime (timestamp r))) (rows e).
Proof.
  unfold kpi_frame.
  destruct (is_datetime64_any_dtype (map timestamp (rows e))) eqn:E; simpl.
  - rewrite <- (map_id (rows e)) at 1. apply map_ext_in. intros r Hr.
    unfold is_datetime64_any_dtype in E. rewrite forallb_forall in E.
    rewrite to_datetime_not_text; [now rewrite set_timestamp_same|].
    apply negb_true_iff, E. now apply in_map.
  - apply parse_column_map.
Qed.

Lemma kpi_frame_all_missing (e : DataFrame) :
  forallb isna (map timestamp (kpi_frame parse_datetime e)) = true
  <-> forall row, In row (rows e) -> to_datetime parse_datetime (timestamp row) = Missing.
Proof.
  rewrite kpi_frame_map, map_map. simpl. rewrite forallb_forall. split.
  - intros H row Hrow.
    specialize (H (to_datetime parse_datetime (timestamp row))
                  (in_map (fun r => to_datetime parse_datetime (timestamp r)) _ _ Hrow)).
    now destruct (to_datetime parse_datetime (timestamp row)).
  - intros H c Hc. apply in_map_iff in Hc. destruct Hc as [row [<- Hrow]].
    now rewrite (H row Hrow).
Qed.

(** [compute_kpis] answers "no timestamp" exactly when the table has no
    [timestamp] column or none of its values is a point in time. *)
Lemma compute_kpis_no_timestamp (e : DataFrame) :
  compute_kpis parse_datetime e = NoTimestamp
  <-> has_column "timestamp" e = false
      \/ forall row, In row (rows e) -> to_datetime parse_datetime (timestamp row) = Missing.
Proof.
  unfold compute_kpis.
  destruct (has_column "timestamp" e) eqn:Hts; simpl.
  2: { split; [now left|reflexivity]. }
  destruct (forallb isna (map timestamp (kpi_frame parse_datetime e))) eqn:Hna.
  - pose proof (proj1 (kpi_frame_all_missing e) Hna) as Hall.
    split; [now right|reflexivity].
  - split; [discriminate|]. intros [H|H]; [discriminate|].
    pose proof (proj2 (kpi_frame_all_missing e) H) as Hall. congruence.
Qed.

(** The rows of the sorted table are those of the input with their
    timestamps parsed. *)
Lemma sorted_events_row (df : DataFrame) (row : Row) :
  has_column "timestamp" df = true ->
  In row (rows (sorted_events parse_datetime df))
  <-> exists r, In r (rows df)
                /\ row = set_timestamp r (to_datetime parse_datetime (timestamp r)).
Proof.
  intro Hts.
  pose proof (sorted_events_Permutation parse_datetime df) as P.
  rewrite Hts, parse_column_map in P. split.
  - intro H. eapply Permutation_in in H; [|exact P].
    apply in_map_iff in H. destruct H as [r [<- Hr]]. now exists r.
  - intros [r [Hr ->]]. eapply Permutation_in; [symmetry; exact P|].
    apply in_map_iff. now exists r.
Qed.

End KpiFacts.

(** * [compute_kpis]: the cycle time *)

Lemma fold_left_min_spec (ts : list Z) (t : Z) :
  In (fold_left Z.min ts t) (t :: ts)
  /\ forall x, In x (t :: ts) -> (fold_left Z.min ts t <= x)%Z.
Proof.
  revert t. induction ts as [|a ts IH]; intro t; simpl.
  - split; [now left|]. intros x [<-|[]]. lia.
  - destruct (IH (Z.min t a)) as [Hin Hle]. split.
    + destruct Hin as [E|Hin]; [|now right; right].
      rewrite <- E. destruct (Z.min_spec t a) as [[_ ->]|[_ ->]]; auto.
    + intros x Hx.
      assert (Hm : (fold_left Z.min ts (Z.min t a) <= Z.min t a)%Z)
        by (apply Hle; now left).
      destruct Hx as [<-|[<-|Hx]]; [lia|lia|]. apply Hle. now right.
Qed.

Lemma fold_left_max_spec (ts : list Z) (t : Z) :
  In (fold_left Z.max ts t) (t :: ts)
  /\ forall x, In x (t :: ts) -> (x <= fold_left Z.max ts t)%Z.
Proof.
  revert t. induction ts as [|a ts IH]; intro t; simpl.
  - split; [now left|]. intros x [<-|[]]. lia.
  - destruct (IH (Z.max t a)) as [Hin Hle]. split.
    + destruct Hin as [E|Hin]; [|now right; right].
      rewrite <- E. destruct (Z.max_spec t a) as [[_ ->]|[_ ->]]; auto.
    + intros x Hx.
      assert (Hm : (Z.max t a <= fold_left Z.max ts (Z.max t a))%Z)
        by (apply Hle; now left).
      destruct Hx as [<-|[<-|Hx]]; [lia|lia|]. apply Hle. now right.
Qed.

Lemma timestamps_of_In (rs : list Row) (t : Z) :
  In t (timestamps_of rs) <-> exists r, In r rs /\ timestamp r = Datetime t.
Proof.
  unfold timestamps_of, present. rewrite in_flat_map, map_map. split.
  - intros [o [Ho Ht]]. apply in_map_iff in Ho. destruct Ho as [r [<- Hr]].
    exists r. split; [exact Hr|].
    destruct (timestamp r); simpl in Ht; try contradiction.
    destruct Ht as [->|[]]. reflexivity.
  - intros [r [Hr E]]. exists (Some t). split; [|now left].
    apply in_map_iff. exists r. now rewrite E.
Qed.

Lemma in_case_iff (k : Z) (r : Row) :
  in_case k r = true <-> case_id r = Some k.
Proof.
  unfold in_case. destruct (case_id r) as [c|]; [|split; discriminate].
  rewrite Z.eqb_eq. split; congruence.
Qed.

(** Lines 33-34: for each case with a usable timestamp, the earliest and the
    latest of its timestamps, in whatever order the rows come, and the hours
    from the one to the other. *)
Lemma cycle_table_spec (rs : list Row) (c : CycleRow) :
  all_datetime rs -> In c (cycle_table rs) -> cycle_row_ok rs c.
Proof.
  intros Hall Hc. unfold cycle_table in Hc. apply in_map_iff in Hc.
  destruct Hc as [[k g] [<- Hg]]. cbn [fst snd].
  pose proof (groupby_case_nonempty rs _ Hg) as Hne.
  unfold groupby_case in Hg. apply in_map_iff in Hg.
  destruct Hg as [k' [E Hk]]. inversion E; subst k' g. clear E.
  cbn [snd] in Hne.
  set (g := filter (in_case k) rs) in *.
  assert (Hg : forall r, In r g <-> In r rs /\ case_id r = Some k).
  { intro r. unfold g. now rewrite filter_In, in_case_iff. }
  unfold cycle_row_ok, cell_min, cell_max. fold (timestamps_of g).
  destruct (timestamps_of g) as [|t ts] eqn:Ets.
  { exfalso. destruct g as [|r g'] eqn:Eg; [simpl in Hne; lia|].
    assert (Hr : In r (r :: g')) by now left.
    destruct (Hall r) as [t Ht]; [now apply Hg|].
    assert (Hin : In t (timestamps_of (r :: g')))
      by (apply timestamps_of_In; now exists r).
    rewrite Ets in Hin. contradiction. }
  destruct (fold_left_min_spec ts t) as [Hlo_in Hlo].
  destruct (fold_left_max_spec ts t) as [Hhi_in Hhi].
  exists (fold_left Z.min ts t), (fold_left Z.max ts t).
  cbn [cycle_min cycle_max cycle_delta_hours cycle_case].
  rewrite <- Ets in Hlo_in, Hhi_in.
  apply timestamps_of_In in Hlo_in. apply timestamps_of_In in Hhi_in.
  destruct Hlo_in as [rlo [Hrlo Elo]]. destruct Hhi_in as [rhi [Hrhi Ehi]].
  apply Hg in Hrlo. apply Hg in Hrhi.
  repeat split; try reflexivity.
  - specialize (Hlo t (or_introl eq_refl)).
    specialize (Hhi t (or_introl eq_refl)). lia.
  - exists rlo. tauto.
  - exists rhi. tauto.
  - apply Hlo. rewrite <- Ets. apply timestamps_of_In. exists r.
    split; [now apply Hg|assumption].
  - apply Hhi. rewrite <- Ets. apply timestamps_of_In. exists r.
    split; [now apply Hg|assumption].
Qed.

Lemma cycle_table_length (rs : list Row) :
  List.length (cycle_table rs) = nunique (map case_id rs).
Proof. unfold cycle_table. now rewrite length_map, groupby_case_length. Qed.

Lemma nunique_positive (rs : list Row) :
  0 < nunique (map case_id rs) <-> exists r, In r rs /\ case_id r <> None.
Proof.
  rewrite <- case_keys_length. split.
  - intro H. destruct (case_keys rs) as [|k ks] eqn:E; [simpl in H; lia|].
    assert (Hk : In k (case_keys rs)) by (rewrite E; now left).
    apply case_keys_In in Hk. destruct Hk as [r [Hr Hc]].
    exists r. split; [exact Hr|congruence].
  - intros [r [Hr Hc]]. destruct (case_id r) as [k|] eqn:E; [|now elim Hc].
    assert (Hk : In k (case_keys rs)) by (apply case_keys_In; now exists r).
    destruct (case_keys rs); [contradiction|simpl; lia].
Qed.

Lemma float_values_all_fin (l : list Float) :
  l <> [] -> Forall (fun x => exists q, x = Fin q) l -> float_values l <> [].
Proof.
  intros Hne Hall. destruct Hall as [|x l [q ->] _]; [now elim Hne|].
  discriminate.
Qed.

Lemma aggregates_are_numbers (l : list Float) :
  float_values l <> [] ->
  exists a b c, mean l = Fin a /\ float_min l = Fin b /\ float_max l = Fin c.
Proof.
  intro H. unfold mean, float_min, float_max.
  destruct (float_values l); [now elim H|].
  do 3 eexists. repeat split; reflexivity.
Qed.

Section CycleFacts.

Context {quicksort : NumpyArgsort}.
Variable parse_datetime : string -> option Z.

(** Line 30 keeps the rows whose timestamp is a point in time. *)
Lemma usable_rows_spec (e : DataFrame) (r : Row) :
  In r (dropna_timestamp (kpi_frame parse_datetime e))
  <-> exists r0,
        In r0 (rows e)
        /\ r = set_timestamp r0 (to_datetime parse_datetime (timestamp r0))
        /\ to_datetime parse_datetime (timestamp r0) <> Missing.
Proof.
  unfold dropna_timestamp. rewrite filter_In, kpi_frame_map, in_map_iff.
  split.
  - intros [[r0 [<- Hr0]] Hna]. exists r0. repeat split; [exact Hr0|].
    simpl in Hna. intro E. rewrite E in Hna. discriminate.
  - intros [r0 [Hr0 [-> Hna]]]. split; [now exists r0|].
    simpl. unfold notna.
    destruct (to_datetime parse_datetime (timestamp r0));
      [now elim Hna|reflexivity|reflexivity].
Qed.

Lemma usable_rows_all_datetime (e : DataFrame) :
  all_datetime (dropna_timestamp (kpi_frame parse_datetime e)).
Proof.
  intros r Hr. apply usable_rows_spec in Hr. destruct Hr as [r0 [_ [-> Hna]]].
  simpl. now apply to_datetime_value.
Qed.

(** With a usable timestamp on a row that has a case id, the three fields of
    the cycle time are numbers. *)
Lemma compute_kpis_cycle_numbers (e : DataFrame) :
  has_column "timestamp" e = true ->
  (exists row, In row (rows e) /\ case_id row <> None
               /\ to_datetime parse_datetime (timestamp row) <> Missing) ->
  compute_kpis parse_datetime e <> NoTimestamp
  /\ cycle_time_numbers (compute_kpis parse_datetime e).
Proof.
  intros Hts [row [Hrow [Hcase Hna]]].
  unfold compute_kpis. rewrite Hts. cbn [negb].
  destruct (forallb isna (map timestamp (kpi_frame parse_datetime e))) eqn:E.
  { pose proof (proj1 (kpi_frame_all_missing parse_datetime e) E row Hrow).
    contradiction. }
  split; [discriminate|]. cbn [cycle_time_numbers].
  set (U := dropna_timestamp (kpi_frame parse_datetime e)).
  assert (Hpos : 0 < List.length (cycle_table U)).
  { rewrite cycle_table_length. apply nunique_positive.
    exists (set_timestamp row (to_datetime parse_datetime (timestamp row))).
    split; [|exact Hcase]. apply usable_rows_spec. now exists row. }
  apply Nat.ltb_lt in Hpos. rewrite Hpos.
  destruct (aggregates_are_numbers (map cycle_delta_hours (cycle_table U)))
    as [a [b [c [-> [-> ->]]]]].
  - apply float_values_all_fin.
    + apply Nat.ltb_lt in Hpos. destruct (cycle_table U); [simpl in Hpos; lia|].
      discriminate.
    + apply Forall_forall. intros x Hx. apply in_map_iff in Hx.
      destruct Hx as [cr [<- Hcr]].
      destruct (cycle_table_spec U cr (usable_rows_all_datetime e) Hcr)
        as [lo [hi [_ [_ [Hd _]]]]].
      eauto.
  - simpl. eauto.
Qed.

(** When no row with a usable timestamp has a case id, the three fields are
    null. *)
Lemma compute_kpis_cycle_null (e : DataFrame) :
  (forall row, In row (rows e) ->
               to_datetime parse_datetime (timestamp row) <> Missing ->
               case_id row = None) ->
  cycle_time_null (compute_kpis parse_datetime e).
Proof.
  intro H. unfold compute_kpis.
  destruct (negb (has_column "timestamp" e)); [exact I|].
  destruct (forallb isna (map timestamp (kpi_frame parse_datetime e)));
    [exact I|].
  cbn [cycle_time_null].
  set (U := dropna_timestamp (kpi_frame parse_datetime e)).
  assert (Hlen : List.length (cycle_table U) = 0).
  { destruct (List.length (cycle_table U)) eqn:E; [reflexivity|]. exfalso.
    assert (Hpos : 0 < nunique (map case_id U))
      by (rewrite <- cycle_table_length; lia).
    apply nunique_positive in Hpos. destruct Hpos as [r [Hr Hc]].
    apply usable_rows_spec in Hr. destruct Hr as [r0 [Hr0 [-> Hna]]].
    apply Hc. simpl. now apply H. }
  now rewrite Hlen.
Qed.

End CycleFacts.

(** * [compute_kpis]: the gaps between events *)

Lemma Forall2_combine_In {A B : Type} (R : A -> B -> Prop) (l1 : list A)
      (l2 : list B) (a : A) (b : B) :
  Forall2 R l1 l2 -> In (a, b) (combine l1 l2) -> R a b.
Proof.
  induction 1 as [|x y l1 l2 Hxy Hl IH]; simpl; [contradiction|].
  intros [E|H]; [now inversion E; subst|now apply IH].
Qed.

Lemma shift_next_spec (rs : list Row) :
  StronglySorted (fun a b => case_time_leb a b = true) rs ->
  Forall2 (next_of rs) rs (shift_next timestamp Missing rs).
Proof.
  induction 1 as [|r rest Hs IH Hr]; simpl; constructor.
  - destruct (case_id r) as [k|] eqn:Ek; [|now left].
    destruct (find (in_case k) rest) as [r'|] eqn:Ef; [|now left].
    apply find_some in Ef. destruct Ef as [Hin Hk]. right. exists r'.
    apply in_case_iff in Hk. rewrite Forall_forall in Hr.
    repeat split; [now right|congruence|now apply Hr].
  - eapply Forall2_impl; [|exact IH]. intros a nt [->|[r' [Hin H']]];
      [now left|right]. exists r'. split; [now right|exact H'].
Qed.

Lemma case_time_leb_same_case (r r' : Row) (t tn : Z) :
  case_id r' = case_id r -> timestamp r = Datetime t ->
  timestamp r' = Datetime tn -> case_time_leb r r' = true -> (t <= tn)%Z.
Proof.
  intros Ec Et Etn. unfold case_time_leb.
  rewrite Ec, key_compare_refl, Et, Etn. simpl.
  destruct (Z.compare_spec t tn); intro Hgt; try lia.
Qed.

Lemma with_gaps_shape (df : list Row) (r : Row) :
  all_datetime df -> In r (with_gaps df) -> gap_shape r.
Proof.
  intros Hall Hr. unfold with_gaps, assign in Hr.
  set (S := lexsort case_time_leb df) in *.
  assert (HS : forall x, In x S -> exists t, timestamp x = Datetime t).
  { intros x Hx. apply Hall.
    eapply Permutation_in; [apply lexsort_Permutation|exact Hx]. }
  apply in_map_iff in Hr. destruct Hr as [r2 [<- Hr2]].
  apply in_map_iff in Hr2. destruct Hr2 as [[r1 s] [<- Hr1]].
  apply in_combine_l in Hr1.
  apply in_map_iff in Hr1. destruct Hr1 as [[r0 nt] [<- Hr0]].
  cbn [fst snd]. unfold gap_shape. simpl.
  pose proof (Forall2_combine_In _ _ _ _ _
                (shift_next_spec S (lexsort_case_time_sorted df)) Hr0) as Hn.
  apply in_combine_l in Hr0. destruct (HS r0 Hr0) as [t Et].
  exists t. split; [exact Et|].
  destruct Hn as [->|[r' [Hin [Ec [-> Hle]]]]].
  - left. split; [reflexivity|]. unfold hours_between. rewrite Et. reflexivity.
  - right. destruct (HS r' Hin) as [tn Etn]. exists tn.
    split; [exact Etn|]. split.
    + eapply case_time_leb_same_case; eassumption.
    + unfold hours_between. now rewrite Et, Etn.
Qed.

Lemma hours_of_ns_nonneg (z : Z) : (0 <= z)%Z -> Qle 0 (hours_of_ns z).
Proof.
  intro H. unfold hours_of_ns. rewrite Qred_correct.
  unfold Qle, Qdiv, Qmult, Qinv, ns_per_hour. simpl. lia.
Qed.


(** * The order of the sorted log *)

Lemma case_is_tie_class (k : Z) : tie_class (case_is k).
Proof.
  intros a b Ha Hb. unfold case_is in *.
  apply Qeq_bool_iff in Ha. apply Qeq_bool_iff in Hb.
  rewrite Ha, Hb. reflexivity.
Qed.

Lemma case_is_in_case (k : Z) (r : Row) :
  case_id r <> None -> case_is k (case_number r) = in_case k r.
Proof.
  unfold case_is, case_number, in_case.
  destruct (case_id r) as [c|]; [intros _|intro H; now elim H].
  destruct (Z.eqb_spec c k) as [->|Hne].
  - apply Qeq_bool_iff. reflexivity.
  - destruct (Qeq_bool (Qmake c 1) (Qmake k 1)) eqn:E; [|reflexivity].
    apply Qeq_bool_iff in E. unfold Qeq in E. simpl in E. lia.
Qed.

Section LogOrder.

Context {quicksort : NumpyArgsort}.
Variable parse_datetime : string -> option Z.

(** With a [timestamp] column the sorted log is the stable sort of the
    parsed rows by [(case_id, timestamp)]. *)
Lemma sorted_events_with_timestamps (df : DataFrame) :
  has_column "timestamp" df = true ->
  rows (sorted_events parse_datetime df)
  = lexsort case_time_leb (parse_column parse_datetime (rows df)).
Proof.
  intro Hts. unfold sorted_events. now rewrite Hts, has_column_rows, Hts.
Qed.

(** Without it, the default sort on [case_id]. *)
Lemma sorted_events_without_timestamps (df : DataFrame) :
  has_column "timestamp" df = false ->
  rows (sorted_events parse_datetime df)
  = sort_values_by case_key true (rows df).
Proof.
  intro Hts. unfold sorted_events. rewrite Hts. cbv iota. now rewrite Hts.
Qed.

(** The rows with one [(case_id, timestamp)], and so the rows of one case
    with equal or with missing timestamps, keep their order. *)
Lemma sorted_events_keeps_ties (df : DataFrame) (r0 : Row) :
  has_column "timestamp" df = true ->
  let tied := fun r => case_time_leb r r0 && case_time_leb r0 r in
  filter tied (rows (sorted_events parse_datetime df))
  = filter tied (parse_column parse_datetime (rows df)).
Proof.
  intros Hts tied. rewrite (sorted_events_with_timestamps df Hts).
  apply lexsort_stable. intros x y Hx Hy. unfold tied in *.
  apply andb_true_iff in Hx. apply andb_true_iff in Hy.
  eapply case_time_leb_trans; [apply Hx|apply Hy].
Qed.

(** When no value of the column parses, every case keeps the order of its
    rows. *)
Lemma sorted_events_no_valid_timestamp (df : DataFrame) (k : Z) :
  has_column "timestamp" df = true ->
  (forall row, In row (rows df) ->
               to_datetime parse_datetime (timestamp row) = Missing) ->
  filter (in_case k) (rows (sorted_events parse_datetime df))
  = filter (in_case k) (parse_column parse_datetime (rows df)).
Proof.
  intros Hts Hna. rewrite (sorted_events_with_timestamps df Hts).
  set (l := parse_column parse_datetime (rows df)).
  assert (Hl : forall r, In r l -> timestamp r = Missing).
  { intros r Hr. unfold l in Hr. rewrite parse_column_map in Hr.
    apply in_map_iff in Hr. destruct Hr as [r0 [<- Hr0]]. simpl.
    now apply Hna. }
  set (p := fun r => in_case k r && isna (timestamp r)).
  assert (E : forall l', (forall r, In r l' -> In r l) ->
                         filter (in_case k) l' = filter p l').
  { intros l' H. apply filter_ext_in. intros r Hr. unfold p.
    rewrite (Hl r (H r Hr)). simpl. now rewrite andb_true_r. }
  rewrite (E l) by auto. rewrite E.
  - apply lexsort_stable. intros x y Hx Hy. unfold p in *.
    apply andb_true_iff in Hx. apply andb_true_iff in Hy.
    destruct Hx as [Cx Tx], Hy as [Cy Ty].
    apply in_case_iff in Cx. apply in_case_iff in Cy.
    unfold case_time_leb. rewrite Cx, Cy, key_compare_refl.
    destruct (timestamp x), (timestamp y); try discriminate. reflexivity.
  - intros r Hr. eapply Permutation_in; [apply lexsort_Permutation|exact Hr].
Qed.

(** Without a [timestamp] column the order within a case is that of the
    table when the library's sort keeps ties in place. *)
Lemma sorted_events_case_order_if_stable (df : DataFrame) (k : Z) :
  keeps_ties quicksort ->
  has_column "timestamp" df = false ->
  (forall row, In row (rows df) -> case_id row <> None) ->
  filter (in_case k) (rows (sorted_events parse_datetime df))
  = filter (in_case k) (rows df).
Proof.
  intros Hst Hts Hcase. rewrite (sorted_events_without_timestamps df Hts).
  set (l := rows df).
  assert (Hkey : map case_key l = map (fun r => Some (case_number r)) l).
  { apply map_ext_in. intros r Hr. unfold case_key, case_number.
    specialize (Hcase r Hr). now destruct (case_id r). }
  assert (Hsort : sort_values_by case_key true l
                  = take l (argsort (map case_number l))).
  { unfold sort_values_by. rewrite Hkey.
    apply (sort_values_by_asc (fun r => Some (case_number r)) case_number
                              (fun _ => eq_refl)). }
  rewrite Hsort.
  assert (E : forall l', (forall r, In r l' -> In r l) ->
                         filter (in_case k) l'
                         = filter (fun r => case_is k (case_number r)) l').
  { intros l' H. apply filter_ext_in. intros r Hr. symmetry.
    apply case_is_in_case. apply Hcase. now apply H. }
  rewrite (E l) by auto. rewrite E.
  - apply (sort_asc_keeps_ties case_number Hst). apply case_is_tie_class.
  - intros r Hr. eapply Permutation_in; [|exact Hr].
    apply take_all_Permutation. rewrite <- (length_map case_number).
    apply argsort_perm.
Qed.

End LogOrder.

(** ** Two tables with one sorted log *)

Section InputOrder.

Context {quicksort : NumpyArgsort}.
Variable parse_datetime : string -> option Z.

Lemma argsort_two (a b : Q) :
  argsort [a; b] = [0; 1] \/ argsort [a; b] = [1; 0].
Proof.
  apply Permutation_length_2_inv. symmetry. apply (argsort_perm [a; b]).
Qed.

Lemma argsort_two_descending (a b : Q) : Qlt b a -> argsort [a; b] = [1; 0].
Proof.
  intro Hlt. destruct (argsort_two a b) as [E|E]; [|exact E]. exfalso.
  pose proof (argsort_sorted [a; b]) as S. rewrite E in S.
  unfold take in S. simpl in S.
  inversion S as [|? ? _ Hd]; subst. inversion Hd as [|? ? Hle]; subst.
  apply (Qlt_not_le _ _ Hlt Hle).
Qed.

Lemma argsort_two_ascending (a b : Q) : Qlt a b -> argsort [a; b] = [0; 1].
Proof.
  intro Hlt. destruct (argsort_two a b) as [E|E]; [exact E|]. exfalso.
  pose proof (argsort_sorted [a; b]) as S. rewrite E in S.
  unfold take in S. simpl in S.
  inversion S as [|? ? _ Hd]; subst. inversion Hd as [|? ? Hle]; subst.
  apply (Qlt_not_le _ _ Hlt Hle).
Qed.

(** Whatever the library's sort does with ties, the two tables have the same
    sorted log, and so the same analysis: the order of the nodes cannot
    depend on which label the input shows first. *)
Lemma sorted_log_of_two_cases :
  sorted_events parse_datetime two_cases
  = sorted_events parse_datetime two_cases_in_order.
Proof.
  assert (E : forall df, has_column "timestamp" df = false ->
                         sorted_events parse_datetime df
                         = mkDataFrame (columns df)
                                       (sort_values_by case_key true (rows df))).
  { intros df Hts. unfold sorted_events. rewrite Hts. cbv iota.
    now rewrite Hts. }
  rewrite (E two_cases), (E two_cases_in_order) by reflexivity.
  f_equal. unfold sort_values_by, nargsort, two_cases, two_cases_in_order.
  cbn [rows map case_key case_id event option_map List.length seq combine
       non_nan_entries nan_positions flat_map fst snd app].
  rewrite (argsort_two_descending (Qmake 2 1) (Qmake 1 1)) by reflexivity.
  rewrite (argsort_two_ascending (Qmake 1 1) (Qmake 2 1)) by reflexivity.
  reflexivity.
Qed.

Lemma analysis_of_two_cases :
  analyze_dataframe parse_datetime two_cases
  = analyze_dataframe parse_datetime two_cases_in_order.
Proof.
  rewrite (analyze_dataframe_returns parse_datetime two_cases)
    by (split; reflexivity).
  rewrite (analyze_dataframe_returns parse_datetime two_cases_in_order)
    by (split; reflexivity).
  now rewrite sorted_log_of_two_cases.
Qed.

End InputOrder.

Lemma first_seen_of_two_cases :
  first_seen (present (map step (rows two_cases)))
  <> first_seen (present (map step (rows two_cases_in_order))).
Proof. discriminate. Qed.

(** * The claims *)




Section Claims.

Context {quicksort : NumpyArgsort}.
Variable parse_datetime : string -> option Z.

(** C1 -- A table that lacks the [case_id] column or the [step] column makes
    [analyze_dataframe] fail with the schema error (the [ValueError] of the
    source), and no part of a result comes back: the outcome is the error
    alone, not a result with stats, graph or kpi. *)
Theorem C1_missing_column_raises (df : DataFrame) :
  has_column "case_id" df = false \/ has_column "step" df = false ->
  analyze_dataframe parse_datetime df = inl (ValueError schema_message)
  /\ forall r, analyze_dataframe parse_datetime df <> inr r.
Proof.
  intro H.
  assert (E : issubset ["case_id"; "step"] df = false).
  { unfold issubset. simpl. destruct H as [-> | ->]; [reflexivity|].
    apply andb_false_r. }
  unfold analyze_dataframe. rewrite E. simpl. split; [reflexivity|discriminate].
Qed.

(** C4 -- For a table with both required columns and no missing [step]
    value, the analysis returns and the counts of its nodes add up to
    [num_events]. *)
Theorem C4_node_counts_sum_to_num_events (df : DataFrame) :
  required_columns df ->
  (forall row, In row (rows df) -> step row <> None) ->
  exists r,
    analyze_dataframe parse_datetime df = inr r
    /\ list_sum (map node_count (nodes (graph r))) = num_events (stats r).
Proof.
  intros Hreq Hstep. rewrite (analyze_dataframe_returns _ _ Hreq).
  eexists. split; [reflexivity|]. cbn [graph nodes stats num_events].
  rewrite map_map.
  change (total_count (value_counts
                         (map step (rows (sorted_events parse_datetime df))))
          = List.length (rows (sorted_events parse_datetime df))).
  rewrite value_counts_total, present_length; [apply length_map|].
  apply Forall_forall. intros o Ho.
  eapply Permutation_in in Ho;
    [|apply (sorted_events_column parse_datetime step df); reflexivity].
  apply in_map_iff in Ho. destruct Ho as [row [<- Hrow]]. now apply Hstep.
Qed.

(** C9 -- For a table with both required columns and no missing [case_id]
    value, the analysis returns and the counts of its edges add up to
    [num_events] minus [num_cases].  (Missing [step] values do not matter
    here: a transition to or from a missing step is counted like any
    other.) *)
Theorem C9_edge_counts_sum_to_events_minus_cases (df : DataFrame) :
  required_columns df ->
  (forall row, In row (rows df) -> case_id row <> None) ->
  exists r,
    analyze_dataframe parse_datetime df = inr r
    /\ list_sum (map edge_count (edges (graph r))) + num_cases (stats r)
       = num_events (stats r)
    /\ list_sum (map edge_count (edges (graph r)))
       = num_events (stats r) - num_cases (stats r).
Proof.
  intros Hreq Hcase. rewrite (analyze_dataframe_returns _ _ Hreq).
  eexists. split; [reflexivity|].
  cbn [graph edges stats num_events num_cases].
  rewrite map_map.
  set (rs := rows (sorted_events parse_datetime df)).
  change (total_count (edge_counter rs) + nunique (map case_id rs)
          = List.length rs
          /\ total_count (edge_counter rs)
             = List.length rs - nunique (map case_id rs)).
  assert (Hall : List.length (filter has_case rs) = List.length rs).
  { assert (F : forall r, In r rs -> has_case r = true).
    { intros r Hr. unfold has_case.
      destruct (case_id r) eqn:E; [reflexivity|]. exfalso.
      assert (Hin : In None (map case_id rs))
        by (rewrite <- E; now apply in_map).
      eapply Permutation_in in Hin;
        [|apply (sorted_events_column parse_datetime case_id df); reflexivity].
      apply in_map_iff in Hin. destruct Hin as [row [Hn Hrow]].
      now apply (Hcase row). }
    clear -F. induction rs as [|r rs IH]; [reflexivity|].
    simpl. rewrite F by now left. simpl. f_equal. apply IH.
    intros r0 H0. apply F. now right. }
  pose proof (edge_counter_total rs) as T. rewrite Hall in T. lia.
Qed.

(** C8 -- [analyze_dataframe] does not change the caller's table: whatever
    the store holds before the call, and so the table passed in with its
    columns, rows and values, is in the store after the call, where it was
    and as it was; the call has only added tables of its own (the copies it
    works on).  The value returned is that of the function on the content of
    the table. *)
Theorem C8_input_table_not_mutated (h : Heap) (df : Ref) :
  (exists created,
      snd (analyze_dataframe_st parse_datetime df h) = h ++ created)
  /\ fst (analyze_dataframe_st parse_datetime df h)
     = analyze_dataframe parse_datetime (nth df h empty_frame).
Proof.
  destruct (analyze_dataframe_st_spec parse_datetime h df) as [h' [E X]].
  rewrite E. simpl. split; [exact X|reflexivity].
Qed.

(** C7 -- In the transition count every case of the normalized log adds to
    the edge counts one observation per pair of consecutive events: with [k]
    events it adds at most [k - 1] (exactly [k - 1], and no case is empty); a
    case of one event adds none, and leaves the counter as it is, while its
    event is still counted in the node of its step: that node is in the
    graph, with one more than the events of that step in the other cases.
    The counts of the edges add up to the observations of all cases. *)
Theorem C7_case_adds_at_most_k_minus_1_edges (df : DataFrame) :
  required_columns df ->
  exists r,
    analyze_dataframe parse_datetime df = inr r
    /\ list_sum (map edge_count (edges (graph r)))
       = list_sum (map (fun g => List.length (consecutive (map step (snd g))))
                       (groupby_case (rows (sorted_events parse_datetime df))))
    /\ forall k group,
         In (k, group)
            (groupby_case (rows (sorted_events parse_datetime df))) ->
         1 <= List.length group
         /\ List.length (consecutive (map step group)) <= List.length group - 1
         /\ (forall counter,
                total_count (count_case_edges counter group)
                = total_count counter
                  + List.length (consecutive (map step group)))
         /\ (List.length group = 1 ->
             consecutive (map step group) = []
             /\ (forall counter, count_case_edges counter group = counter)
             /\ forall s,
                  map step group = [Some s] ->
                  In (mkNode s
                        (1 + occurrences s
                               (present
                                  (map step
                                     (filter (fun row => negb (in_case k row))
                                             (rows (sorted_events
                                                      parse_datetime df)))))))
                     (nodes (graph r))).
Proof.
  intro Hreq. rewrite (analyze_dataframe_returns _ _ Hreq).
  eexists. split; [reflexivity|]. cbn [graph edges nodes].
  set (events := rows (sorted_events parse_datetime df)). split.
  - rewrite map_map.
    change (total_count (edge_counter events)
            = list_sum (map (fun g => List.length (consecutive (map step (snd g))))
                            (groupby_case events))).
    unfold edge_counter. rewrite edge_fold_total. simpl. f_equal.
    apply map_ext. intro g. now rewrite consecutive_length, length_map.
  - intros k group Hg.
    pose proof (groupby_case_nonempty events _ Hg) as Hne. cbn [snd] in Hne.
    split; [exact Hne|]. split; [rewrite consecutive_length, length_map; lia|].
    split.
    { intro counter.
      now rewrite count_case_edges_total, consecutive_length, length_map. }
    intro Hone.
    destruct group as [|r0 [|r1 group]]; simpl in Hone; try lia.
    split; [reflexivity|]. split; [reflexivity|].
    intros s Hs. simpl in Hs. inversion Hs as [Es]. clear Hs.
    apply in_map_iff.
    exists (s, occurrences s (present (map step events))). split.
    + cbn [fst snd]. f_equal.
      rewrite (occurrences_split s (in_case k) events).
      unfold groupby_case in Hg. apply in_map_iff in Hg.
      destruct Hg as [k' [E _]]. inversion E as [[Ek Eg]]. subst k'.
      rewrite Eg. simpl. rewrite Es. unfold occurrences at 1. simpl.
      now rewrite String.eqb_refl.
    + apply value_counts_entry.
      unfold groupby_case in Hg. apply in_map_iff in Hg.
      destruct Hg as [k' [E _]]. inversion E as [[Ek Eg]]. subst k'.
      assert (Hr0 : In r0 events).
      { assert (H0 : In r0 (filter (in_case k) events))
          by (rewrite Eg; now left).
        now apply filter_In in H0. }
      unfold present. apply in_flat_map. exists (Some s).
      split; [|now left]. rewrite <- Es. now apply in_map.
Qed.



(** C10, as the code has it -- When the table has a [timestamp] column and
    some row with a usable timestamp carries a case id, the KPI part has
    [has_timestamp: true] and the three fields of the cycle time are
    numbers.  (Without such a row the grouping by case is empty and the
    fallback of lines 40-41 is taken: [cycle_time_null_without_case].) *)
Theorem C10_cycle_time_numbers_need_a_case (df : DataFrame) :
  required_columns df ->
  has_column "timestamp" df = true ->
  (exists row,
      In row (rows df) /\ case_id row <> None
      /\ to_datetime parse_datetime (timestamp row) <> Missing) ->
  exists r,
    analyze_dataframe parse_datetime df = inr r
    /\ kpi r <> NoTimestamp
    /\ cycle_time_numbers (kpi r).
Proof.
  intros Hreq Hts [row [Hrow [Hcase Hna]]].
  rewrite (analyze_dataframe_returns _ _ Hreq).
  eexists. split; [reflexivity|]. cbn [kpi].
  apply compute_kpis_cycle_numbers.
  - unfold has_column. now rewrite sorted_events_columns.
  - exists (set_timestamp row (to_datetime parse_datetime (timestamp row))).
    split; [apply sorted_events_row; [exact Hts|now exists row]|].
    split; [exact Hcase|]. simpl. now rewrite to_datetime_idem.
Qed.

Lemma cycle_time_null_without_case (df : DataFrame) :
  required_columns df ->
  has_column "timestamp" df = true ->
  (forall row, In row (rows df) ->
               to_datetime parse_datetime (timestamp row) <> Missing ->
               case_id row = None) ->
  exists r,
    analyze_dataframe parse_datetime df = inr r /\ cycle_time_null (kpi r).
Proof.
  intros Hreq Hts H. rewrite (analyze_dataframe_returns _ _ Hreq).
  eexists. split; [reflexivity|]. cbn [kpi].
  apply compute_kpis_cycle_null. intros row Hrow Hna.
  apply sorted_events_row in Hrow; [|exact Hts].
  destruct Hrow as [r0 [Hr0 ->]]. simpl in *.
  rewrite to_datetime_idem in Hna. now apply H.
Qed.


End Claims.

(** ** The claims at the examples *)

Lemma C1_witness :
  analyze_dataframe (quicksort := stable_quicksort) parse_epoch
                    table_without_step
  = inl (ValueError schema_message)
  /\ forall r, analyze_dataframe (quicksort := stable_quicksort) parse_epoch
                                 table_without_step <> inr r.
Proof.
  apply (C1_missing_column_raises (quicksort := stable_quicksort)).
  right. reflexivity.
Defined.

Lemma scenario_required : required_columns scenario.
Proof. split; reflexivity. Qed.

Lemma C4_witness :
  exists r,
    analyze_dataframe (quicksort := stable_quicksort) parse_epoch scenario
    = inr r
    /\ list_sum (map node_count (nodes (graph r))) = num_events (stats r).
Proof.
  apply (C4_node_counts_sum_to_num_events (quicksort := stable_quicksort)).
  - exact scenario_required.
  - intros row Hrow. simpl in Hrow.
    repeat (destruct Hrow as [<- | Hrow]; [discriminate|]). contradiction.
Defined.

Lemma C9_witness :
  exists r,
    analyze_dataframe (quicksort := stable_quicksort) parse_epoch scenario
    = inr r
    /\ list_sum (map edge_count (edges (graph r))) + num_cases (stats r)
       = num_events (stats r)
    /\ list_sum (map edge_count (edges (graph r)))
       = num_events (stats r) - num_cases (stats r).
Proof.
  apply (C9_edge_counts_sum_to_events_minus_cases
           (quicksort := stable_quicksort)).
  - exact scenario_required.
  - intros row Hrow. simpl in Hrow.
    repeat (destruct Hrow as [<- | Hrow]; [discriminate|]). contradiction.
Defined.

(** C10, as stated, fails: on a table whose only usable timestamp belongs to
    a row without case id the KPI part has [has_timestamp: true] and the
    three fields of the cycle time are null. *)
Lemma C10_counterexample :
  required_columns orphan_event
  /\ exists r,
       analyze_dataframe (quicksort := stable_quicksort) parse_epoch
                         orphan_event = inr r
       /\ kpi r <> NoTimestamp
       /\ ~ cycle_time_numbers (kpi r).
Proof.
  split; [split; reflexivity|].
  eexists. split; [vm_compute; reflexivity|]. split; [discriminate|].
  intros [a [b [c H]]]. discriminate.
Qed.

Lemma C10_witness :
  exists r,
    analyze_dataframe (quicksort := stable_quicksort) parse_epoch scenario
    = inr r
    /\ kpi r <> NoTimestamp
    /\ cycle_time_numbers (kpi r).
Proof.
  apply (C10_cycle_time_numbers_need_a_case (quicksort := stable_quicksort)).
  - exact scenario_required.
  - reflexivity.
  - exists (event (Some 1%Z) (Some "review") (Datetime (2 * hour))).
    split; [right; now left|]. split; discriminate.
Defined.






Lemma C7_witness :
  exists r,
    analyze_dataframe (quicksort := stable_quicksort) parse_epoch two_cases
    = inr r
    /\ In (mkNode "A"
              (1 + occurrences
                     "A"
                     (present
                        (map step
                             (filter (fun row => negb (in_case 1 row))
                                     (rows (sorted_events
                                              (quicksort := stable_quicksort)
                                              parse_epoch two_cases)))))))
          (nodes (graph r)).
Proof.
  destruct (C7_case_adds_at_most_k_minus_1_edges
              (quicksort := stable_quicksort) parse_epoch two_cases
              (conj eq_refl eq_refl)) as [r [E [_ H]]].
  exists r. split; [exact E|].
  destruct (H 1%Z [event (Some 1%Z) (Some "A") Missing])
    as [_ [_ [_ Hone]]].
  - vm_compute. left. reflexivity.
  - destruct (Hone eq_refl) as [_ [_ Hnode]]. apply Hnode. reflexivity.
Defined.


(** * More on [analyze_dataframe]: what the statistics and the graph say
      about the table *)

Lemma filter_Permutation {A : Type} (f : A -> bool) (l l' : list A) :
  Permutation l l' -> Permutation (filter f l) (filter f l').
Proof.
  induction 1 as [|x l l' _ IH|x y l|l l' l'' _ IH1 _ IH2]; simpl.
  - constructor.
  - destruct (f x); [now constructor|exact IH].
  - destruct (f x), (f y); try reflexivity. apply perm_swap.
  - now transitivity (filter f l').
Qed.

Lemma occurrences_Permutation (s : string) (l l' : list string) :
  Permutation l l' -> occurrences s l = occurrences s l'.
Proof.
  intro H. unfold occurrences. apply Permutation_length.
  now apply filter_Permutation.
Qed.

Lemma nodup_length_Permutation {A : Type} (dec : forall x y : A, {x = y} + {x <> y})
      (l l' : list A) :
  (forall x, In x l <-> In x l') ->
  List.length (nodup dec l) = List.length (nodup dec l').
Proof.
  intro H. apply Permutation_length, NoDup_Permutation;
    try apply NoDup_nodup.
  intro x. now rewrite !nodup_In.
Qed.

Lemma nunique_Permutation (l l' : list (option Z)) :
  Permutation l l' -> nunique l = nunique l'.
Proof.
  intro H. unfold nunique. apply nodup_length_Permutation. intro x.
  pose proof (present_Permutation _ _ H) as P. split; intro Hx.
  - eapply Permutation_in; [exact P|exact Hx].
  - eapply Permutation_in; [symmetry; exact P|exact Hx].
Qed.

Lemma first_seen_NoDup (l : list string) : NoDup (first_seen l).
Proof. rewrite <- count_all_keys. apply count_all_NoDup. Qed.

Lemma present_In {A : Type} (x : A) (l : list (option A)) :
  In x (present l) <-> In (Some x) l.
Proof.
  unfold present. rewrite in_flat_map. split.
  - intros [[y|] [Hy Hx]]; simpl in Hx; [|contradiction].
    destruct Hx as [->|[]]. exact Hy.
  - intro H. exists (Some x). split; [exact H|now left].
Qed.

Section TableFacts.

Context {quicksort : NumpyArgsort}.
Variable parse_datetime : string -> option Z.

Lemma sorted_steps_Permutation (df : DataFrame) :
  Permutation (present (map step (rows (sorted_events parse_datetime df))))
              (present (map step (rows df))).
Proof.
  apply present_Permutation, sorted_events_column. reflexivity.
Qed.

(** X1 -- The four statistics count the table as it was given, whatever the
    sort does: [num_events] is the number of its rows (none is dropped, be
    its values missing), [num_cases] the number of distinct case ids that
    are not missing, [num_steps] the number of distinct steps that are not
    missing, and [num_steps] and [num_transitions] are the numbers of nodes
    and of edges of the graph. *)
Theorem stats_count_the_table (df : DataFrame) :
  required_columns df ->
  exists r,
    analyze_dataframe parse_datetime df = inr r
    /\ num_events (stats r) = List.length (rows df)
    /\ num_cases (stats r) = nunique (map case_id (rows df))
    /\ num_steps (stats r)
       = List.length (nodup string_dec (present (map step (rows df))))
    /\ num_steps (stats r) = List.length (nodes (graph r))
    /\ num_transitions (stats r) = List.length (edges (graph r)).
Proof.
  intro Hreq. rewrite (analyze_dataframe_returns _ _ Hreq).
  eexists. split; [reflexivity|].
  cbn [stats graph nodes edges num_events num_cases num_steps num_transitions].
  split; [apply sorted_events_length|].
  split; [apply nunique_Permutation, sorted_events_column; reflexivity|].
  split; [|split; [now rewrite length_map|reflexivity]].
  set (col := map step (rows (sorted_events parse_datetime df))).
  rewrite (Permutation_length (value_counts_Permutation col)).
  rewrite <- (length_map fst), count_all_keys.
  transitivity (List.length (nodup string_dec (present col))).
  - apply Permutation_length, NoDup_Permutation;
      [apply first_seen_NoDup|apply NoDup_nodup|].
    intro s. now rewrite first_seen_In, nodup_In.
  - apply nodup_length_Permutation. intro s.
    pose proof (sorted_steps_Permutation df) as P. fold col in P.
    split; intro Hs.
    + eapply Permutation_in; [exact P|exact Hs].
    + eapply Permutation_in; [symmetry; exact P|exact Hs].
Qed.

(** X2 -- The nodes are the steps of the table with their frequencies: no
    step has two nodes, a step has a node exactly when some row of the table
    carries it, and the count of a node is the number of rows of the table
    with that step, at least one. *)
Theorem nodes_are_the_steps_with_their_frequencies (df : DataFrame) :
  required_columns df ->
  exists r,
    analyze_dataframe parse_datetime df = inr r
    /\ NoDup (map node_id (nodes (graph r)))
    /\ (forall s, In s (map node_id (nodes (graph r)))
                  <-> exists row, In row (rows df) /\ step row = Some s)
    /\ (forall n, In n (nodes (graph r)) ->
                  node_count n
                  = occurrences (node_id n) (present (map step (rows df)))
                  /\ 1 <= node_count n).
Proof.
  intro Hreq. rewrite (analyze_dataframe_returns _ _ Hreq).
  eexists. split; [reflexivity|]. cbn [graph nodes].
  set (col := map step (rows (sorted_events parse_datetime df))).
  pose proof (sorted_steps_Permutation df) as P. fold col in P.
  assert (Hin : forall s, In s (present col)
                          <-> exists row, In row (rows df) /\ step row = Some s).
  { intro s. split.
    - intro H. eapply Permutation_in in H; [|exact P].
      apply present_In, in_map_iff in H. destruct H as [row [E Hrow]].
      now exists row.
    - intros [row [Hrow E]]. eapply Permutation_in; [symmetry; exact P|].
      apply present_In. rewrite <- E. now apply in_map. }
  rewrite map_map. cbn [node_id].
  change (map (fun x : string * nat => fst x) (value_counts col))
    with (map fst (value_counts col)).
  split; [|split].
  - eapply Permutation_NoDup;
      [symmetry; apply Permutation_map, value_counts_Permutation|].
    apply count_all_NoDup.
  - intro s. rewrite <- Hin. split.
    + intro H. apply in_map_iff in H. destruct H as [[s' n] [E H]].
      simpl in E. subst s'. now apply value_counts_In in H.
    + intro H. apply in_map_iff.
      exists (s, occurrences s (present col)). split; [reflexivity|].
      now apply value_counts_entry.
  - intros n Hn. apply in_map_iff in Hn. destruct Hn as [[s c] [<- Hp]].
    cbn [node_id node_count fst snd].
    apply value_counts_In in Hp. destruct Hp as [-> Hs].
    rewrite (occurrences_Permutation s _ _ P). split; [reflexivity|].
    eapply Permutation_in in Hs; [|exact P].
    unfold occurrences.
    assert (Hf : In s (filter (String.eqb s) (present (map step (rows df)))))
      by (apply filter_In; split; [exact Hs|apply String.eqb_refl]).
    destruct (filter (String.eqb s) (present (map step (rows df))));
      [contradiction|simpl; lia].
Qed.

End TableFacts.

(** ** A table of counts, for any kind of key *)

Section CountTable.

Context {K : Type}.
Variable eqb : K -> K -> bool.
Hypothesis eqb_eq : forall a b, eqb a b = true <-> a = b.

Lemma eqb_same (a : K) : eqb a a = true.
Proof. now apply eqb_eq. Qed.

Lemma eqb_swap (a b : K) : eqb a b = eqb b a.
Proof.
  destruct (eqb a b) eqn:E1, (eqb b a) eqn:E2; try reflexivity.
  - apply eqb_eq in E1. subst. rewrite eqb_same in E2. discriminate.
  - apply eqb_eq in E2. subst. rewrite eqb_same in E1. discriminate.
Qed.

Lemma lookup_count_add (k x : K) (c : list (K * nat)) :
  lookup_count eqb k (count_add eqb x c)
  = (if eqb k x then 1 else 0) + lookup_count eqb k c.
Proof.
  unfold lookup_count. induction c as [|[k' n] c IH]; simpl.
  - rewrite (eqb_swap x k). now destruct (eqb k x).
  - destruct (eqb k' x) eqn:E; simpl.
    + apply eqb_eq in E. subst k'. rewrite (eqb_swap x k).
      now destruct (eqb k x).
    + destruct (eqb k' k) eqn:E'; [|exact IH].
      apply eqb_eq in E'. subst k'. now rewrite E.
Qed.

Lemma count_add_keys_any (x : K) (c : list (K * nat)) :
  map fst (count_add eqb x c)
  = if existsb (eqb x) (map fst c) then map fst c else map fst c ++ [x].
Proof.
  induction c as [|[k' n] c IH]; [reflexivity|]. simpl.
  rewrite (eqb_swap x k'). destruct (eqb k' x); simpl; [reflexivity|].
  rewrite IH. now destruct (existsb (eqb x) (map fst c)).
Qed.

Lemma count_add_positive (x : K) (c : list (K * nat)) :
  Forall (fun p => 1 <= snd p) c ->
  Forall (fun p => 1 <= snd p) (count_add eqb x c).
Proof.
  induction 1 as [|[k n] c Hk Hc IH]; simpl.
  - repeat constructor.
  - destruct (eqb k x); constructor; simpl in *; auto; lia.
Qed.

Lemma count_add_NoDup_any (x : K) (c : list (K * nat)) :
  NoDup (map fst c) -> NoDup (map fst (count_add eqb x c)).
Proof.
  intro H. rewrite count_add_keys_any.
  destruct (existsb (eqb x) (map fst c)) eqn:E; [exact H|].
  apply NoDup_app; [exact H|repeat constructor; auto|].
  intros y Hy [Ey|[]]. subst y.
  assert (T : existsb (eqb x) (map fst c) = true).
  { apply existsb_exists. exists x. split; [exact Hy|apply eqb_same]. }
  congruence.
Qed.

Lemma count_add_key_In (x k : K) (c : list (K * nat)) :
  In k (map fst (count_add eqb x c)) <-> In k (map fst c) \/ k = x.
Proof.
  rewrite count_add_keys_any.
  destruct (existsb (eqb x) (map fst c)) eqn:E.
  - apply existsb_exists in E. destruct E as [y [Hy Ey]].
    apply eqb_eq in Ey. subst y. split; [now left|].
    intros [H| ->]; assumption.
  - rewrite in_app_iff. simpl. intuition.
Qed.

(** What folding [count_add] over a list leaves in the table. *)
Lemma count_fold_spec (l : list K) (c : list (K * nat)) :
  let c' := fold_left (fun c k => count_add eqb k c) l c in
  (NoDup (map fst c) -> NoDup (map fst c'))
  /\ (Forall (fun p => 1 <= snd p) c -> Forall (fun p => 1 <= snd p) c')
  /\ (forall k, lookup_count eqb k c' = tally eqb k l + lookup_count eqb k c)
  /\ (forall k, In k (map fst c') <-> In k (map fst c) \/ In k l).
Proof.
  revert c. induction l as [|x l IH]; intro c; simpl.
  - split; [auto|]. split; [auto|]. split; [reflexivity|]. intro k. tauto.
  - destruct (IH (count_add eqb x c)) as [Hn [Hp [Hl Hk]]].
    split; [|split; [|split]].
    + intro H. now apply Hn, count_add_NoDup_any.
    + intro H. now apply Hp, count_add_positive.
    + intro k. rewrite Hl, lookup_count_add. unfold tally. simpl.
      destruct (eqb k x); simpl; lia.
    + intro k. rewrite Hk, count_add_key_In. intuition congruence.
Qed.


Lemma lookup_count_present (k : K) (c : list (K * nat)) :
  In k (map fst c) -> In (k, lookup_count eqb k c) c.
Proof.
  unfold lookup_count. induction c as [|[k' m] c IH]; [contradiction|].
  simpl. destruct (eqb k' k) eqn:E.
  - apply eqb_eq in E. subst k'. now left.
  - intros [E'|Hin]; [subst k'; rewrite eqb_same in E; discriminate|].
    right. now apply IH.
Qed.

End CountTable.

Lemma fold_left_flat_map {A B C : Type} (f : A -> C -> A) (g : B -> list C)
      (l : list B) (a : A) :
  fold_left f (flat_map g l) a
  = fold_left (fun acc x => fold_left f (g x) acc) l a.
Proof.
  revert a. induction l as [|x l IH]; intro a; [reflexivity|].
  simpl. now rewrite fold_left_app, IH.
Qed.

Lemma opt_eqb_string_eq (a b : option string) :
  opt_eqb String.eqb a b = true <-> a = b.
Proof.
  destruct a as [x|], b as [y|]; simpl; try (split; congruence).
  rewrite String.eqb_eq. split; congruence.
Qed.

Lemma edge_eqb_eq (a b : option string * option string) :
  edge_eqb a b = true <-> a = b.
Proof.
  destruct a as [a1 a2], b as [b1 b2]. unfold edge_eqb. simpl.
  rewrite andb_true_iff, !opt_eqb_string_eq. split.
  - intros [-> ->]. reflexivity.
  - intro H. inversion H. auto.
Qed.

Lemma edge_counter_observations (events : list Row) :
  edge_counter events = count_all edge_eqb (observations events).
Proof.
  unfold edge_counter, count_all, observations, count_case_edges.
  now rewrite fold_left_flat_map.
Qed.

Lemma consecutive_In {A : Type} (a b : A) (l : list A) :
  In (a, b) (consecutive l) -> In a l /\ In b l.
Proof.
  unfold consecutive. intro H. split.
  - eapply in_combine_l; exact H.
  - apply in_combine_r in H. destruct l; [contradiction|]. now right.
Qed.

Lemma observations_In (events : list Row) (a b : option string) :
  In (a, b) (observations events) ->
  (exists r, In r events /\ step r = a)
  /\ (exists r, In r events /\ step r = b).
Proof.
  unfold observations. rewrite in_flat_map. intros [[k g] [Hg H]].
  cbn [snd] in H. apply consecutive_In in H. destruct H as [Ha Hb].
  unfold groupby_case in Hg. apply in_map_iff in Hg.
  destruct Hg as [k' [E _]]. inversion E; subst k' g. clear E.
  apply in_map_iff in Ha. apply in_map_iff in Hb.
  destruct Ha as [ra [Ea Hra]]. destruct Hb as [rb [Eb Hrb]].
  apply filter_In in Hra. apply filter_In in Hrb.
  split; [exists ra|exists rb]; tauto.
Qed.

Section GraphFacts.

Context {quicksort : NumpyArgsort}.
Variable parse_datetime : string -> option Z.


(** X4 -- The graph is closed: a step at either end of an edge is the id of
    a node. *)
Theorem edge_ends_are_nodes (df : DataFrame) :
  required_columns df ->
  exists r,
    analyze_dataframe parse_datetime df = inr r
    /\ forall e s,
         In e (edges (graph r)) ->
         edge_from e = Some s \/ edge_to e = Some s ->
         In s (map node_id (nodes (graph r))).
Proof.
  intro Hreq. rewrite (analyze_dataframe_returns _ _ Hreq).
  eexists. split; [reflexivity|]. cbn [graph edges nodes].
  set (events := rows (sorted_events parse_datetime df)).
  intros e s He Hs.
  apply in_map_iff in He. destruct He as [[[a b] n] [<- Hp]].
  cbn [edge_from edge_to fst snd] in Hs.
  rewrite edge_counter_observations in Hp.
  destruct (count_fold_spec edge_eqb edge_eqb_eq (observations events) [])
    as [_ [_ [_ Hkeys]]].
  fold (count_all edge_eqb (observations events)) in Hkeys.
  assert (Hobs : In (a, b) (observations events)).
  { destruct (proj1 (Hkeys (a, b)) (in_map fst _ _ Hp)) as [[]|H]. exact H. }
  apply observations_In in Hobs. destruct Hobs as [[ra [Hra Ea]] [rb [Hrb Eb]]].
  assert (Hrow : exists row, In row events /\ step row = Some s).
  { destruct Hs as [->| ->]; [now exists ra|now exists rb]. }
  destruct Hrow as [row [Hrow Erow]].
  rewrite map_map. cbn [node_id]. apply in_map_iff.
  exists (s, occurrences s (present (map step events))).
  split; [reflexivity|]. apply value_counts_entry, present_In.
  rewrite <- Erow. now apply in_map.
Qed.

End GraphFacts.

(** ** Edge cases of the analysis *)

Lemma take_nil {A : Type} (idx : list nat) : take (@nil A) idx = [].
Proof.
  induction idx as [|i idx IH]; [reflexivity|].
  rewrite take_cons, IH. unfold take. simpl. now destruct i.
Qed.

Lemma set_timestamp_twice (r : Row) (c c' : Cell) :
  set_timestamp (set_timestamp r c) c' = set_timestamp r c'.
Proof. reflexivity. Qed.

Section EdgeCases.

Context {quicksort : NumpyArgsort}.
Variable parse_datetime : string -> option Z.

Lemma parse_column_idem (rs : list Row) :
  parse_column parse_datetime (parse_column parse_datetime rs)
  = parse_column parse_datetime rs.
Proof.
  rewrite !parse_column_map, map_map. apply map_ext. intro r.
  cbn [timestamp set_timestamp]. rewrite to_datetime_idem. reflexivity.
Qed.

(** X5 -- A table with the required columns and no row is analysed without
    error: all four statistics are zero, the graph has no node and no edge,
    and the KPI part is [{has_timestamp: false}], with or without a
    [timestamp] column. *)
Theorem analysis_of_a_table_without_rows (df : DataFrame) :
  required_columns df ->
  rows df = [] ->
  analyze_dataframe parse_datetime df
  = inr (mkResult (mkStats 0 0 0 0) (mkGraph [] []) NoTimestamp).
Proof.
  intros Hreq Hrows. rewrite (analyze_dataframe_returns _ _ Hreq).
  assert (E : rows (sorted_events parse_datetime df) = []).
  { pose proof (sorted_events_length parse_datetime df) as L.
    rewrite Hrows in L. simpl in L.
    now destruct (rows (sorted_events parse_datetime df)). }
  cbv zeta. rewrite E. cbn [map List.length nunique present flat_map nodup].
  assert (V : value_counts [] = []).
  { unfold value_counts, sort_values_by. apply take_nil. }
  rewrite V. cbn [map List.length edge_counter groupby_case case_keys
                  present flat_map sorted_unique fold_right fold_left].
  assert (Kp : compute_kpis parse_datetime (sorted_events parse_datetime df)
               = NoTimestamp).
  { apply compute_kpis_no_timestamp. right. rewrite E. intros row []. }
  now rewrite Kp.
Qed.

(** X6 -- Parsing the [timestamp] column before the call, as the endpoint
    [analyze_mapped] does, changes nothing: [analyze_dataframe] gives the
    same result on the table with its timestamps already parsed as on the
    table as read. *)
Theorem timestamps_may_be_parsed_beforehand (df : DataFrame) :
  has_column "timestamp" df = true ->
  analyze_dataframe parse_datetime
    (mkDataFrame (columns df) (parse_column parse_datetime (rows df)))
  = analyze_dataframe parse_datetime df.
Proof.
  intro Hts.
  assert (E : sorted_events parse_datetime
                (mkDataFrame (columns df)
                             (parse_column parse_datetime (rows df)))
              = sorted_events parse_datetime df).
  { unfold sorted_events. rewrite !has_column_rows, Hts. cbv iota.
    rewrite !has_column_rows, Hts. cbn [rows columns].
    now rewrite parse_column_idem. }
  unfold analyze_dataframe.
  change (issubset ["case_id"; "step"]
            (mkDataFrame (columns df) (parse_column parse_datetime (rows df))))
    with (issubset ["case_id"; "step"] df).
  now rewrite E.
Qed.


End EdgeCases.

(** * More on [compute_kpis]: the numbers it reports *)

(** ** Rounding keeps the order *)

Lemma round2_eq x : round2 x = Qred (Qmake (round_half_even (x * Qmake 100 1)) 100).
Proof. reflexivity. Qed.

Lemma round_half_even_bounds y :
  (Qfloor y <= round_half_even y <= Qfloor y + 1)%Z.
Proof. unfold round_half_even. cbv zeta. destruct (match _ with Lt => _ | _ => _ end); lia. Qed.

Lemma round_half_even_le y y' : Qle y y' -> (round_half_even y <= round_half_even y')%Z.
Proof.
  intro H. pose proof (Qfloor_resp_le _ _ H) as Hf.
  destruct (Z.eq_dec (Qfloor y) (Qfloor y')) as [E|N].
  - unfold round_half_even. cbv zeta. rewrite <- E.
    destruct (Qcompare_spec (y - Qmake (Qfloor y) 1) (Qmake 1 2)) as [C|C|C];
    destruct (Qcompare_spec (y' - Qmake (Qfloor y) 1) (Qmake 1 2)) as [C'|C'|C'];
    try destruct (Z.odd (Qfloor y)); try lia; exfalso; lra.
  - pose proof (round_half_even_bounds y). pose proof (round_half_even_bounds y'). lia.
Qed.

Lemma round2_le x y : Qle x y -> Qle (round2 x) (round2 y).
Proof.
  intro H. rewrite !round2_eq, !Qred_correct.
  assert (L : (round_half_even (x * Qmake 100 1) <= round_half_even (y * Qmake 100 1))%Z).
  { apply round_half_even_le. lra. }
  unfold Qle. simpl. lia.
Qed.

Lemma round2_zero : round2 0 = 0%Q.
Proof. reflexivity. Qed.

(** ** Minimum, mean and maximum *)

Lemma Qmin_le_l a b : Qle (Qmin a b) a.
Proof. unfold Qmin. destruct (Qle_bool a b) eqn:E; [apply Qle_refl|]. now apply Qle_bool_false_ge. Qed.
Lemma Qmin_le_r a b : Qle (Qmin a b) b.
Proof. unfold Qmin. destruct (Qle_bool a b) eqn:E; [now apply Qle_bool_iff|apply Qle_refl]. Qed.
Lemma Qmax_ge_l a b : Qle a (Qmax a b).
Proof. unfold Qmax. destruct (Qle_bool a b) eqn:E; [now apply Qle_bool_iff|apply Qle_refl]. Qed.
Lemma Qmax_ge_r a b : Qle b (Qmax a b).
Proof. unfold Qmax. destruct (Qle_bool a b) eqn:E; [apply Qle_refl|]. now apply Qle_bool_false_ge. Qed.

Lemma fold_Qmin_spec (qs : list Q) (q : Q) :
  In (fold_left Qmin qs q) (q :: qs)
  /\ forall x, In x (q :: qs) -> Qle (fold_left Qmin qs q) x.
Proof.
  revert q. induction qs as [|a qs IH]; intro q; simpl.
  - split; [now left|]. intros x [<-|[]]. apply Qle_refl.
  - destruct (IH (Qmin q a)) as [Hin Hle]. split.
    + destruct Hin as [E|Hin]; [|now right; right].
      rewrite <- E. unfold Qmin. destruct (Qle_bool q a); auto.
    + intros x Hx.
      assert (Hm : Qle (fold_left Qmin qs (Qmin q a)) (Qmin q a)) by (apply Hle; now left).
      destruct Hx as [<-|[<-|Hx]].
      * eapply Qle_trans; [exact Hm|apply Qmin_le_l].
      * eapply Qle_trans; [exact Hm|apply Qmin_le_r].
      * apply Hle. now right.
Qed.

Lemma fold_Qmax_spec (qs : list Q) (q : Q) :
  In (fold_left Qmax qs q) (q :: qs)
  /\ forall x, In x (q :: qs) -> Qle x (fold_left Qmax qs q).
Proof.
  revert q. induction qs as [|a qs IH]; intro q; simpl.
  - split; [now left|]. intros x [<-|[]]. apply Qle_refl.
  - destruct (IH (Qmax q a)) as [Hin Hle]. split.
    + destruct Hin as [E|Hin]; [|now right; right].
      rewrite <- E. unfold Qmax. destruct (Qle_bool q a); auto.
    + intros x Hx.
      assert (Hm : Qle (Qmax q a) (fold_left Qmax qs (Qmax q a))) by (apply Hle; now left).
      destruct Hx as [<-|[<-|Hx]].
      * eapply Qle_trans; [apply Qmax_ge_l|exact Hm].
      * eapply Qle_trans; [apply Qmax_ge_r|exact Hm].
      * apply Hle. now right.
Qed.

Lemma Qsum_bounds (l : list Q) (lo hi : Q) :
  (forall x, In x l -> Qle lo x /\ Qle x hi) ->
  Qle (Qmake (Z.of_nat (List.length l)) 1 * lo) (Qsum l)
  /\ Qle (Qsum l) (Qmake (Z.of_nat (List.length l)) 1 * hi).
Proof.
  induction l as [|a l IH]; intro H.
  - simpl. split; lra.
  - destruct IH as [L U]; [intros x Hx; apply H; now right|].
    destruct (H a (or_introl eq_refl)) as [La Ua].
    change (Qsum (a :: l)) with (a + Qsum l)%Q.
    assert (E : Qeq (Qmake (Z.of_nat (List.length (a :: l))) 1)
                    (1 + Qmake (Z.of_nat (List.length l)) 1)).
    { unfold Qeq, Qplus. cbn [Qnum Qden List.length]. lia. }
    rewrite E. split; lra.
Qed.

Lemma mean_between (l : list Q) (lo hi : Q) :
  l <> [] ->
  (forall x, In x l -> Qle lo x /\ Qle x hi) ->
  Qle lo (Qsum l / Qmake (Z.of_nat (List.length l)) 1)
  /\ Qle (Qsum l / Qmake (Z.of_nat (List.length l)) 1) hi.
Proof.
  intros Hne H. destruct (Qsum_bounds l lo hi H) as [L U].
  assert (Hn : Qlt 0 (Qmake (Z.of_nat (List.length l)) 1)).
  { unfold Qlt. simpl. destruct l; [now elim Hne|]. simpl List.length. lia. }
  split.
  - apply Qle_shift_div_l; [exact Hn|]. lra.
  - apply Qle_shift_div_r; [exact Hn|]. lra.
Qed.

Lemma float_values_In (x : Q) (l : list Float) :
  In x (float_values l) <-> In (Fin x) l.
Proof.
  unfold float_values. rewrite in_flat_map. split.
  - intros [[|q] [Hq Hx]]; simpl in Hx; [contradiction|].
    destruct Hx as [->|[]]. exact Hq.
  - intro H. exists (Fin x). split; [exact H|now left].
Qed.

(** The three aggregates of a column with at least one number, none of them
    negative. *)
Lemma aggregates_ordered (l : list Float) :
  float_values l <> [] ->
  (forall x, In x (float_values l) -> Qle 0 x) ->
  exists a b c,
    mean l = Fin a /\ float_min l = Fin b /\ float_max l = Fin c
    /\ Qle 0 b /\ Qle b a /\ Qle a c.
Proof.
  intros Hne Hpos. unfold mean, float_min, float_max.
  destruct (float_values l) as [|q qs] eqn:E; [now elim Hne|].
  destruct (fold_Qmin_spec qs q) as [Hmin_in Hmin].
  destruct (fold_Qmax_spec qs q) as [Hmax_in Hmax].
  do 3 eexists. repeat split; try reflexivity.
  - now apply Hpos.
  - rewrite Qred_correct.
    apply (mean_between (q :: qs) (fold_left Qmin qs q) (fold_left Qmax qs q));
      [discriminate|]. intros x Hx. split; [now apply Hmin|now apply Hmax].
  - rewrite Qred_correct.
    apply (mean_between (q :: qs) (fold_left Qmin qs q) (fold_left Qmax qs q));
      [discriminate|]. intros x Hx. split; [now apply Hmin|now apply Hmax].
Qed.

Section CycleOrder.

Context {quicksort : NumpyArgsort}.
Variable parse_datetime : string -> option Z.


End CycleOrder.

(** ** The step and transition durations *)

Lemma float_number_round (x : Float) :
  float_number (round_float x) = round2 (float_number x).
Proof. now destruct x. Qed.

Section SortedUniqueAny.

Context {A : Type}.
Variable cmp : A -> A -> comparison.
Hypothesis cmp_eq : forall a b, cmp a b = Eq -> a = b.

Lemma insert_unique_In_any (x y : A) (l : list A) :
  In y (insert_unique cmp x l) <-> y = x \/ In y l.
Proof.
  induction l as [|z l IH]; simpl; [intuition|].
  destruct (cmp x z) eqn:E; simpl.
  - apply cmp_eq in E. subst. intuition.
  - intuition.
  - rewrite IH. intuition.
Qed.

Lemma sorted_unique_In_any (y : A) (l : list A) :
  In y (sorted_unique cmp l) <-> In y l.
Proof.
  induction l as [|x l IH]; simpl; [reflexivity|].
  rewrite insert_unique_In_any, IH. intuition.
Qed.

Hypothesis cmp_trans :
  forall a b c, cmp a b = Lt -> cmp b c = Lt -> cmp a c = Lt.
Hypothesis cmp_antisym : forall a b, cmp a b = CompOpp (cmp b a).

Lemma insert_unique_sorted_any (x : A) (l : list A) :
  StronglySorted (fun a b => cmp a b = Lt) l ->
  StronglySorted (fun a b => cmp a b = Lt) (insert_unique cmp x l).
Proof.
  induction 1 as [|z l Hs IH Hz]; simpl.
  - repeat constructor.
  - destruct (cmp x z) eqn:E.
    + now constructor.
    + constructor; [now constructor|].
      constructor; [exact E|].
      eapply Forall_impl; [|exact Hz]. simpl. intros a Ha.
      eapply cmp_trans; eassumption.
    + constructor; [exact IH|].
      apply Forall_forall. intros a Ha.
      apply (proj1 (insert_unique_In_any x a l)) in Ha.
      destruct Ha as [->|Ha].
      * rewrite cmp_antisym, E. reflexivity.
      * rewrite Forall_forall in Hz. now apply Hz.
Qed.

Lemma sorted_unique_NoDup_any (l : list A) : NoDup (sorted_unique cmp l).
Proof.
  assert (S : StronglySorted (fun a b => cmp a b = Lt) (sorted_unique cmp l)).
  { induction l as [|x l IH]; simpl; [constructor|].
    now apply insert_unique_sorted_any. }
  induction S as [|z k Hs IH Hz]; constructor; [|exact IH].
  intro Hin. rewrite Forall_forall in Hz. specialize (Hz z Hin).
  pose proof (cmp_antisym z z) as E. rewrite Hz in E. discriminate.
Qed.

End SortedUniqueAny.

Lemma string_compare_eq (a b : string) : String.compare a b = Eq -> a = b.
Proof. apply String.compare_eq_iff. Qed.

Lemma string_compare_lt_trans (a b c : string) :
  String.compare a b = Lt -> String.compare b c = Lt -> String.compare a c = Lt.
Proof.
  intros H1 H2.
  apply (proj2 (OrderedTypeEx.String_as_OT.cmp_lt a c)).
  eapply OrderedTypeEx.String_as_OT.lt_trans;
    apply (proj1 (OrderedTypeEx.String_as_OT.cmp_lt _ _)); eassumption.
Qed.

Lemma string_keys_NoDup (l : list string) :
  NoDup (sorted_unique String.compare l).
Proof.
  apply sorted_unique_NoDup_any.
  - exact string_compare_eq.
  - exact string_compare_lt_trans.
  - exact String.compare_antisym.
Qed.

Lemma pair_compare_eq (a b : string * string) : pair_compare a b = Eq -> a = b.
Proof.
  destruct a as [a1 a2], b as [b1 b2]. unfold pair_compare. simpl.
  destruct (String.compare a1 b1) eqn:E; try discriminate.
  intro H. apply string_compare_eq in E. apply string_compare_eq in H.
  now subst.
Qed.

Lemma pair_compare_lt_trans (a b c : string * string) :
  pair_compare a b = Lt -> pair_compare b c = Lt -> pair_compare a c = Lt.
Proof.
  destruct a as [a1 a2], b as [b1 b2], c as [c1 c2]. unfold pair_compare.
  cbn [fst snd].
  destruct (String.compare a1 b1) eqn:E1; try discriminate;
    destruct (String.compare b1 c1) eqn:E2; try discriminate; intros H1 H2.
  - apply string_compare_eq in E1. apply string_compare_eq in E2. subst.
    assert (E : String.compare c1 c1 = Eq).
    { pose proof (String.compare_antisym c1 c1) as E.
      destruct (String.compare c1 c1); try reflexivity; discriminate. }
    rewrite E. eapply string_compare_lt_trans; eassumption.
  - apply string_compare_eq in E1. subst. now rewrite E2.
  - apply string_compare_eq in E2. subst. now rewrite E1.
  - now rewrite (string_compare_lt_trans _ _ _ E1 E2).
Qed.

Lemma pair_compare_antisym (a b : string * string) :
  pair_compare a b = CompOpp (pair_compare b a).
Proof.
  destruct a as [a1 a2], b as [b1 b2]. unfold pair_compare. cbn [fst snd].
  rewrite (String.compare_antisym a1 b1), (String.compare_antisym a2 b2).
  destruct (String.compare b1 a1); reflexivity.
Qed.

Lemma pair_keys_NoDup (l : list (string * string)) :
  NoDup (sorted_unique pair_compare l).
Proof.
  apply sorted_unique_NoDup_any.
  - exact pair_compare_eq.
  - exact pair_compare_lt_trans.
  - exact pair_compare_antisym.
Qed.

Lemma StronglySorted_firstn_skipn {A : Type} (R : A -> A -> Prop)
      (l : list A) (n : nat) (x y : A) :
  StronglySorted R l -> In x (firstn n l) -> In y (skipn n l) -> R x y.
Proof.
  intro S. revert n. induction S as [|a l Hs IH Ha]; intros n Hx Hy.
  - destruct n; contradiction.
  - destruct n as [|n]; [contradiction|]. simpl in Hx, Hy.
    destruct Hx as [->|Hx]; [|now apply (IH n)].
    rewrite Forall_forall in Ha. apply Ha.
    rewrite <- (firstn_skipn n l). apply in_or_app. now right.
Qed.

(** The gaps that are kept are numbers, none negative. *)
Lemma duration_rows_delta (df : list Row) (r : Row) :
  all_datetime df -> In r (duration_rows df) ->
  exists d, delta_hours r = Fin d /\ Qle 0 d.
Proof.
  intros Hall Hr. unfold duration_rows in Hr. apply filter_In in Hr.
  destruct Hr as [Hr Hm].
  destruct (with_gaps_shape df r Hall Hr)
    as [t [_ [[En Ed]|[tn [En [Hle Ed]]]]]].
  - unfold duration_mask in Hm. rewrite Ed in Hm. discriminate.
  - eexists. split; [exact Ed|]. apply hours_of_ns_nonneg. lia.
Qed.

(** A group of kept gaps that is not empty: as many numbers as rows, and a
    mean that is a number and is not negative. *)
Lemma group_of_gaps (rs : list Row) (p : Row -> bool) :
  (forall r, In r rs -> exists d, delta_hours r = Fin d /\ Qle 0 d) ->
  (exists r, In r rs /\ p r = true) ->
  let ds := map delta_hours (filter p rs) in
  List.length (float_values ds) = List.length (filter p rs)
  /\ 1 <= List.length (filter p rs)
  /\ exists a, mean ds = Fin a /\ Qle 0 a.
Proof.
  intros Hd [r0 [Hr0 Hp0]] ds.
  assert (Hg : forall r, In r (filter p rs) ->
                         exists d, delta_hours r = Fin d /\ Qle 0 d).
  { intros r Hr. apply filter_In in Hr. now apply Hd. }
  assert (Hne : filter p rs <> []).
  { intro E. assert (H0 : In r0 (filter p rs)) by (apply filter_In; auto).
    rewrite E in H0. contradiction. }
  assert (Hlen : List.length (float_values ds) = List.length (filter p rs)).
  { unfold ds. clear Hne. induction (filter p rs) as [|r l IH]; [reflexivity|].
    destruct (Hg r (or_introl eq_refl)) as [d [Ed _]].
    simpl. rewrite Ed. simpl. f_equal. apply IH.
    intros r' Hr'. apply Hg. now right. }
  split; [exact Hlen|]. split.
  - destruct (filter p rs); [now elim Hne|simpl; lia].
  - destruct (aggregates_ordered ds) as [a [b [c [Ea [_ [_ [H0 [H1 _]]]]]]]].
    + intro E. rewrite E in Hlen. simpl in Hlen.
      destruct (filter p rs); [now elim Hne|discriminate].
    + intros x Hx. apply float_values_In in Hx. unfold ds in Hx.
      apply in_map_iff in Hx. destruct Hx as [r [Er Hr]].
      destruct (Hg r Hr) as [d [Ed Hd0]]. rewrite Ed in Er.
      now inversion Er; subst.
    + exists a. split; [exact Ea|]. eapply Qle_trans; eassumption.
Qed.

Section DurationFacts.

Context {quicksort : NumpyArgsort}.
Variable parse_datetime : string -> option Z.

Lemma sort_by_mean_sorted {A : Type} (m : A -> Float) (l : list A) :
  (forall x, In x l -> exists q, m x = Fin q) ->
  StronglySorted (fun a b => Qle (float_number (m b)) (float_number (m a)))
                 (sort_values_by (fun x => float_key (m x)) false l).
Proof.
  intro H.
  assert (E : sort_values_by (fun x => float_key (m x)) false l
              = sort_values_by (fun x => Some (float_number (m x))) false l).
  { unfold sort_values_by. f_equal. f_equal. apply map_ext_in.
    intros x Hx. destruct (H x Hx) as [q ->]. reflexivity. }
  rewrite E.
  apply (sort_values_by_desc_sorted (fun x => Some (float_number (m x)))
                                    (fun x => float_number (m x))
                                    (fun _ => eq_refl)).
Qed.

(** The rows of the table of steps, before the sort. *)
Lemma step_stats_entry (rs : list Row) (row : string * (nat * Float)) :
  (forall r, In r rs -> exists d, delta_hours r = Fin d /\ Qle 0 d) ->
  In row (step_stats rs) ->
  (exists r, In r rs /\ step r = Some (fst row))
  /\ fst (snd row) = List.length (filter (has_step (fst row)) rs)
  /\ 1 <= fst (snd row)
  /\ exists a, snd (snd row) = Fin a /\ Qle 0 a.
Proof.
  intros Hd Hrow. unfold step_stats in Hrow.
  eapply Permutation_in in Hrow; [|apply sort_values_by_Permutation].
  apply in_map_iff in Hrow. destruct Hrow as [s [<- Hs]]. cbn [fst snd].
  apply (proj1 (sorted_unique_In_any String.compare string_compare_eq _ _))
    in Hs.
  apply (proj1 (present_In _ _)) in Hs.
  apply in_map_iff in Hs. destruct Hs as [r0 [E0 Hr0]].
  destruct (group_of_gaps rs (has_step s) Hd) as [Hlen [Hpos Hmean]].
  { exists r0. split; [exact Hr0|]. unfold has_step. rewrite E0.
    simpl. apply String.eqb_refl. }
  split; [now exists r0|]. split; [exact Hlen|]. split; [lia|exact Hmean].
Qed.

Lemma trans_stats_entry (rs : list Row)
      (row : (string * string) * (nat * Float)) :
  (forall r, In r rs -> exists d, delta_hours r = Fin d /\ Qle 0 d) ->
  In row (trans_stats rs) ->
  (exists r, In r rs /\ step r = Some (fst (fst row))
             /\ next_step r = Some (snd (fst row)))
  /\ fst (snd row) = List.length (filter (has_transition (fst row)) rs)
  /\ 1 <= fst (snd row)
  /\ exists a, snd (snd row) = Fin a /\ Qle 0 a.
Proof.
  intros Hd Hrow. unfold trans_stats in Hrow.
  eapply Permutation_in in Hrow; [|apply sort_values_by_Permutation].
  apply in_map_iff in Hrow. destruct Hrow as [k [<- Hk]]. cbn [fst snd].
  apply (proj1 (sorted_unique_In_any pair_compare pair_compare_eq _ _)) in Hk.
  apply (proj1 (present_In _ _)) in Hk.
  apply in_map_iff in Hk. destruct Hk as [r0 [E0 Hr0]].
  unfold transition_key in E0.
  destruct (step r0) as [a|] eqn:Ea; [|discriminate].
  destruct (next_step r0) as [b|] eqn:Eb; [|discriminate].
  inversion E0; subst k. clear E0. cbn [fst snd].
  destruct (group_of_gaps rs (has_transition (a, b)) Hd) as [Hlen [Hpos Hmean]].
  { exists r0. split; [exact Hr0|]. unfold has_transition. cbn [fst snd].
    rewrite Ea, Eb. simpl. now rewrite !String.eqb_refl. }
  split; [now exists r0|]. split; [exact Hlen|]. split; [lia|exact Hmean].
Qed.

(** X9 -- In a KPI result every entry of [steps_duration] stands for a step
    that starts at least one kept gap: its count is the number of kept gaps
    that start at the step, at least one, its [avg_hours] is a number and is
    not negative, and no step has two entries; the same holds for the pairs
    of [transitions_duration]. *)
Theorem duration_entries_are_well_formed (e : DataFrame) :
  match compute_kpis parse_datetime e with
  | NoTimestamp => True
  | WithTimestamp _ sd _ td _ =>
      let gaps :=
        duration_rows (dropna_timestamp (kpi_frame parse_datetime e)) in
      NoDup (map sd_step sd)
      /\ (forall x, In x sd ->
             sd_count x = List.length (filter (has_step (sd_step x)) gaps)
             /\ 1 <= sd_count x
             /\ exists a, sd_avg_hours x = Fin a /\ Qle 0 a)
      /\ (forall x, In x td ->
             td_count x
             = List.length (filter (has_transition (td_from x, td_to x)) gaps)
             /\ 1 <= td_count x
             /\ exists a, td_avg_hours x = Fin a /\ Qle 0 a)
  end.
Proof.
  unfold compute_kpis.
  destruct (negb (has_column "timestamp" e)); [exact I|].
  destruct (forallb isna (map timestamp (kpi_frame parse_datetime e)));
    [exact I|].
  set (U := dropna_timestamp (kpi_frame parse_datetime e)).
  set (gaps := duration_rows U). cbv zeta.
  assert (Hd : forall r, In r gaps -> exists d, delta_hours r = Fin d /\ Qle 0 d).
  { intros r Hr.
    exact (duration_rows_delta U r (usable_rows_all_datetime parse_datetime e) Hr). }
  split; [|split].
  - rewrite map_map. cbn [sd_step].
    change (map (fun x : string * (nat * Float) => fst x) (step_stats gaps))
      with (map fst (step_stats gaps)).
    unfold step_stats.
    eapply Permutation_NoDup;
      [symmetry; apply Permutation_map, sort_values_by_Permutation|].
    rewrite map_map. cbn [fst]. rewrite map_id. apply string_keys_NoDup.
  - intros x Hx. apply in_map_iff in Hx. destruct Hx as [row [<- Hrow]].
    cbn [sd_step sd_count sd_avg_hours].
    destruct (step_stats_entry gaps row Hd Hrow) as [_ [Hc [Hp [a [Ea Ha]]]]].
    split; [exact Hc|]. split; [exact Hp|].
    exists (round2 a). rewrite Ea. split; [reflexivity|].
    rewrite <- round2_zero. now apply round2_le.
  - intros x Hx. apply in_map_iff in Hx. destruct Hx as [row [<- Hrow]].
    cbn [td_from td_to td_count td_avg_hours].
    destruct (trans_stats_entry gaps row Hd Hrow) as [_ [Hc [Hp [a [Ea Ha]]]]].
    split; [now destruct row as [[? ?] ?]|]. split; [exact Hp|].
    exists (round2 a). rewrite Ea. split; [reflexivity|].
    rewrite <- round2_zero. now apply round2_le.
Qed.

(** X10 -- Both duration lists of a KPI result come slowest first: no entry
    has a larger [avg_hours] than an entry listed before it.  The "slowest"
    lists are their first three entries, so no step (or transition) left out
    of them is slower than one that is in. *)
Theorem durations_come_slowest_first (e : DataFrame) :
  match compute_kpis parse_datetime e with
  | NoTimestamp => True
  | WithTimestamp _ sd ss td st =>
      let slower_or_equal (a b : Float) :=
        Qle (float_number b) (float_number a) in
      StronglySorted (fun x y => slower_or_equal (sd_avg_hours x)
                                                 (sd_avg_hours y)) sd
      /\ StronglySorted (fun x y => slower_or_equal (td_avg_hours x)
                                                    (td_avg_hours y)) td
      /\ ss = firstn 3 sd
      /\ st = firstn 3 td
      /\ (forall x y, In x ss -> In y (skipn 3 sd) ->
                      slower_or_equal (sd_avg_hours x) (sd_avg_hours y))
      /\ (forall x y, In x st -> In y (skipn 3 td) ->
                      slower_or_equal (td_avg_hours x) (td_avg_hours y))
  end.
Proof.
  unfold compute_kpis.
  destruct (negb (has_column "timestamp" e)); [exact I|].
  destruct (forallb isna (map timestamp (kpi_frame parse_datetime e)));
    [exact I|].
  set (U := dropna_timestamp (kpi_frame parse_datetime e)).
  set (gaps := duration_rows U). cbv zeta.
  assert (Hd : forall r, In r gaps -> exists d, delta_hours r = Fin d /\ Qle 0 d).
  { intros r Hr.
    exact (duration_rows_delta U r (usable_rows_all_datetime parse_datetime e) Hr). }
  assert (S1 : StronglySorted
                 (fun x y => Qle (float_number (sd_avg_hours y))
                                 (float_number (sd_avg_hours x)))
                 (map (fun row : string * (nat * Float) =>
                         mkStepDuration (fst row) (round_float (snd (snd row)))
                                        (fst (snd row)))
                      (step_stats gaps))).
  { apply StronglySorted_unmap. cbn [sd_avg_hours].
    eapply StronglySorted_weaken;
      [|apply (sort_by_mean_sorted (fun row : string * (nat * Float) =>
                                      snd (snd row)))].
    - intros a b H. cbv beta in H. rewrite !float_number_round.
      now apply round2_le.
    - intros x Hx.
      assert (Hin : In x (step_stats gaps)).
      { unfold step_stats. eapply Permutation_in;
          [symmetry; apply sort_values_by_Permutation|exact Hx]. }
      destruct (step_stats_entry gaps x Hd Hin) as [_ [_ [_ [a [Ea _]]]]].
      now exists a. }
  assert (S2 : StronglySorted
                 (fun x y => Qle (float_number (td_avg_hours y))
                                 (float_number (td_avg_hours x)))
                 (map (fun row : (string * string) * (nat * Float) =>
                         mkTransitionDuration
                           (fst (fst row)) (snd (fst row))
                           (round_float (snd (snd row))) (fst (snd row)))
                      (trans_stats gaps))).
  { apply StronglySorted_unmap. cbn [td_avg_hours].
    eapply StronglySorted_weaken;
      [|apply (sort_by_mean_sorted
                 (fun row : (string * string) * (nat * Float) =>
                    snd (snd row)))].
    - intros a b H. cbv beta in H. rewrite !float_number_round.
      now apply round2_le.
    - intros x Hx.
      assert (Hin : In x (trans_stats gaps)).
      { unfold trans_stats. eapply Permutation_in;
          [symmetry; apply sort_values_by_Permutation|exact Hx]. }
      destruct (trans_stats_entry gaps x Hd Hin) as [_ [_ [_ [a [Ea _]]]]].
      now exists a. }
  split; [exact S1|]. split; [exact S2|].
  split; [reflexivity|]. split; [reflexivity|]. split.
  - intros x y Hx Hy. exact (StronglySorted_firstn_skipn _ _ 3 x y S1 Hx Hy).
  - intros x y Hx Hy. exact (StronglySorted_firstn_skipn _ _ 3 x y S2 Hx Hy).
Qed.

End DurationFacts.

(** ** How many gaps are kept *)

Lemma shift_next_next_rows {B : Type} (val : Row -> B) (missing : B)
      (rs : list Row) :
  shift_next val missing rs = map (read_next val missing) (next_rows rs).
Proof.
  induction rs as [|r rest IH]; simpl; [reflexivity|]. rewrite IH. f_equal.
  destruct (case_id r); [|reflexivity]. now destruct (find _ rest).
Qed.

Lemma find_in_case_related {B : Type} (val : Row -> B) (k : Z)
      (l l' : list Row) :
  Forall2 (same_case_and val) l l' ->
  match find (in_case k) l, find (in_case k) l' with
  | Some a, Some b => val a = val b
  | None, None => True
  | _, _ => False
  end.
Proof.
  induction 1 as [|a b l l' [Hc Hv] _ IH]; simpl; [exact I|].
  assert (E : in_case k a = in_case k b) by (unfold in_case; now rewrite Hc).
  rewrite E. destruct (in_case k b); [exact Hv|exact IH].
Qed.

Lemma shift_next_related {B : Type} (val : Row -> B) (missing : B)
      (l l' : list Row) :
  Forall2 (same_case_and val) l l' ->
  shift_next val missing l = shift_next val missing l'.
Proof.
  induction 1 as [|a b l l' [Hc Hv] Hl IH]; [reflexivity|].
  cbn [shift_next]. rewrite IH, Hc. f_equal.
  destruct (case_id b) as [k|]; [|reflexivity].
  pose proof (find_in_case_related val k l l' Hl) as F.
  destruct (find (in_case k) l), (find (in_case k) l');
    try contradiction; [exact F|reflexivity].
Qed.

Lemma shift_next_length {B : Type} (val : Row -> B) (missing : B)
      (rs : list Row) :
  List.length (shift_next val missing rs) = List.length rs.
Proof. induction rs as [|r rs IH]; simpl; [reflexivity|now rewrite IH]. Qed.

Lemma assign_next_timestamp_related (rs : list Row) (col : list Cell) :
  List.length col = List.length rs ->
  Forall2 (same_case_and step) (assign set_next_timestamp rs col) rs.
Proof.
  unfold assign. revert col.
  induction rs as [|r rs IH]; intros [|c col] H; try discriminate;
    [constructor|].
  cbn [combine map]. constructor; [now split|]. apply IH.
  simpl in H. lia.
Qed.

Lemma with_gaps_next_rows (df : list Row) :
  with_gaps df
  = map gap_row (combine (lexsort case_time_leb df)
                         (next_rows (lexsort case_time_leb df))).
Proof.
  unfold with_gaps. cbv zeta.
  set (S := lexsort case_time_leb df).
  rewrite (shift_next_related step None _ S
             (assign_next_timestamp_related S _
                (shift_next_length timestamp Missing S))).
  unfold assign. rewrite !shift_next_next_rows.
  generalize (next_rows S). generalize S. clear.
  induction S as [|r rs IH]; intros [|o os]; try reflexivity.
  cbn [map combine]. f_equal. apply IH.
Qed.

Lemma next_rows_spec (rs : list Row) :
  StronglySorted (fun a b => case_time_leb a b = true) rs ->
  Forall2 (next_ok rs) rs (next_rows rs).
Proof.
  induction 1 as [|r rest Hs IH Hr]; simpl; constructor.
  - destruct (case_id r) as [k|] eqn:Ek; [|exact I].
    destruct (find (in_case k) rest) as [r'|] eqn:Ef; [|exact I].
    apply find_some in Ef. destruct Ef as [Hin Hk].
    apply in_case_iff in Hk. rewrite Forall_forall in Hr.
    simpl. repeat split; [now right|congruence|now apply Hr].
  - eapply Forall2_impl; [|exact IH]. intros a [r'|]; [|trivial].
    intros [Hin H']. split; [now right|exact H'].
Qed.

Lemma gap_row_mask (S : list Row) (r : Row) (o : option Row) :
  all_datetime S -> In r S -> next_ok S r o ->
  duration_mask (gap_row (r, o)) = is_some o.
Proof.
  intros HS Hr Ho. destruct (HS r Hr) as [t Et].
  unfold duration_mask, gap_row. cbn [fst snd read_next].
  destruct o as [r'|]; cbn [is_some read_next set_delta_hours delta_hours].
  - destruct Ho as [Hin [Ec Hle]]. destruct (HS r' Hin) as [tn Etn].
    pose proof (case_time_leb_same_case r r' t tn Ec Et Etn Hle) as Ht.
    unfold hours_between. rewrite Et, Etn. simpl.
    apply Qle_bool_iff. apply hours_of_ns_nonneg. lia.
  - unfold hours_between. rewrite Et. reflexivity.
Qed.

Lemma next_rows_count (rs : list Row) :
  List.length (filter is_some (next_rows rs)) + nunique (map case_id rs)
  = List.length (filter has_case rs).
Proof.
  unfold nunique. induction rs as [|r rest IH]; [reflexivity|].
  cbn [next_rows map filter]. unfold has_case at 1.
  destruct (case_id r) as [k|] eqn:Ek; cbn [present]; [|exact IH].
  change (present (Some k :: map case_id rest))
    with (k :: present (map case_id rest)).
  cbn [nodup].
  destruct (find (in_case k) rest) as [r'|] eqn:Ef;
    destruct (in_dec Z.eq_dec k (present (map case_id rest))) as [Hin|Hin];
    cbn [is_some filter List.length].
  - rewrite <- IH. lia.
  - exfalso. apply Hin. apply find_some in Ef. destruct Ef as [Hr' Hk].
    apply in_case_iff in Hk. apply present_In. rewrite <- Hk.
    now apply in_map.
  - exfalso. apply (proj1 (present_In _ _)) in Hin.
    apply in_map_iff in Hin. destruct Hin as [r' [Hk Hr']].
    pose proof (find_none _ _ Ef r' Hr') as Hn.
    apply (proj2 (in_case_iff k r')) in Hk. congruence.
  - rewrite <- IH. lia.
Qed.

Lemma lexsort_all_datetime (df : list Row) :
  all_datetime df -> all_datetime (lexsort case_time_leb df).
Proof.
  intros Hall x Hx. apply Hall.
  eapply Permutation_in; [apply lexsort_Permutation|exact Hx].
Qed.

(** Lines 45-55 keep one row for each row that has a later row in its case:
    as many as there are rows with a case id, less one per case. *)
Lemma kept_gaps_count (df : list Row) :
  all_datetime df ->
  List.length (duration_rows df) + nunique (map case_id df)
  = List.length (filter has_case df).
Proof.
  intro Hall. unfold duration_rows. rewrite with_gaps_next_rows.
  set (S := lexsort case_time_leb df).
  pose proof (lexsort_all_datetime df Hall) as HS. fold S in HS.
  assert (G : forall l os,
             Forall2 (next_ok S) l os -> incl l S ->
             List.length (filter duration_mask (map gap_row (combine l os)))
             = List.length (filter is_some os)).
  { induction 1 as [|x y l os Hxy _ IH]; intro Hi; [reflexivity|].
    cbn [combine map filter].
    rewrite (gap_row_mask S x y HS (Hi x (or_introl eq_refl)) Hxy).
    assert (Hl : incl l S) by (intros z Hz; apply Hi; now right).
    destruct y; cbn [is_some List.length]; now rewrite (IH Hl). }
  rewrite (G S (next_rows S)
             (next_rows_spec S (lexsort_case_time_sorted df))
             (incl_refl S)).
  rewrite <- (nunique_Permutation _ _
                (Permutation_map case_id (lexsort_Permutation case_time_leb df))).
  fold S. rewrite next_rows_count.
  apply Permutation_length, filter_Permutation, lexsort_Permutation.
Qed.

(** The step of a kept row and the step after it are steps of the table. *)
Lemma duration_rows_steps (df : list Row) (r : Row) :
  all_datetime df -> In r (duration_rows df) ->
  (exists r0, In r0 df /\ step r = step r0)
  /\ (exists r1, In r1 df /\ next_step r = step r1).
Proof.
  intros Hall Hr. unfold duration_rows in Hr. apply filter_In in Hr.
  destruct Hr as [Hr Hm]. rewrite with_gaps_next_rows in Hr.
  set (S := lexsort case_time_leb df) in *.
  pose proof (lexsort_all_datetime df Hall) as HS. fold S in HS.
  assert (Hback : forall x, In x S -> In x df).
  { intros x Hx. eapply Permutation_in; [apply lexsort_Permutation|exact Hx]. }
  apply in_map_iff in Hr. destruct Hr as [[r0 o] [<- Hp]].
  pose proof (Forall2_combine_In _ _ _ _ _
                (next_rows_spec S (lexsort_case_time_sorted df)) Hp) as Ho.
  apply in_combine_l in Hp.
  rewrite (gap_row_mask S r0 o HS Hp Ho) in Hm.
  destruct o as [r'|]; [|discriminate]. destruct Ho as [Hin _].
  split; [exists r0|exists r']; split; auto.
Qed.

(** ** Counts per key add up *)

Lemma list_sum_cons (a : nat) (l : list nat) :
  list_sum (a :: l) = a + list_sum l.
Proof. reflexivity. Qed.

Lemma indicator_sum_one {K : Type} (m : K -> bool) (keys : list K) (k0 : K) :
  NoDup keys -> In k0 keys -> (forall k, m k = true <-> k = k0) ->
  list_sum (map (fun k => if m k then 1 else 0) keys) = 1.
Proof.
  intros Hnd Hin Hm. induction Hnd as [|k keys Hk Hnd IH]; [contradiction|].
  cbn [map]. rewrite list_sum_cons. destruct Hin as [->|Hin].
  - rewrite (proj2 (Hm k0) eq_refl).
    assert (H0 : list_sum (map (fun k => if m k then 1 else 0) keys) = 0).
    { clear IH. induction keys as [|a keys IH]; [reflexivity|].
      cbn [map]. rewrite list_sum_cons. destruct (m a) eqn:Ea.
      - apply Hm in Ea. subst a. elim Hk. now left.
      - rewrite IH; [reflexivity| |now inversion Hnd].
        intro H. apply Hk. now right. }
    rewrite H0. reflexivity.
  - destruct (m k) eqn:Ek.
    + apply Hm in Ek. subst k. contradiction.
    + now rewrite (IH Hin).
Qed.

Lemma indicator_sum_zero {K : Type} (m : K -> bool) (keys : list K) :
  (forall k, m k = false) ->
  list_sum (map (fun k => if m k then 1 else 0) keys) = 0.
Proof.
  intro H. induction keys as [|k keys IH]; [reflexivity|].
  cbn [map]. rewrite list_sum_cons. now rewrite H, IH.
Qed.

Lemma counts_partition {K : Type} (key : Row -> option K)
      (m : K -> Row -> bool) (keys : list K) (rs : list Row) :
  (forall k r, m k r = true <-> key r = Some k) ->
  NoDup keys ->
  (forall r k, In r rs -> key r = Some k -> In k keys) ->
  list_sum (map (fun k => List.length (filter (m k) rs)) keys)
  = List.length (filter (fun r => is_some (key r)) rs).
Proof.
  intros Hm Hnd. induction rs as [|r rs IH]; intro Hin.
  - cbn [filter List.length]. clear. induction keys; simpl; auto.
  - assert (E : list_sum (map (fun k => List.length (filter (m k) (r :: rs))) keys)
                = list_sum (map (fun k => if m k r then 1 else 0) keys)
                  + list_sum (map (fun k => List.length (filter (m k) rs)) keys)).
    { rewrite <- list_sum_map_add. f_equal. apply map_ext. intro k.
      cbn [filter]. now destruct (m k r). }
    rewrite E, IH by (intros x k Hx; apply Hin; now right).
    cbn [filter]. destruct (key r) as [k0|] eqn:Ek; cbn [is_some List.length].
    + rewrite (indicator_sum_one (fun k => m k r) keys k0 Hnd).
      * reflexivity.
      * apply (Hin r k0); [now left|exact Ek].
      * intro k. rewrite Hm, Ek. split; congruence.
    + rewrite indicator_sum_zero; [reflexivity|].
      intro k. destruct (m k r) eqn:E'; [|reflexivity].
      apply Hm in E'. congruence.
Qed.

Lemma float_values_of_numbers (rs : list Row) :
  (forall r, In r rs -> exists d, delta_hours r = Fin d /\ Qle 0 d) ->
  List.length (float_values (map delta_hours rs)) = List.length rs.
Proof.
  induction rs as [|r rs IH]; intro H; [reflexivity|].
  destruct (H r (or_introl eq_refl)) as [d [Ed _]].
  cbn [map]. rewrite Ed. simpl. f_equal. apply IH.
  intros x Hx. apply H. now right.
Qed.

Lemma has_step_iff (s : string) (r : Row) :
  has_step s r = true <-> step r = Some s.
Proof.
  unfold has_step. destruct (step r) as [a|]; simpl; [|split; discriminate].
  rewrite String.eqb_eq. split; congruence.
Qed.

Lemma has_transition_iff (k : string * string) (r : Row) :
  has_transition k r = true <-> transition_key r = Some k.
Proof.
  destruct k as [a b]. unfold has_transition, transition_key. cbn [fst snd].
  destruct (step r) as [x|], (next_step r) as [y|]; simpl;
    try (split; [try rewrite andb_false_r; discriminate|discriminate]).
  rewrite andb_true_iff, !String.eqb_eq. split.
  - now intros [-> ->].
  - intro E. inversion E. auto.
Qed.

Section GapCounts.

Context {quicksort : NumpyArgsort}.

Lemma step_counts_sum (gaps : list Row) :
  (forall r, In r gaps -> exists d, delta_hours r = Fin d /\ Qle 0 d) ->
  list_sum (map (fun row : string * (nat * Float) => fst (snd row))
                (step_stats gaps))
  = List.length (filter (fun r => is_some (step r)) gaps).
Proof.
  intro Hd. unfold step_stats.
  rewrite (list_sum_Permutation _ _
             (Permutation_map _ (sort_values_by_Permutation _ _ _))).
  rewrite map_map. cbn [fst snd].
  rewrite <- (counts_partition step has_step
                (sorted_unique String.compare (present (map step gaps))) gaps).
  - f_equal. apply map_ext. intro s. apply float_values_of_numbers.
    intros r Hr. apply filter_In in Hr. now apply Hd.
  - intros k r. apply has_step_iff.
  - apply string_keys_NoDup.
  - intros r k Hr Ek.
    apply (sorted_unique_In_any String.compare string_compare_eq).
    apply present_In. rewrite <- Ek. now apply in_map.
Qed.

Lemma trans_counts_sum (gaps : list Row) :
  (forall r, In r gaps -> exists d, delta_hours r = Fin d /\ Qle 0 d) ->
  list_sum (map (fun row : (string * string) * (nat * Float) => fst (snd row))
                (trans_stats gaps))
  = List.length (filter (fun r => is_some (transition_key r)) gaps).
Proof.
  intro Hd. unfold trans_stats.
  rewrite (list_sum_Permutation _ _
             (Permutation_map _ (sort_values_by_Permutation _ _ _))).
  rewrite map_map. cbn [fst snd].
  rewrite <- (counts_partition transition_key has_transition
                (sorted_unique pair_compare
                               (present (map transition_key gaps))) gaps).
  - f_equal. apply map_ext. intro s. apply float_values_of_numbers.
    intros r Hr. apply filter_In in Hr. now apply Hd.
  - intros k r. apply has_transition_iff.
  - apply pair_keys_NoDup.
  - intros r k Hr Ek.
    apply (sorted_unique_In_any pair_compare pair_compare_eq).
    apply present_In. rewrite <- Ek. now apply in_map.
Qed.

End GapCounts.

Lemma filter_length_le_of {A : Type} (p q : A -> bool) (l : list A) :
  (forall x, In x l -> p x = true -> q x = true) ->
  List.length (filter p l) <= List.length (filter q l).
Proof.
  induction l as [|a l IH]; intro H; [reflexivity|]. cbn [filter].
  assert (Hl : forall x, In x l -> p x = true -> q x = true)
    by (intros x Hx; apply H; now right).
  specialize (IH Hl).
  destruct (p a) eqn:Ep.
  - rewrite (H a (or_introl eq_refl) Ep). simpl. lia.
  - destruct (q a); simpl; lia.
Qed.

Lemma filter_all {A : Type} (p : A -> bool) (l : list A) :
  (forall x, In x l -> p x = true) -> filter p l = l.
Proof.
  induction l as [|a l IH]; intro H; [reflexivity|]. cbn [filter].
  rewrite (H a (or_introl eq_refl)). f_equal. apply IH.
  intros x Hx. apply H. now right.
Qed.

Section DurationCounts.

Context {quicksort : NumpyArgsort}.
Variable parse_datetime : string -> option Z.

(** X11 -- The counts of a KPI result add up.  Write [gaps] for the number of
    rows with a usable timestamp and a case id, less the number of their
    cases.  The counts of [steps_duration] add up to at most [gaps], those of
    [transitions_duration] to at most as much as those of [steps_duration];
    when every row with a usable timestamp has a step, both sums are
    [gaps]. *)
Theorem duration_counts_add_up (e : DataFrame) :
  match compute_kpis parse_datetime e with
  | NoTimestamp => True
  | WithTimestamp _ sd _ td _ =>
      let usable_rows := dropna_timestamp (kpi_frame parse_datetime e) in
      let gaps := List.length (filter has_case usable_rows)
                  - nunique (map case_id usable_rows) in
      list_sum (map td_count td) <= list_sum (map sd_count sd)
      /\ list_sum (map sd_count sd) <= gaps
      /\ ((forall r, In r usable_rows -> step r <> None) ->
          list_sum (map sd_count sd) = gaps
          /\ list_sum (map td_count td) = gaps)
  end.
Proof.
  unfold compute_kpis.
  destruct (negb (has_column "timestamp" e)); [exact I|].
  destruct (forallb isna (map timestamp (kpi_frame parse_datetime e)));
    [exact I|].
  set (U := dropna_timestamp (kpi_frame parse_datetime e)).
  set (kept := duration_rows U). cbv zeta.
  pose proof (usable_rows_all_datetime parse_datetime e) as Hall. fold U in Hall.
  assert (Hd : forall r, In r kept -> exists d, delta_hours r = Fin d /\ Qle 0 d).
  { intros r Hr. exact (duration_rows_delta U r Hall Hr). }
  rewrite !map_map. cbn [sd_count td_count].
  rewrite (step_counts_sum kept Hd), (trans_counts_sum kept Hd).
  pose proof (kept_gaps_count U Hall) as Hn. fold kept in Hn.
  split; [|split].
  - apply filter_length_le_of. intros r _. unfold transition_key.
    destruct (step r); [reflexivity|discriminate].
  - pose proof (filter_length_le (fun r => is_some (step r)) kept). lia.
  - intro Hs.
    assert (H1 : forall r, In r kept -> is_some (step r) = true).
    { intros r Hr. destruct (duration_rows_steps U r Hall Hr) as [[r0 [H0 E0]] _].
      rewrite E0. specialize (Hs r0 H0). now destruct (step r0). }
    assert (H2 : forall r, In r kept -> is_some (transition_key r) = true).
    { intros r Hr.
      destruct (duration_rows_steps U r Hall Hr) as [[r0 [H0 E0]] [r1 [H1' E1]]].
      unfold transition_key. rewrite E0, E1.
      pose proof (Hs r0 H0). pose proof (Hs r1 H1').
      destruct (step r0), (step r1); congruence || reflexivity. }
    rewrite (filter_all _ kept H1), (filter_all _ kept H2). lia.
Qed.

End DurationCounts.

(** ** Cases of a single event *)

Lemma one_row_per_case (rs : list Row) (a b : Row) (c : Z) :
  NoDup (present (map case_id rs)) ->
  In a rs -> In b rs -> case_id a = Some c -> case_id b = Some c -> a = b.
Proof.
  induction rs as [|r rs IH]; intros Hnd Ha Hb Eca Ecb; [contradiction|].
  assert (Hin : forall x, In x rs -> case_id x = Some c ->
                          In c (present (map case_id rs))).
  { intros x Hx Ex. apply present_In. rewrite <- Ex. now apply in_map. }
  cbn [map] in Hnd.
  destruct Ha as [->|Ha], Hb as [->|Hb]; [reflexivity| | |].
  - rewrite Eca in Hnd. apply NoDup_cons_iff in Hnd. destruct Hnd as [Hn _].
    elim Hn. now apply (Hin b).
  - rewrite Ecb in Hnd. apply NoDup_cons_iff in Hnd. destruct Hnd as [Hn _].
    elim Hn. now apply (Hin a).
  - apply IH; auto. destruct (case_id r); [|exact Hnd].
    now apply NoDup_cons_iff in Hnd.
Qed.

Lemma present_has_case (rs : list Row) :
  List.length (present (map case_id rs)) = List.length (filter has_case rs).
Proof.
  induction rs as [|r rs IH]; [reflexivity|]. cbn [map filter].
  unfold has_case at 1. destruct (case_id r); simpl; now rewrite <- IH.
Qed.

Lemma Qsum_zeros (l : list Q) : (forall x, In x l -> x = 0%Q) -> Qeq (Qsum l) 0.
Proof.
  intro H.
  destruct (Qsum_bounds l 0 0) as [L U].
  { intros x Hx. rewrite (H x Hx). split; apply Qle_refl. }
  apply Qle_antisym.
  - eapply Qle_trans; [exact U|]. lra.
  - eapply Qle_trans; [|exact L]. lra.
Qed.

Lemma aggregates_of_zeros (l : list Float) :
  l <> [] -> (forall x, In x l -> x = Fin 0) ->
  mean l = Fin 0 /\ float_min l = Fin 0 /\ float_max l = Fin 0.
Proof.
  intros Hne H.
  assert (Hz : forall x, In x (float_values l) -> x = 0%Q).
  { intros x Hx. apply float_values_In in Hx. apply H in Hx. congruence. }
  unfold mean, float_min, float_max.
  destruct (float_values l) as [|q qs] eqn:E.
  - destruct l as [|x l]; [now elim Hne|].
    assert (Hx : In 0%Q (float_values (x :: l))).
    { apply float_values_In. rewrite <- (H x (or_introl eq_refl)). now left. }
    rewrite E in Hx. contradiction.
  - repeat split; f_equal.
    + change 0%Q with (Qred 0). apply Qred_complete.
      rewrite (Qsum_zeros (q :: qs) Hz). reflexivity.
    + apply Hz. apply (proj1 (fold_Qmin_spec qs q)).
    + apply Hz. apply (proj1 (fold_Qmax_spec qs q)).
Qed.

Section SingleEvents.

Context {quicksort : NumpyArgsort}.
Variable parse_datetime : string -> option Z.

(** X12 -- When no two rows with a usable timestamp share a case id, no gap
    is measured: the four duration lists of the KPI result are empty, and the
    three cycle times are 0.0 (or null, when no such row has a case id). *)
Theorem single_event_cases_take_no_time (e : DataFrame) :
  NoDup (present (map case_id (dropna_timestamp (kpi_frame parse_datetime e)))) ->
  match compute_kpis parse_datetime e with
  | NoTimestamp => True
  | WithTimestamp ct sd ss td st =>
      sd = [] /\ ss = [] /\ td = [] /\ st = []
      /\ (ct = mkCycleTime None None None
          \/ ct = mkCycleTime (Some (Fin 0)) (Some (Fin 0)) (Some (Fin 0)))
  end.
Proof.
  intro Hnd. unfold compute_kpis.
  destruct (negb (has_column "timestamp" e)); [exact I|].
  destruct (forallb isna (map timestamp (kpi_frame parse_datetime e)));
    [exact I|].
  set (U := dropna_timestamp (kpi_frame parse_datetime e)) in *.
  pose proof (usable_rows_all_datetime parse_datetime e) as Hall. fold U in Hall.
  assert (Hk : duration_rows U = []).
  { pose proof (kept_gaps_count U Hall) as Hn.
    unfold nunique in Hn. rewrite (nodup_fixed_point Z.eq_dec Hnd) in Hn.
    rewrite present_has_case in Hn.
    destruct (duration_rows U); [reflexivity|simpl in Hn; lia]. }
  cbv zeta. rewrite Hk.
  assert (S1 : step_stats [] = []) by apply take_nil.
  assert (S2 : trans_stats [] = []) by apply take_nil.
  rewrite S1, S2. cbn [map firstn].
  repeat (split; [reflexivity|]).
  destruct (cycle_table U) as [|c0 cs] eqn:Ec; [now left|right].
  assert (Hz : forall x, In x (map cycle_delta_hours (c0 :: cs)) -> x = Fin 0).
  { intros x Hx. apply in_map_iff in Hx. destruct Hx as [c [<- Hc]].
    rewrite <- Ec in Hc.
    destruct (cycle_table_spec U c Hall Hc)
      as [lo [hi [_ [_ [Ed [_ [[a [Ha [Eca Eta]]] [[b [Hb [Ecb Etb]]] _]]]]]]]].
    assert (E : a = b) by exact (one_row_per_case U a b _ Hnd Ha Hb Eca Ecb).
    subst b. rewrite Eta in Etb. inversion Etb; subst hi.
    rewrite Ed, Z.sub_diag. reflexivity. }
  destruct (aggregates_of_zeros (map cycle_delta_hours (c0 :: cs)))
    as [E1 [E2 E3]]; [discriminate|exact Hz|].
  cbn [List.length Nat.ltb Nat.leb option_map]. rewrite E1, E2, E3.
  reflexivity.
Qed.

End SingleEvents.

(** ** Which steps get a duration *)



Section ListedSteps.

Context {quicksort : NumpyArgsort}.
Variable parse_datetime : string -> option Z.


End ListedSteps.

(** * Accounts and sessions *)

Section AuthFacts.

Context {hashlib : Hashlib}.

Lemma NoDup_snoc {A : Type} (l : list A) (x : A) :
  NoDup l -> ~ In x l -> NoDup (l ++ [x]).
Proof.
  intros Hl Hx. eapply Permutation_NoDup; [apply Permutation_cons_append|].
  now constructor.
Qed.

Lemma next_rowid_fresh (db : Database) (u : UserRow) :
  In u (users db) -> (u_id u < next_rowid db)%Z.
Proof.
  unfold next_rowid. generalize (users_seq db).
  induction (users db) as [|a l IH]; intros z Hu; [contradiction|].
  cbn [map fold_right]. destruct Hu as [->|Hu]; [lia|].
  specialize (IH z Hu). lia.
Qed.

Lemma next_rowid_above_seq (db : Database) : (users_seq db < next_rowid db)%Z.
Proof.
  unfold next_rowid. induction (users db) as [|a l IH]; cbn [map fold_right]; lia.
Qed.

Lemma email_taken_iff (email : string) (db : Database) :
  existsb (fun u => String.eqb (u_email u) email) (users db) = true
  <-> In email (map u_email (users db)).
Proof.
  rewrite existsb_exists, in_map_iff. split.
  - intros [u [Hu E]]. apply String.eqb_eq in E. now exists u.
  - intros [u [E Hu]]. exists u. split; [exact Hu|]. now apply String.eqb_eq.
Qed.

Lemma insert_user_ok (email h now : string) (db db' : Database) :
  db_ok db -> insert_user email h now db = Some db' -> db_ok db'.
Proof.
  intros [He [Hi [Ht [Hq Hs]]]]. unfold insert_user.
  destruct (existsb _ (users db)) eqn:Ex; [discriminate|].
  intro E. inversion E; subst db'. clear E. unfold db_ok. cbn [users sessions users_seq].
  rewrite !map_app. cbn [map u_email u_id].
  repeat split.
  - apply NoDup_snoc; [exact He|]. intro H.
    apply email_taken_iff in H. congruence.
  - apply NoDup_snoc; [exact Hi|]. intro H. apply in_map_iff in H.
    destruct H as [u [E Hu]]. pose proof (next_rowid_fresh db u Hu). lia.
  - exact Ht.
  - intros u Hu. apply in_app_or in Hu. destruct Hu as [Hu|[<-|[]]].
    + pose proof (next_rowid_fresh db u Hu). lia.
    + cbn [u_id]. lia.
  - intros s Hs'. destruct (Hs s Hs') as [u [Hu E]]. exists u.
    split; [apply in_or_app; now left|exact E].
Qed.

Lemma select_user_by_email_In (email : string) (db : Database) (row : UserRow) :
  fetchone (select_user_by_email email db) = Some row ->
  In row (users db) /\ u_email row = email.
Proof.
  unfold fetchone, select_user_by_email. intro H.
  assert (Hin : In row (filter (fun u => String.eqb (u_email u) email) (users db))).
  { destruct (filter _ (users db)); [discriminate|].
    inversion H. now left. }
  apply filter_In in Hin. destruct Hin as [Hin E].
  split; [exact Hin|now apply String.eqb_eq].
Qed.

Lemma insert_session_ok (s : SessionRow) (db : Database) :
  db_ok db ->
  (exists u, In u (users db) /\ u_id u = s_user_id s) ->
  db_ok (insert_or_replace_session s db).
Proof.
  intros [He [Hi [Ht [Hq Hs]]]] Hu. unfold db_ok, insert_or_replace_session.
  cbn [users sessions users_seq]. repeat split; try assumption.
  - rewrite map_app. cbn [map]. apply NoDup_snoc.
    + clear Hs. induction (sessions db) as [|a l IH]; [constructor|].
      cbn [map] in Ht. apply NoDup_cons_iff in Ht. destruct Ht as [Ha Hl].
      cbn [filter]. destruct (negb (String.eqb (s_token a) (s_token s)));
        [|now apply IH].
      cbn [map]. constructor; [|now apply IH].
      intro H. apply Ha. apply in_map_iff in H. destruct H as [x [E Hx]].
      apply filter_In in Hx. rewrite <- E. apply in_map. tauto.
    + intro H. apply in_map_iff in H. destruct H as [x [E Hx]].
      apply filter_In in Hx. destruct Hx as [_ Hx]. rewrite E in Hx.
      rewrite String.eqb_refl in Hx. discriminate.
  - intros x Hx. apply in_app_or in Hx. destruct Hx as [Hx|[<-|[]]].
    + apply filter_In in Hx. now apply Hs.
    + exact Hu.
Qed.

Lemma register_ok (email password now : string) (db : Database) :
  db_ok db -> db_ok (snd (register email password now db)).
Proof.
  intro H. unfold register.
  destruct (String.length password <? 6); [exact H|].
  destruct (insert_user _ _ _ db) as [db'|] eqn:E; [|exact H].
  exact (insert_user_ok _ _ _ db db' H E).
Qed.

Lemma login_ok (email password token_hex now : string) (db : Database) :
  db_ok db -> db_ok (snd (login email password token_hex now db)).
Proof.
  intro H. unfold login.
  destruct (fetchone (select_user_by_email email db)) as [row|] eqn:E;
    [|exact H].
  destruct (negb (verify_password password (u_password_hash row))); [exact H|].
  cbn [snd]. apply insert_session_ok; [exact H|].
  exists row. split; [|reflexivity].
  now apply (select_user_by_email_In email db row).
Qed.

Lemma serve_ok (db : Database) (q : Request) : db_ok db -> db_ok (serve db q).
Proof.
  intro H. destruct q; [now apply register_ok|now apply login_ok].
Qed.

Lemma run_ok (qs : list Request) (db : Database) :
  db_ok db -> db_ok (run qs db).
Proof.
  unfold run. revert db.
  induction qs as [|q qs IH]; intros db Hdb; [exact Hdb|].
  cbn [fold_left]. apply IH. now apply serve_ok.
Qed.

Lemma init_db_ok : db_ok init_db.
Proof.
  unfold db_ok, init_db. cbn. repeat split; try constructor; contradiction.
Qed.

(** X14 -- Whatever registrations and logins the service has answered since
    [init_db] made its tables: no two users share an email or an id, no two
    sessions share a token, and every session belongs to a user of the
    table. *)
Theorem accounts_and_sessions_stay_consistent (qs : list Request) :
  let db := run qs init_db in
  NoDup (map u_email (users db))
  /\ NoDup (map u_id (users db))
  /\ NoDup (map s_token (sessions db))
  /\ (forall s, In s (sessions db) ->
                exists u, In u (users db) /\ u_id u = s_user_id s).
Proof.
  cbv zeta.
  destruct (run_ok qs init_db init_db_ok) as [He [Hi [Ht [_ Hs]]]]. auto.
Qed.

(** The join of [get_current_user], in a consistent database. *)
Lemma select_session_user_spec (token : string) (db : Database)
      (row : Z * string) :
  db_ok db ->
  (fetchone (select_session_user token db) = Some row
   <-> exists s u, In s (sessions db) /\ In u (users db)
                   /\ s_token s = token /\ u_id u = s_user_id s
                   /\ row = (u_id u, u_email u)).
Proof.
  intros [He [Hi [Ht [Hq Hs]]]].
  assert (Hin : forall x, In x (select_session_user token db)
                <-> exists s u, In s (sessions db) /\ In u (users db)
                                /\ s_token s = token /\ u_id u = s_user_id s
                                /\ x = (u_id u, u_email u)).
  { intro x. unfold select_session_user. rewrite in_flat_map. split.
    - intros [s [Hs' Hx]].
      destruct (String.eqb (s_token s) token) eqn:E; [|contradiction].
      apply String.eqb_eq in E. apply in_map_iff in Hx.
      destruct Hx as [u [<- Hu]]. apply filter_In in Hu.
      destruct Hu as [Hu Ei]. apply Z.eqb_eq in Ei. exists s, u. auto.
    - intros [s [u [Hs' [Hu [E [Ei ->]]]]]]. exists s. split; [exact Hs'|].
      rewrite (proj2 (String.eqb_eq _ _) E). apply in_map_iff. exists u.
      split; [reflexivity|]. apply filter_In. split; [exact Hu|].
      now apply Z.eqb_eq. }
  assert (Huniq : forall x y, In x (select_session_user token db) ->
                              In y (select_session_user token db) -> x = y).
  { intros x y Hx Hy. apply Hin in Hx. apply Hin in Hy.
    destruct Hx as [s [u [Hs1 [Hu1 [E1 [I1 ->]]]]]].
    destruct Hy as [s' [u' [Hs2 [Hu2 [E2 [I2 ->]]]]]].
    assert (Es : s = s').
    { clear - Ht Hs1 Hs2 E1 E2. subst token.
      induction (sessions db) as [|a l IH]; [contradiction|].
      cbn [map] in Ht. apply NoDup_cons_iff in Ht. destruct Ht as [Ha Hl].
      destruct Hs1 as [->|H1], Hs2 as [->|H2]; [reflexivity| | |now apply IH].
      - elim Ha. rewrite <- E2. now apply in_map.
      - elim Ha. rewrite E2. now apply in_map. }
    subst s'.
    assert (Eu : u = u').
    { assert (Ei : u_id u = u_id u') by congruence.
      clear - Hi Hu1 Hu2 Ei.
      induction (users db) as [|a l IH]; [contradiction|].
      cbn [map] in Hi. apply NoDup_cons_iff in Hi. destruct Hi as [Ha Hl].
      destruct Hu1 as [->|H1], Hu2 as [->|H2]; [reflexivity| | |now apply IH].
      - elim Ha. rewrite Ei. now apply in_map.
      - elim Ha. rewrite <- Ei. now apply in_map. }
    now subst u'. }
  unfold fetchone. split.
  - intro H. apply Hin. destruct (select_session_user token db);
      [discriminate|]. inversion H. now left.
  - intro H. apply Hin in H.
    destruct (select_session_user token db) as [|x l]; [contradiction|].
    cbn [hd_error]. f_equal. apply Huniq; [now left|exact H].
Qed.

(** X15 -- [get_current_user] lets a request through exactly when it carries
    a token that is not empty and is the token of a session of a user; it
    then answers with the id and the email of that user.  Every other
    request gets status 401. *)
Theorem current_user_iff_session (x_auth_token : option string)
        (db : Database) :
  db_ok db ->
  (forall id email,
      get_current_user x_auth_token db = inr (id, email)
      <-> exists token s u,
            x_auth_token = Some token /\ token <> ""
            /\ In s (sessions db) /\ s_token s = token
            /\ In u (users db) /\ u_id u = s_user_id s
            /\ id = u_id u /\ email = u_email u)
  /\ (forall err, get_current_user x_auth_token db = inl err ->
                  status_code err = 401).
Proof.
  intro Hok. split.
  - intros id email. unfold get_current_user.
    destruct x_auth_token as [token|].
    + destruct (String.eqb token "") eqn:E.
      * apply String.eqb_eq in E. split; [discriminate|].
        intros [t [s [u [Et [Hne _]]]]]. inversion Et; subst t. contradiction.
      * apply String.eqb_neq in E.
        pose proof (select_session_user_spec token db (id, email) Hok) as Sp.
        destruct (fetchone (select_session_user token db)) as [row|].
        -- split.
           ++ intro H. inversion H; subst row.
              destruct (proj1 Sp eq_refl) as [s [u [Hs [Hu [Et [Ei Er]]]]]].
              inversion Er. exists token, s, u. repeat split; auto.
           ++ intros [t [s [u [Et [_ [Hs [Es [Hu [Ei [-> ->]]]]]]]]]].
              inversion Et; subst t. f_equal. symmetry.
              assert (Some row = Some (u_id u, u_email u)) as Hr
                  by (apply Sp; exists s, u; auto).
              now inversion Hr.
        -- split; [discriminate|].
           intros [t [s [u [Et [_ [Hs [Es [Hu [Ei [-> ->]]]]]]]]]].
           inversion Et; subst t.
           assert (None = Some (u_id u, u_email u)) as Hr
               by (apply Sp; exists s, u; auto).
           discriminate.
    + split; [discriminate|]. intros [t [s [u [Et _]]]]. discriminate.
  - intros err. unfold get_current_user.
    destruct x_auth_token as [token|]; [|intro H; now inversion H].
    destruct (String.eqb token ""); [intro H; now inversion H|].
    destruct (fetchone _); intro H; now inversion H.
Qed.

(** X16 -- [register] refuses, with status 400, exactly a password of fewer
    than 6 characters and an email that has an account; it then leaves the
    database as it was.  Otherwise it answers with the email and adds one
    user, with that email and the hash of the password. *)
Theorem register_refuses_iff (email password now : string) (db : Database) :
  let answer := fst (register email password now db) in
  let db' := snd (register email password now db) in
  ((exists err, answer = inl err)
   <-> String.length password < 6 \/ In email (map u_email (users db)))
  /\ (forall err, answer = inl err -> status_code err = 400 /\ db' = db)
  /\ (forall x, answer = inr x ->
        x = email
        /\ sessions db' = sessions db
        /\ exists id, users db'
                      = users db
                        ++ [mkUserRow id email (hash_password password) now]).
Proof.
  cbv zeta. unfold register.
  destruct (String.length password <? 6) eqn:El.
  - apply Nat.ltb_lt in El. cbn [fst snd]. split; [|split].
    + split; [intros _; now left|intros _; eexists; reflexivity].
    + intros err H. inversion H. now split.
    + intros x H. discriminate.
  - apply Nat.ltb_ge in El. unfold insert_user.
    destruct (existsb _ (users db)) eqn:Ex; cbn [fst snd].
    + apply email_taken_iff in Ex. split; [|split].
      * split; [intros _; now right|intros _; eexists; reflexivity].
      * intros err H. inversion H. now split.
      * intros x H. discriminate.
    + assert (Hn : ~ In email (map u_email (users db))).
      { intro H. apply email_taken_iff in H. congruence. }
      split; [|split].
      * split; [intros [err H]; discriminate|].
        intros [H|H]; [lia|contradiction].
      * intros err H. discriminate.
      * intros x H. inversion H. split; [reflexivity|].
        split; [reflexivity|]. eexists. reflexivity.
Qed.

Lemma select_user_by_email_spec (email : string) (db : Database) :
  NoDup (map u_email (users db)) ->
  forall u, In u (users db) -> u_email u = email ->
            fetchone (select_user_by_email email db) = Some u.
Proof.
  intros Hnd u Hu E. unfold fetchone, select_user_by_email.
  induction (users db) as [|a l IH]; [contradiction|].
  cbn [map] in Hnd. apply NoDup_cons_iff in Hnd. destruct Hnd as [Ha Hl].
  cbn [filter]. destruct Hu as [->|Hu].
  - rewrite (proj2 (String.eqb_eq _ _) E). reflexivity.
  - destruct (String.eqb (u_email a) email) eqn:Ea; [|now apply IH].
    apply String.eqb_eq in Ea. elim Ha. rewrite Ea, <- E. now apply in_map.
Qed.

(** X17 -- [login] succeeds exactly when the email has an account whose
    stored hash is the hash of the password; it then answers with the token
    it drew and the email, and only the sessions change: the session of that
    token now belongs to that account.  Every refusal has status 401 and
    leaves the database as it was. *)
Theorem login_succeeds_iff (email password token_hex now : string)
        (db : Database) :
  db_ok db ->
  let answer := fst (login email password token_hex now db) in
  let db' := snd (login email password token_hex now db) in
  ((exists x, answer = inr x)
   <-> exists u, In u (users db) /\ u_email u = email
                 /\ u_password_hash u = hash_password password)
  /\ (forall err, answer = inl err -> status_code err = 401 /\ db' = db)
  /\ (forall x, answer = inr x ->
        x = (token_hex, email)
        /\ users db' = users db
        /\ exists u, In u (users db) /\ u_email u = email
                     /\ In (mkSessionRow token_hex (u_id u) now) (sessions db')).
Proof.
  intros Hok. cbv zeta. unfold login.
  destruct Hok as [He _].
  destruct (fetchone (select_user_by_email email db)) as [row|] eqn:Ef.
  - destruct (select_user_by_email_In email db row Ef) as [Hrow Erow].
    unfold verify_password.
    destruct (String.eqb (hash_password password) (u_password_hash row)) eqn:Ev;
      cbn [negb fst snd].
    + apply String.eqb_eq in Ev. split; [|split].
      * split; [intros _; exists row; auto|intros _; eexists; reflexivity].
      * intros err H. discriminate.
      * intros x H. inversion H. split; [reflexivity|].
        split; [reflexivity|]. exists row. repeat split; auto.
        unfold insert_or_replace_session. cbn [sessions].
        apply in_or_app. right. now left.
    + apply String.eqb_neq in Ev. split; [|split].
      * split; [intros [x H]; discriminate|].
        intros [u [Hu [Eu Eh]]]. exfalso.
        pose proof (select_user_by_email_spec email db He u Hu Eu) as Hf.
        rewrite Ef in Hf. inversion Hf; subst u. congruence.
      * intros err H. inversion H. now split.
      * intros x H. discriminate.
  - cbn [fst snd]. split; [|split].
    + split; [intros [x H]; discriminate|].
      intros [u [Hu [Eu Eh]]]. exfalso.
      pose proof (select_user_by_email_spec email db He u Hu Eu) as Hf.
      rewrite Ef in Hf. discriminate.
    + intros err H. inversion H. now split.
    + intros x H. discriminate.
Qed.

Lemma current_user_of_session (db : Database) (s : SessionRow) (u : UserRow) :
  db_ok db -> In s (sessions db) -> In u (users db) ->
  u_id u = s_user_id s -> s_token s <> "" ->
  get_current_user (Some (s_token s)) db = inr (u_id u, u_email u).
Proof.
  intros Hok Hs Hu Ei Hne. unfold get_current_user.
  rewrite (proj2 (String.eqb_neq _ _) Hne).
  assert (E : fetchone (select_session_user (s_token s) db)
              = Some (u_id u, u_email u)).
  { apply (select_session_user_spec _ _ _ Hok). exists s, u. auto. }
  now rewrite E.
Qed.

(** X18 -- A new account can be used at once: after [register] has taken an
    email that had no account, with a password of 6 characters or more,
    [login] with the same email and password succeeds, and
    [get_current_user] accepts the token it hands out as that of this
    email. *)
Theorem a_new_account_can_log_in (email password now token_hex now' : string)
        (db : Database) :
  db_ok db ->
  6 <= String.length password ->
  ~ In email (map u_email (users db)) ->
  token_hex <> "" ->
  let db1 := snd (register email password now db) in
  let db2 := snd (login email password token_hex now' db1) in
  fst (register email password now db) = inr email
  /\ fst (login email password token_hex now' db1) = inr (token_hex, email)
  /\ exists id, get_current_user (Some token_hex) db2 = inr (id, email).
Proof.
  intros Hok Hlen Hnew Htok. cbv zeta.
  pose proof (register_ok email password now db Hok) as Hok1.
  unfold register in *.
  rewrite (proj2 (Nat.ltb_ge _ _) Hlen) in *.
  unfold insert_user in *.
  destruct (existsb _ (users db)) eqn:Ex.
  { apply email_taken_iff in Ex. contradiction. }
  cbn [fst snd] in *.
  set (id := next_rowid db) in *.
  set (u := mkUserRow id email (hash_password password) now) in *.
  set (db1 := mkDatabase (users db ++ [u]) (sessions db) id) in *.
  split; [reflexivity|].
  assert (Hu : In u (users db1)).
  { cbn [db1 users]. apply in_or_app. right. now left. }
  pose proof (login_ok email password token_hex now' db1 Hok1) as Hok2.
  unfold login in *.
  rewrite (select_user_by_email_spec email db1 (proj1 Hok1) u Hu eq_refl) in *.
  unfold verify_password in *. cbn [u u_password_hash] in *.
  rewrite String.eqb_refl in *. cbn [negb fst snd u_id] in *.
  split; [reflexivity|]. exists id.
  set (s := mkSessionRow token_hex id now') in *.
  apply (current_user_of_session _ s u Hok2).
  - unfold insert_or_replace_session. cbn [sessions].
    apply in_or_app. right. now left.
  - exact Hu.
  - reflexivity.
  - exact Htok.
Qed.

Lemma serve_keeps_users (db : Database) (q : Request) (u : UserRow) :
  In u (users db) -> In u (users (serve db q)).
Proof.
  intro Hu. destruct q as [e p n|e p t n]; cbn [serve].
  - unfold register. destruct (String.length p <? 6); [exact Hu|].
    unfold insert_user. destruct (existsb _ (users db)); [exact Hu|].
    cbn [snd users]. apply in_or_app. now left.
  - unfold login. destruct (fetchone _); [|exact Hu].
    destruct (negb _); exact Hu.
Qed.

Lemma serve_keeps_sessions (db : Database) (q : Request) (s : SessionRow) :
  In s (sessions db) -> ~ draws (s_token s) q -> In s (sessions (serve db q)).
Proof.
  intros Hs Hq. destruct q as [e p n|e p t n]; cbn [serve].
  - unfold register. destruct (String.length p <? 6); [exact Hs|].
    unfold insert_user. destruct (existsb _ (users db)); exact Hs.
  - unfold login. destruct (fetchone _); [|exact Hs].
    destruct (negb _); [exact Hs|].
    cbn [snd insert_or_replace_session sessions s_token].
    apply in_or_app. left. apply filter_In. split; [exact Hs|].
    cbn [draws] in Hq. apply negb_true_iff. apply String.eqb_neq.
    intro E. apply Hq. now symmetry.
Qed.

(** X19 -- A session does not end: once [get_current_user] accepts a token,
    it accepts it after any further registrations and logins, for the same
    user, as long as no later login draws the very same token. *)
Theorem a_session_does_not_expire (token : string) (user : Z * string)
        (qs : list Request) (db : Database) :
  db_ok db ->
  get_current_user (Some token) db = inr user ->
  (forall q, In q qs -> ~ draws token q) ->
  get_current_user (Some token) (run qs db) = inr user.
Proof.
  unfold run. revert db. induction qs as [|q qs IH]; intros db Hok Hu Hq;
    [exact Hu|].
  cbn [fold_left]. apply IH.
  - now apply serve_ok.
  - unfold get_current_user in Hu.
    destruct (String.eqb token "") eqn:E; [discriminate|].
    apply String.eqb_neq in E.
    destruct (fetchone (select_session_user token db)) as [row|] eqn:Ef;
      [|discriminate].
    inversion Hu; subst row.
    apply (select_session_user_spec _ _ _ Hok) in Ef.
    destruct Ef as [s [u [Hs [Hin [Et [Ei ->]]]]]]. subst token.
    apply current_user_of_session; auto.
    + now apply serve_ok.
    + apply serve_keeps_sessions; [exact Hs|]. apply Hq. now left.
    + now apply serve_keeps_users.
  - intros q' Hq'. apply Hq. now right.
Qed.

End AuthFacts.

(** * The endpoints that read a file *)

Section EndpointFacts.

Context {quicksort : NumpyArgsort}.
Variable parse_datetime : string -> option Z.

(** [str.lower()] *)
Variable lower : string -> string.

(** The call of the language model behind [generate_ai_report]: the report,
    or [None] when the call raises. *)
Variable generate_ai_report : Stats -> Graph -> option string.


(** X21 -- [/analyze_with_ai] refuses exactly the requests [/analyze]
    refuses, with the same error; on the others it answers with the very
    analysis [/analyze] gives and the report written for its [stats] and
    [graph], or with status 500 when the report cannot be had. *)
Theorem analyze_with_ai_follows_analyze (x_auth_token : option string)
        (db : Database) (file : UploadFile) :
  analyze_process_with_ai parse_datetime lower generate_ai_report
                          x_auth_token db file
  = match analyze_process parse_datetime lower x_auth_token db file with
    | Answer result =>
        match generate_ai_report (stats result) (graph result) with
        | None => Raised (HTTP 500 report_failed)
        | Some report => Answer (result, report)
        end
    | Raised err => Raised err
    | Uncaught e => Uncaught e
    end.
Proof.
  unfold analyze_process_with_ai, analyze_process.
  destruct (get_current_user x_auth_token db); [reflexivity|]. cbv zeta.
  destruct (negb (existsb _ _)); [reflexivity|].
  destruct (if endswith _ ".csv" then read_csv file else read_excel file)
    as [df|]; [|reflexivity].
  destruct (negb (issubset _ df)); [reflexivity|].
  now destruct (analyze_dataframe parse_datetime df).
Qed.

(** X22 -- [/detect_columns] never answers with status 400: a request with a
    valid session gets the columns of the file, at least one, or status 500,
    also for a file that is neither CSV nor Excel and for a table without
    columns.  The columns come from [read_csv] only for a name that ends in
    [.csv] as it is written, capitals not folded. *)
Theorem detect_columns_never_answers_400 (x_auth_token : option string)
        (db : Database) (file : UploadFile) :
  match detect_columns x_auth_token db file with
  | Answer cols =>
      cols <> []
      /\ exists name df,
           filename file = Some name /\ cols = columns df
           /\ ((endswith name ".csv" = true /\ read_csv file = Some df)
               \/ (endswith name ".csv" = false
                   /\ (endswith name ".xls" = true
                       \/ endswith name ".xlsx" = true)
                   /\ read_excel file = Some df))
  | Raised err =>
      match get_current_user x_auth_token db with
      | inl e => err = e /\ status_code err = 401
      | inr _ => status_code err = 500
      end
  | Uncaught _ => False
  end.
Proof.
  unfold detect_columns.
  destruct (get_current_user x_auth_token db) as [err|user] eqn:Eu.
  - split; [reflexivity|].
    unfold get_current_user in Eu.
    destruct x_auth_token as [t|]; [|now inversion Eu].
    destruct (String.eqb t ""); [now inversion Eu|].
    destruct (fetchone _); now inversion Eu.
  - cbv zeta. destruct (filename file) as [name|]; [|reflexivity].
    destruct (endswith name ".csv") eqn:E1.
    + destruct (read_csv file) as [df|]; [|reflexivity].
      destruct (columns df) as [|c cs] eqn:Ec; [reflexivity|].
      cbn [List.length Nat.eqb]. split; [discriminate|].
      exists name, df. rewrite Ec.
      split; [reflexivity|]. split; [reflexivity|]. left. now split.
    + destruct (endswith name ".xls" || endswith name ".xlsx") eqn:E2;
        [|reflexivity].
      destruct (read_excel file) as [df|]; [|reflexivity].
      destruct (columns df) as [|c cs] eqn:Ec; [reflexivity|].
      cbn [List.length Nat.eqb]. split; [discriminate|].
      exists name, df. rewrite Ec. apply orb_true_iff in E2.
      split; [reflexivity|]. split; [reflexivity|]. right.
      split; [exact E1|]. now split.
Qed.

Variable renamed_rows : list (string * string) -> DataFrame -> list Row.

Lemma rename_both_roles (c name : string) :
  rename (dict_set c "step" (dict_set c "case_id" [])) name
  = if String.eqb c name then "step" else name.
Proof.
  unfold dict_set, rename. cbn [existsb app fst]. rewrite String.eqb_refl.
  cbn [orb map fst find]. rewrite String.eqb_refl. cbn [fst snd].
  now destruct (String.eqb c name).
Qed.

(** X23 -- [/analyze_mapped] fails on one column given in both roles: when
    [case_col] and [step_col] name the same column of the file (and no
    timestamp column is mapped), the second key of [rename_map] overwrites
    the first, the renamed table has no [case_id] column unless the file had
    another column of that name, and the request, which passed every check
    of the endpoint, ends in the schema error of [analyze_dataframe], which
    nothing catches. *)
Theorem one_column_in_both_roles_fails
        (x_auth_token : option string) (db : Database) (file : UploadFile)
        (user : Z * string) (df : DataFrame) (col ts_col : string)
        (use_ai : bool) :
  let name := lower match filename file with Some n => n | None => "" end in
  get_current_user x_auth_token db = inr user ->
  existsb (endswith name) [".csv"; ".xls"; ".xlsx"] = true ->
  (if endswith name ".csv" then read_csv file else read_excel file)
  = Some df ->
  has_column col df = true ->
  ts_col = "" \/ has_column ts_col df = false ->
  has_column "case_id" df = false \/ col = "case_id" ->
  analyze_mapped parse_datetime lower generate_ai_report renamed_rows
                 x_auth_token db file col col ts_col use_ai
  = Uncaught (ValueError schema_message).
Proof.
  intros name Hu Hext Hread Hcol Hts Hid. unfold analyze_mapped.
  rewrite Hu. cbv zeta. fold name. rewrite Hext, Hread. cbn [negb filter].
  rewrite Hcol. cbn [negb List.length Nat.eqb].
  assert (Ets : negb (String.eqb ts_col "") && has_column ts_col df = false).
  { destruct Hts as [E | E]; rewrite E; [reflexivity|apply andb_false_r]. }
  rewrite Ets.
  set (m := dict_set col "step" (dict_set col "case_id" [])).
  assert (Hno : has_column "case_id"
                  (mkDataFrame (map (rename m) (columns df))
                               (renamed_rows m df)) = false).
  { unfold has_column. cbn [columns]. apply not_true_is_false. intro H.
    apply existsb_exists in H. destruct H as [x [Hx Ex]].
    apply String.eqb_eq in Ex. subst x. apply in_map_iff in Hx.
    destruct Hx as [n [En Hn]]. unfold m in En.
    rewrite rename_both_roles in En.
    destruct (String.eqb col n) eqn:E; [discriminate|]. subst n.
    destruct Hid as [Hid|Hid].
    - unfold has_column in Hid.
      assert (Ht : existsb (String.eqb "case_id") (columns df) = true).
      { apply existsb_exists. exists "case_id". split; [exact Hn|].
        apply String.eqb_refl. }
      congruence.
    - subst col. rewrite String.eqb_refl in E. discriminate. }
  assert (Hfail : forall d, has_column "case_id" d = false ->
                            analyze_dataframe parse_datetime d
                            = inl (ValueError schema_message)).
  { intros d Hd. unfold analyze_dataframe, issubset. cbn [forallb].
    rewrite Hd. reflexivity. }
  destruct (has_column "timestamp" _) eqn:Et.
  - rewrite Hfail; [reflexivity|exact Hno].
  - rewrite Hfail; [reflexivity|exact Hno].
Qed.

End EndpointFacts.

(** * The summary for the language model *)

Section Payload.

Context {quicksort : NumpyArgsort}.
Variable parse_datetime : string -> option Z.

(** X24 -- The summary that goes into the prompt of the report, for the
    result of an analysis: its two numbers are [num_steps] and
    [num_transitions] of the statistics, and its [top_nodes] are ten of the
    most frequent steps (all of them when there are ten or fewer): no step
    left out occurs more often than a step that is kept. *)
Theorem summary_keeps_the_most_frequent_steps (df : DataFrame) :
  required_columns df ->
  exists r,
    analyze_dataframe parse_datetime df = inr r
    /\ summary_num_nodes (graph_summary (graph r)) = num_steps (stats r)
    /\ summary_num_edges (graph_summary (graph r)) = num_transitions (stats r)
    /\ List.length (top_nodes (graph_summary (graph r)))
       = Nat.min 10 (num_steps (stats r))
    /\ (forall kept left_out,
           In kept (top_nodes (graph_summary (graph r))) ->
           In left_out (skipn 10 (nodes (graph r))) ->
           node_count left_out <= node_count kept).
Proof.
  intro Hreq. rewrite (analyze_dataframe_returns _ _ Hreq).
  eexists. split; [reflexivity|].
  cbn [graph stats nodes edges graph_summary summary_num_nodes
       summary_num_edges top_nodes num_steps num_transitions].
  rewrite !length_map. split; [reflexivity|]. split; [reflexivity|].
  split.
  - rewrite length_firstn, length_map. reflexivity.
  - intros kept left_out Hk Hl.
    refine (StronglySorted_firstn_skipn
              (fun a b => node_count b <= node_count a) _ 10 kept left_out
              _ Hk Hl).
    apply StronglySorted_unmap. cbn [node_count]. apply value_counts_sorted.
Qed.

End Payload.

(** * The further properties at the examples *)

Lemma stats_count_the_table_witness :
  exists r,
    analyze_dataframe (quicksort := stable_quicksort) parse_epoch scenario
    = inr r
    /\ num_events (stats r) = List.length (rows scenario)
    /\ num_cases (stats r) = nunique (map case_id (rows scenario))
    /\ num_steps (stats r)
       = List.length (nodup string_dec (present (map step (rows scenario))))
    /\ num_steps (stats r) = List.length (nodes (graph r))
    /\ num_transitions (stats r) = List.length (edges (graph r)).
Proof.
  apply (stats_count_the_table (quicksort := stable_quicksort)).
  split; reflexivity.
Defined.

Lemma nodes_are_the_steps_witness :
  exists r,
    analyze_dataframe (quicksort := stable_quicksort) parse_epoch scenario
    = inr r
    /\ NoDup (map node_id (nodes (graph r)))
    /\ (forall s, In s (map node_id (nodes (graph r)))
                  <-> exists row, In row (rows scenario) /\ step row = Some s)
    /\ (forall n, In n (nodes (graph r)) ->
                  node_count n
                  = occurrences (node_id n)
                                (present (map step (rows scenario)))
                  /\ 1 <= node_count n).
Proof.
  apply (nodes_are_the_steps_with_their_frequencies
           (quicksort := stable_quicksort)).
  split; reflexivity.
Defined.


Lemma edge_ends_are_nodes_witness :
  exists r,
    analyze_dataframe (quicksort := stable_quicksort) parse_epoch scenario
    = inr r
    /\ forall e s,
         In e (edges (graph r)) ->
         edge_from e = Some s \/ edge_to e = Some s ->
         In s (map node_id (nodes (graph r))).
Proof.
  apply (edge_ends_are_nodes (quicksort := stable_quicksort)).
  split; reflexivity.
Defined.

Lemma analysis_of_a_table_without_rows_witness :
  analyze_dataframe (quicksort := stable_quicksort) parse_epoch empty_log
  = inr (mkResult (mkStats 0 0 0 0) (mkGraph [] []) NoTimestamp).
Proof.
  apply (analysis_of_a_table_without_rows (quicksort := stable_quicksort)).
  - split; reflexivity.
  - reflexivity.
Defined.

Lemma timestamps_may_be_parsed_beforehand_witness :
  analyze_dataframe (quicksort := stable_quicksort) parse_epoch
    (mkDataFrame (columns scenario) (parse_column parse_epoch (rows scenario)))
  = analyze_dataframe (quicksort := stable_quicksort) parse_epoch scenario.
Proof.
  apply (timestamps_may_be_parsed_beforehand (quicksort := stable_quicksort)).
  reflexivity.
Defined.

Lemma single_event_cases_witness :
  match compute_kpis (quicksort := stable_quicksort) parse_epoch
                     single_events with
  | NoTimestamp => True
  | WithTimestamp ct sd ss td st =>
      sd = [] /\ ss = [] /\ td = [] /\ st = []
      /\ (ct = mkCycleTime None None None
          \/ ct = mkCycleTime (Some (Fin 0)) (Some (Fin 0)) (Some (Fin 0)))
  end.
Proof.
  apply (single_event_cases_take_no_time (quicksort := stable_quicksort)).
  simpl. repeat constructor; simpl; intuition discriminate.
Defined.


Lemma one_account_ok : db_ok one_account.
Proof. apply run_ok, init_db_ok. Qed.

Lemma current_user_iff_session_witness :
  (forall id email,
      get_current_user (Some "0a1b2c") one_account = inr (id, email)
      <-> exists token s u,
            Some "0a1b2c" = Some token /\ token <> ""
            /\ In s (sessions one_account) /\ s_token s = token
            /\ In u (users one_account) /\ u_id u = s_user_id s
            /\ id = u_id u /\ email = u_email u)
  /\ (forall err, get_current_user (Some "0a1b2c") one_account = inl err ->
                  status_code err = 401).
Proof.
  apply (current_user_iff_session (Some "0a1b2c") one_account).
  exact one_account_ok.
Defined.

Lemma login_succeeds_iff_witness :
  let answer :=
    fst (login (hashlib := toy_hashlib) "ana@example.org" "secret1" "ffff"
               "2024-01-02T00:00:00" one_account) in
  let db' :=
    snd (login (hashlib := toy_hashlib) "ana@example.org" "secret1" "ffff"
               "2024-01-02T00:00:00" one_account) in
  ((exists x, answer = inr x)
   <-> exists u, In u (users one_account) /\ u_email u = "ana@example.org"
                 /\ u_password_hash u
                    = hash_password (hashlib := toy_hashlib) "secret1")
  /\ (forall err, answer = inl err ->
                  status_code err = 401 /\ db' = one_account)
  /\ (forall x, answer = inr x ->
        x = ("ffff", "ana@example.org")
        /\ users db' = users one_account
        /\ exists u, In u (users one_account)
                     /\ u_email u = "ana@example.org"
                     /\ In (mkSessionRow "ffff" (u_id u) "2024-01-02T00:00:00")
                           (sessions db')).
Proof.
  apply (login_succeeds_iff (hashlib := toy_hashlib)).
  exact one_account_ok.
Defined.

Lemma a_new_account_can_log_in_witness :
  let db1 :=
    snd (register (hashlib := toy_hashlib) "bob@example.org" "secret2"
                  "2024-01-02T00:00:00" one_account) in
  let db2 :=
    snd (login (hashlib := toy_hashlib) "bob@example.org" "secret2" "ffff"
               "2024-01-02T00:01:00" db1) in
  fst (register (hashlib := toy_hashlib) "bob@example.org" "secret2"
                "2024-01-02T00:00:00" one_account)
  = inr "bob@example.org"
  /\ fst (login (hashlib := toy_hashlib) "bob@example.org" "secret2" "ffff"
                "2024-01-02T00:01:00" db1)
     = inr ("ffff", "bob@example.org")
  /\ exists id, get_current_user (Some "ffff") db2
                = inr (id, "bob@example.org").
Proof.
  apply (a_new_account_can_log_in (hashlib := toy_hashlib)).
  - exact one_account_ok.
  - simpl. lia.
  - simpl. intuition discriminate.
  - discriminate.
Defined.

Lemma a_session_does_not_expire_witness :
  get_current_user
    (Some "0a1b2c")
    (run (hashlib := toy_hashlib)
         [ Register "bob@example.org" "secret2" "2024-01-02T00:00:00";
           Login "bob@example.org" "secret2" "ffff" "2024-01-02T00:01:00";
           Login "ana@example.org" "secret1" "eeee" "2024-01-03T00:00:00" ]
         one_account)
  = inr (1%Z, "ana@example.org").
Proof.
  apply (a_session_does_not_expire (hashlib := toy_hashlib)).
  - exact one_account_ok.
  - reflexivity.
  - simpl. intros q [<-|[<-|[<-|[]]]]; simpl; [tauto|discriminate|discriminate].
Defined.

Lemma one_column_in_both_roles_witness :
  analyze_mapped (quicksort := stable_quicksort) parse_epoch
                 (fun s => s) (fun _ _ => None) (fun _ d => rows d)
                 (Some "0a1b2c") one_account ticket_upload
                 "ticket" "ticket" "" false
  = Uncaught (ValueError schema_message).
Proof.
  apply (one_column_in_both_roles_fails
           (quicksort := stable_quicksort) parse_epoch
           (fun s => s) (fun _ _ => None) (fun _ d => rows d)
           (Some "0a1b2c") one_account ticket_upload
           (1%Z, "ana@example.org")
           (mkDataFrame ["ticket"; "status"]
                        [event (Some 1%Z) (Some "open") Missing])
           "ticket" "" false).
  - reflexivity.
  - reflexivity.
  - reflexivity.
  - reflexivity.
  - left. reflexivity.
  - left. reflexivity.
Defined.

Lemma summary_keeps_the_most_frequent_steps_witness :
  exists r,
    analyze_dataframe (quicksort := stable_quicksort) parse_epoch scenario
    = inr r
    /\ summary_num_nodes (graph_summary (graph r)) = num_steps (stats r)
    /\ summary_num_edges (graph_summary (graph r)) = num_transitions (stats r)
    /\ List.length (top_nodes (graph_summary (graph r)))
       = Nat.min 10 (num_steps (stats r))
    /\ (forall kept left_out,
           In kept (top_nodes (graph_summary (graph r))) ->
           In left_out (skipn 10 (nodes (graph r))) ->
           node_count left_out <= node_count kept).
Proof.
  apply (summary_keeps_the_most_frequent_steps (quicksort := stable_quicksort)).
  split; reflexivity.
Defined.
